(** * convPoolNeuralNetwork.py: a shallow embedding and its properties

    The program is a fixed-shape convolution / max-pooling / dense / softmax
    network written with numpy.  The embedding below follows the source
    function by function.

    - float64 values are modelled as real numbers ([R]); rounding, infinities
      and NaN are outside the model.
    - a numpy array is a shape together with its row-major (C order) buffer;
      Python floats and numpy scalars are arrays of shape [[]].
    - Python dictionaries with string keys are [gmap string _].
    - Python exceptions are values of [exn]; fallible code lives in [result],
      code that mutates a dictionary in place threads the dictionary. *)

From Stdlib Require Import Reals Lra Lia ZArith.
From stdpp Require Import base list gmap strings pretty.

#[global] Instance R_inhabited : Inhabited R := populate 0%R.
#[global] Instance R_eq_dec : EqDecision R := Req_dec_T.
#[global] Instance Rlt_decision (x y : R) : Decision (x < y)%R := Rlt_dec x y.

(** Python integers. *)
Abbreviation int := Z.

(** ** Python exceptions *)

Inductive exn : Set :=
  | IndexError
  | KeyError
  | ValueError
  | ZeroDivisionError
  | UnboundLocalError
  | NotModelled.   (* an operand rank the embedding does not cover *)

Inductive result (A : Type) : Type :=
  | Ok (a : A)
  | Raise (e : exn).
Arguments Ok {A} a.
Arguments Raise {A} e.

#[global] Instance result_ret : MRet result := @Ok.
#[global] Instance result_bind : MBind result :=
  λ A B f r, match r with Ok a => f a | Raise e => Raise e end.

Definition is_Ok {A} (r : result A) : Prop := ∃ a, r = Ok a.

(** [d[k]] on a dictionary. *)
Definition dict_get {V} (d : gmap string V) (k : string) : result V :=
  match d !! k with Some v => Ok v | None => Raise KeyError end.

(** [str(n)] for a non-negative integer. *)
Definition str (n : nat) : string := pretty n.

(** [for x in xs: body], threading a state and stopping at the first
    exception. *)
Fixpoint for_each {S X} (xs : list X) (body : X → S → result S) (s : S)
  : result S :=
  match xs with
  | [] => Ok s
  | x :: xs' => s' ← body x s; for_each xs' body s'
  end.

(** [range(n)] *)
Definition range (n : nat) : list nat := seq 0 n.

(** ** numpy arrays *)

Record ndarray (A : Type) : Type := NdArray { shape : list nat; data : list A }.
Arguments NdArray {A} shape data.
Arguments shape {A} _.
Arguments data {A} _.

(** Number of elements of an array of shape [sh]. *)
Definition size_of (sh : list nat) : nat := foldr Nat.mul 1 sh.

(** [a.size] *)
Definition nd_size {A} (a : ndarray A) : nat := size_of (shape a).

Definition has_shape {A} (a : ndarray A) (sh : list nat) : Prop :=
  shape a = sh ∧ length (data a) = size_of sh.

(** Row-major position of a multi-index, and back. *)
Fixpoint ravel (sh idx : list nat) : nat :=
  match sh, idx with
  | _ :: sh', i :: idx' => i * size_of sh' + ravel sh' idx'
  | _, _ => 0
  end.

Fixpoint unravel (sh : list nat) (k : nat) : list nat :=
  match sh with
  | [] => []
  | _ :: sh' => (k / size_of sh') :: unravel sh' (k mod size_of sh')
  end.

Definition in_bounds (sh idx : list nat) : Prop := Forall2 lt idx sh.

(** [a[i0, i1, ...]] for indices known to be in range. *)
Definition nd_get {A} `{Inhabited A} (a : ndarray A) (idx : list nat) : A :=
  data a !!! ravel (shape a) idx.

(** A fresh array of shape [sh] whose element at [idx] is [f idx]. *)
Definition nd_build {A} (sh : list nat) (f : list nat → A) : ndarray A :=
  NdArray sh ((λ k, f (unravel sh k)) <$> seq 0 (size_of sh)).

(** In-place element-wise update: the element at [idx] becomes
    [f idx old]. *)
Definition nd_update {A} (a : ndarray A) (f : list nat → A → A) : ndarray A :=
  NdArray (shape a) (imap (λ k x, f (unravel (shape a) k) x) (data a)).

Definition nd_map {A B} (f : A → B) (a : ndarray A) : ndarray B :=
  NdArray (shape a) (f <$> data a).

Definition nd_scalar {A} (x : A) : ndarray A := NdArray [] [x].

Definition build1 {A} (n : nat) (f : nat → A) : ndarray A :=
  nd_build [n] (λ idx, f (idx !!! 0)).
Definition build2 {A} (n m : nat) (f : nat → nat → A) : ndarray A :=
  nd_build [n; m] (λ idx, f (idx !!! 0) (idx !!! 1)).
Definition build3 {A} (n m p : nat) (f : nat → nat → nat → A) : ndarray A :=
  nd_build [n; m; p] (λ idx, f (idx !!! 0) (idx !!! 1) (idx !!! 2)).
Definition build4 {A} (n m p q : nat) (f : nat → nat → nat → nat → A)
  : ndarray A :=
  nd_build [n; m; p; q]
    (λ idx, f (idx !!! 0) (idx !!! 1) (idx !!! 2) (idx !!! 3)).

(** [np.zeros(sh)]; [np.empty(sh)] is modelled by the same array: the
    program overwrites every element before reading it. *)
Definition np_zeros (sh : list nat) : ndarray R := nd_build sh (λ _, 0%R).
Definition np_empty (sh : list nat) : ndarray R := np_zeros sh.
Definition np_empty_int (sh : list nat) : ndarray int := nd_build sh (λ _, 0%Z).

(** *** Broadcasting

    Shapes are aligned at their last dimension; two dimensions are
    compatible when they are equal or one of them is 1. *)

Fixpoint broadcast_rev (s1 s2 : list nat) : result (list nat) :=
  match s1, s2 with
  | [], s | s, [] => Ok s
  | d1 :: s1', d2 :: s2' =>
      rest ← broadcast_rev s1' s2';
      if decide (d1 = d2) then Ok (d1 :: rest)
      else if decide (d1 = 1) then Ok (d2 :: rest)
      else if decide (d2 = 1) then Ok (d1 :: rest)
      else Raise ValueError
  end.

Definition broadcast_shapes (s1 s2 : list nat) : result (list nat) :=
  sh ← broadcast_rev (reverse s1) (reverse s2); Ok (reverse sh).

(** The index into an operand of shape [sh] that the result index [idx]
    reads. *)
Definition bcast_idx (sh idx : list nat) : list nat :=
  zip_with (λ d i, if decide (d = 1) then 0 else i)
           sh (drop (length idx - length sh) idx).

(** An element-wise binary operator on two arrays, broadcasting them to a
    common shape. *)
Definition np_binop {A B C} `{Inhabited A, Inhabited B}
    (f : A → B → C) (a : ndarray A) (b : ndarray B) : result (ndarray C) :=
  sh ← broadcast_shapes (shape a) (shape b);
  Ok (nd_build sh (λ idx, f (nd_get a (bcast_idx (shape a) idx))
                            (nd_get b (bcast_idx (shape b) idx)))).

(** In-place [a op= b]: [b] is broadcast to the shape of [a], which cannot
    change.  On a scalar (shape [[]]) Python rebinds the name to [a op b]
    instead, so the result takes the broadcast shape. *)
Definition np_iop {A B} `{Inhabited A, Inhabited B}
    (f : A → B → A) (a : ndarray A) (b : ndarray B) : result (ndarray A) :=
  match shape a with
  | [] => np_binop f a b
  | _ =>
      sh ← broadcast_shapes (shape a) (shape b);
      if decide (sh = shape a)
      then Ok (nd_update a (λ idx x, f x (nd_get b (bcast_idx (shape b) idx))))
      else Raise ValueError
  end.

(** *** Sums, products, reductions *)

Definition sumR (l : list R) : R := foldr Rplus 0%R l.

(** The sum of [f 0], ..., [f (n-1)]. *)
Definition rsum (n : nat) (f : nat → R) : R := sumR (f <$> range n).

(** The maximum of [f 0], ..., [f (n-1)] for [n ≥ 1]. *)
Definition rmax_upto (n : nat) (f : nat → R) : R :=
  foldl Rmax (f 0) (f <$> seq 1 (n - 1)).

(** [a.shape[k]] *)
Definition shape_at {A} (a : ndarray A) (k : nat) : result nat :=
  match shape a !! k with Some d => Ok d | None => Raise IndexError end.

(** [np.dot(a, b)] for two matrices. *)
Definition np_dot (a b : ndarray R) : result (ndarray R) :=
  match shape a, shape b with
  | [n; k], [k'; m] =>
      if decide (k = k')
      then Ok (build2 n m (λ i j,
                 rsum k (λ l, nd_get a [i; l] * nd_get b [l; j])%R))
      else Raise ValueError
  | _, _ => Raise NotModelled
  end.

(** [np.transpose(a)] for a matrix. *)
Definition np_transpose (a : ndarray R) : result (ndarray R) :=
  match shape a with
  | [n; m] => Ok (build2 m n (λ i j, nd_get a [j; i]))
  | _ => Raise NotModelled
  end.

(** [np.sum(a, axis=0, keepdims=True)] for a matrix. *)
Definition np_sum_axis0_keepdims (a : ndarray R) : result (ndarray R) :=
  match shape a with
  | [n; m] => Ok (build2 1 m (λ _ j, rsum n (λ i, nd_get a [i; j])))
  | _ => Raise NotModelled
  end.

(** [np.sum(a, axis=1, keepdims=True)] for a matrix. *)
Definition np_sum_axis1_keepdims (a : ndarray R) : result (ndarray R) :=
  match shape a with
  | [n; m] => Ok (build2 n 1 (λ i _, rsum m (λ j, nd_get a [i; j])))
  | _ => Raise NotModelled
  end.

(** [np.max(a, axis=0, keepdims=True)] for a matrix; numpy refuses to
    reduce an axis of length 0 with an operation that has no identity. *)
Definition np_max_axis0_keepdims (a : ndarray R) : result (ndarray R) :=
  match shape a with
  | [n; m] =>
      if decide (n = 0) then Raise ValueError
      else Ok (build2 1 m (λ _ j, rmax_upto n (λ i, nd_get a [i; j])))
  | _ => Raise NotModelled
  end.

(** [np.sum(a)]: the sum of all elements. *)
Definition np_sum (a : ndarray R) : R := sumR (data a).

(** [np.mean(a)] *)
Definition np_mean (a : ndarray R) : R := (np_sum a / INR (nd_size a))%R.

(** [a[mask] = v] for a boolean mask of the shape of [a]. *)
Definition np_setmask {A} (a : ndarray A) (mask : ndarray bool) (v : A)
  : result (ndarray A) :=
  if decide (shape mask = shape a)
  then Ok (nd_update a (λ idx x, if nd_get mask idx then v else x))
  else if decide (length (shape mask) < length (shape a))
       then Raise NotModelled
       else Raise IndexError.

(** ** Activation library *)

Abbreviation cache_t := (gmap string (ndarray R)).

(** [relu(Z)] (source lines 13-27) *)
Definition relu (Z : ndarray R) : ndarray R * cache_t :=
  let A := nd_map (Rmax 0) Z in              (* np.maximum(0, Z) *)
  let cache : cache_t := ∅ in
  let cache := <["Z" := Z]> cache in
  (A, cache).

(** [relu_der(dA, cache)] (source lines 30-45) *)
Definition relu_der (dA : ndarray R) (cache : cache_t) : result (ndarray R) :=
  let dZ := dA in                            (* np.array(dA, copy=True) *)
  Z ← dict_get cache "Z";
  dZ ← np_setmask dZ (nd_map (λ z, bool_decide (z < 0)%R) Z) 0%R;
  Ok dZ.

(** [linear(Z)] (source lines 48-62) *)
Definition linear (Z : ndarray R) : ndarray R * cache_t :=
  let A := Z in
  let cache : cache_t := ∅ in
  (A, cache).

(** [linear_der(dA, cache)] (source lines 65-79) *)
Definition linear_der (dA : ndarray R) (cache : cache_t) : result (ndarray R) :=
  let dZ := dA in
  Ok dZ.

(** ** Dense layer engine *)

(** [linear_forward(A, W, b)] (source lines 153-171) *)
Definition linear_forward (A W b : ndarray R) : result (ndarray R * cache_t) :=
  WA ← np_dot W A;
  Z ← np_binop Rplus WA b;
  let cache : cache_t := ∅ in
  let cache := <["A" := A]> cache in
  Ok (Z, cache).

(** The cache of one layer: the dictionary with the keys ["lin_cache"] and
    ["act_cache"]. *)
Record layer_cache := LayerCache { lin_cache : cache_t; act_cache : cache_t }.

(** [layer_forward(A_prev, W, b, activation)] (source lines 174-199) *)
Definition layer_forward (A_prev W b : ndarray R) (activation : string)
  : result (ndarray R * layer_cache) :=
  '(Z, lin_cache) ← linear_forward A_prev W b;
  '(A, act_cache) ←
    (if decide (activation = "relu") then Ok (relu Z)
     else if decide (activation = "linear") then Ok (linear Z)
     else Raise UnboundLocalError);
  Ok (A, LayerCache lin_cache act_cache).

(** [multi_layer_forward(X, parameters)] (source lines 202-223) *)
Definition multi_layer_forward (X : ndarray R) (parameters : cache_t)
  : result (ndarray R * list layer_cache) :=
  let L := size parameters / 2 in
  let A := X in
  let caches : list layer_cache := [] in
  '(A, caches) ←
    for_each (seq 1 (L - 1)) (λ l '(A, caches),
      W ← dict_get parameters ("W" +:+ str l);
      b ← dict_get parameters ("b" +:+ str l);
      '(A, cache) ← layer_forward A W b "relu";
      Ok (A, caches ++ [cache])) (A, caches);
  W ← dict_get parameters ("W" +:+ str L);
  b ← dict_get parameters ("b" +:+ str L);
  '(AL, cache) ← layer_forward A W b "linear";
  Ok (AL, caches ++ [cache]).

(** [linear_backward(dZ, cache, W, b)] (source lines 258-281) *)
Definition linear_backward (dZ : ndarray R) (cache : cache_t) (W b : ndarray R)
  : result (ndarray R * ndarray R * ndarray R) :=
  A_prev ← dict_get cache "A";
  m ← shape_at dZ 1;
  Wt ← np_transpose W;
  dA_prev ← np_dot Wt dZ;
  At ← np_transpose A_prev;
  dZAt ← np_dot dZ At;
  dW ← np_binop Rdiv dZAt (nd_scalar (INR m));
  s ← np_sum_axis1_keepdims dZ;
  db ← np_binop Rdiv s (nd_scalar (INR m));
  Ok (dA_prev, dW, db).

(** [layer_backward(dA, cache, W, b, activation)] (source lines 284-313) *)
Definition layer_backward (dA : ndarray R) (cache : layer_cache)
    (W b : ndarray R) (activation : string)
  : result (ndarray R * ndarray R * ndarray R) :=
  let lin_cache := lin_cache cache in
  let act_cache := act_cache cache in
  dZ ←
    (if decide (activation = "relu") then relu_der dA act_cache
     else if decide (activation = "linear") then linear_der dA act_cache
     else Raise UnboundLocalError);
  linear_backward dZ lin_cache W b.

(** [caches[k]] for a non-negative [k]. *)
Definition list_get {X} (l : list X) (k : nat) : result X :=
  match l !! k with Some x => Ok x | None => Raise IndexError end.

(** [multi_layer_backward(dAL, caches, parameters)] (source lines 316-340) *)
Definition multi_layer_backward (dAL : ndarray R) (caches : list layer_cache)
    (parameters : cache_t) : result cache_t :=
  let L := length caches in
  let gradients : cache_t := ∅ in
  let dA := dAL in
  let activation := "linear" in
  '(dA, gradients, activation) ←
    for_each (reverse (seq 1 L)) (λ l '(dA, gradients, activation),
      cache ← list_get caches (l - 1);
      W ← dict_get parameters ("W" +:+ str l);
      b ← dict_get parameters ("b" +:+ str l);
      '(dA, dW, db) ← layer_backward dA cache W b activation;
      let gradients := <["dW" +:+ str l := dW]> gradients in
      let gradients := <["db" +:+ str l := db]> gradients in
      Ok (dA, gradients, "relu")) (dA, gradients, activation);
  let gradients := <["dA" := dA]> gradients in
  Ok gradients.

(** ** Softmax / cross-entropy head *)

(** A Python index [k] into an axis of length [n]: negative values count
    from the end, anything outside [-n, n) raises [IndexError]. *)
Definition py_norm_index (n : nat) (k : int) : result nat :=
  if decide (0 ≤ k < Z.of_nat n)%Z then Ok (Z.to_nat k)
  else if decide (- Z.of_nat n ≤ k < 0)%Z then Ok (Z.to_nat (k + Z.of_nat n))
  else Raise IndexError.

(** [a[k]] for an integer [k]: the sub-array at position [k] of the first
    axis.  Indexing a scalar raises [IndexError]. *)
Definition np_item {A} (a : ndarray A) (k : int) : result (ndarray A) :=
  match shape a with
  | [] => Raise IndexError
  | n :: sh' =>
      i ← py_norm_index n k;
      Ok (NdArray sh' (take (size_of sh') (drop (i * size_of sh') (data a))))
  end.

(** The Python float held by a scalar. *)
Definition np_float (a : ndarray R) : R := nd_get a [].

(** [[f(x) for x in xs]] *)
Fixpoint list_comp {X Y} (f : X → result Y) (xs : list X) : result (list Y) :=
  match xs with
  | [] => Ok []
  | x :: xs' => y ← f x; ys ← list_comp f xs'; Ok (y :: ys)
  end.

(** [np.array(l)] for a list of floats. *)
Definition np_array1 (l : list R) : ndarray R := NdArray [length l] l.

(** [a[r][c] -= v]: [a[r]] is a view of row [r], whose element [c] is
    decremented in place. *)
Definition np_isub_at2 (a : ndarray R) (r c : int) (v : R) : result (ndarray R) :=
  match shape a with
  | [n; m] =>
      i ← py_norm_index n r;
      j ← py_norm_index m c;
      Ok (nd_update a (λ idx x, if decide (idx = [i; j]) then (x - v)%R else x))
  | [] | [_] => Raise IndexError
  | _ => Raise NotModelled
  end.

(** [softmax_cross_entropy_loss(Z, Y)] (source lines 82-108).  [Y] is the
    label row [Y[0]] of the (1, m) label array, so that [Y.size] is its
    length; the default [np.array([])] is the empty row.  [np.log] of a
    non-positive number (nan or -inf in numpy) is whatever [ln] is there. *)
Definition softmax_cross_entropy_loss (Z : ndarray R) (Y : list int)
  : result (ndarray R * cache_t * R) :=
  mZ ← np_max_axis0_keepdims Z;
  ZmZ ← np_binop Rminus Z mZ;
  let expZ := nd_map exp ZmZ in
  s ← np_sum_axis0_keepdims expZ;
  A ← np_binop Rdiv expZ s;
  let cache : cache_t := ∅ in
  let cache := <["A" := A]> cache in
  IA ← list_comp (λ i,
          y ← list_get Y i;
          row ← np_item A y;
          x ← np_item row (Z.of_nat i);
          Ok (np_float x)) (range (length Y));
  let IA := nd_map (λ p, (p - 0.5) * 0.9999999999 + 0.5)%R (np_array1 IA) in
  let loss := (- np_mean (nd_map ln IA))%R in
  Ok (A, cache, loss).

(** [softmax_cross_entropy_loss_der(Y, cache)] (source lines 111-126) *)
Definition softmax_cross_entropy_loss_der (Y : list int) (cache : cache_t)
  : result (ndarray R) :=
  A ← dict_get cache "A";
  let dZ := A in                             (* cache["A"].copy() *)
  dZ ← for_each (range (length Y)) (λ i dZ,
          y ← list_get Y i;
          np_isub_at2 dZ y (Z.of_nat i) 1) dZ;
  Ok dZ.

(** ** Convolution / pooling engine *)

(** *** The numpy and scipy operations it uses *)

(** [a.reshape(sh)]: the same buffer under another shape. *)
Definition np_reshape {A} (a : ndarray A) (sh : list nat) : result (ndarray A) :=
  if decide (size_of sh = nd_size a) then Ok (NdArray sh (data a))
  else Raise ValueError.

(** [X[:, :, j]] for a 3-dimensional array and [0 ≤ j]. *)
Definition np_slice_last {A} `{Inhabited A} (X : ndarray A) (j : nat)
  : result (ndarray A) :=
  match shape X with
  | [h; w; m] =>
      if decide (j < m) then Ok (build2 h w (λ u v, nd_get X [u; v; j]))
      else Raise IndexError
  | [] | [_] | [_; _] => Raise IndexError
  | _ => Raise NotModelled
  end.

(** [masks[:, :, i, j]] for a 4-dimensional array and [0 ≤ i], [0 ≤ j]. *)
Definition np_slice_last2 {A} `{Inhabited A} (a : ndarray A) (i j : nat)
  : result (ndarray A) :=
  match shape a with
  | [h; w; p; q] =>
      if decide (i < p ∧ j < q)
      then Ok (build2 h w (λ u v, nd_get a [u; v; i; j]))
      else Raise IndexError
  | [] | [_] | [_; _] | [_; _; _] => Raise IndexError
  | _ => Raise NotModelled
  end.

(** [scipy.signal.convolve2d(in1, in2, mode='valid')] for a kernel [in2]
    that fits into [in1]: a true convolution, the kernel is flipped.
    scipy raises [ValueError] when neither operand fits into the other. *)
Definition convolve2d_valid (in1 in2 : ndarray R) : result (ndarray R) :=
  match shape in1, shape in2 with
  | [h; w], [kh; kw] =>
      if decide (1 ≤ kh ≤ h ∧ 1 ≤ kw ≤ w)
      then Ok (build2 (h - kh + 1) (w - kw + 1) (λ r c,
                 rsum kh (λ a, rsum kw (λ b,
                   Rmult (nd_get in2 [a; b])
                         (nd_get in1 [r + (kh - 1) - a; c + (kw - 1) - b])))))
      else if decide (h ≤ kh ∧ w ≤ kw ∨ h = 0 ∨ w = 0 ∨ kh = 0 ∨ kw = 0)
           then Raise NotModelled      (* scipy swaps the operands *)
           else Raise ValueError
  | _, _ => Raise ValueError
  end.

(** [np.repeat(z, 2, axis=0)] and [np.repeat(z, 2, axis=1)] for a matrix. *)
Definition np_repeat2_axis0 {A} `{Inhabited A} (z : ndarray A)
  : result (ndarray A) :=
  match shape z with
  | [h; w] => Ok (build2 (2 * h) w (λ u v, nd_get z [u / 2; v]))
  | _ => Raise NotModelled
  end.

Definition np_repeat2_axis1 {A} `{Inhabited A} (z : ndarray A)
  : result (ndarray A) :=
  match shape z with
  | [h; w] => Ok (build2 h (2 * w) (λ u v, nd_get z [u; v / 2]))
  | _ => Raise NotModelled
  end.

(** [z[1:-1, 1:-1]] for a matrix. *)
Definition np_trim1 {A} `{Inhabited A} (z : ndarray A) : result (ndarray A) :=
  match shape z with
  | [h; w] => Ok (build2 (h - 2) (w - 2) (λ u v, nd_get z [u + 1; v + 1]))
  | [] | [_] => Raise IndexError
  | _ => Raise NotModelled
  end.

(** [z.max(axis=(1, 3))] for a 4-dimensional array. *)
Definition np_max_axes13 (z : ndarray R) : result (ndarray R) :=
  match shape z with
  | [a; b; c; d] =>
      if decide (b = 0 ∨ d = 0) then Raise ValueError
      else Ok (build2 a c (λ r s,
                 rmax_upto b (λ p, rmax_upto d (λ q, nd_get z [r; p; s; q]))))
  | _ => Raise NotModelled
  end.

(** [np.sum(z, axis=(1, 3))] for a 4-dimensional array. *)
Definition np_sum_axes13 (z : ndarray R) : result (ndarray R) :=
  match shape z with
  | [a; b; c; d] =>
      Ok (build2 a c (λ r s,
            rsum b (λ p, rsum d (λ q, nd_get z [r; p; s; q]))))
  | _ => Raise NotModelled
  end.

(** [np.sum(z, axis=2)] for a 3-dimensional array. *)
Definition np_sum_axis2 (z : ndarray R) : result (ndarray R) :=
  match shape z with
  | [a; b; c] => Ok (build2 a b (λ r s, rsum c (λ t, nd_get z [r; s; t])))
  | _ => Raise NotModelled
  end.

(** [np.pad(d, 1, 'constant', constant_values=0)] for a matrix. *)
Definition np_pad1 (d : ndarray R) : result (ndarray R) :=
  match shape d with
  | [h; w] =>
      Ok (build2 (h + 2) (w + 2) (λ u v,
            if decide (1 ≤ u ≤ h ∧ 1 ≤ v ≤ w) then nd_get d [u - 1; v - 1]
            else 0%R))
  | _ => Raise NotModelled
  end.

(** [Z[lo:hi, j]] for a matrix: the part of column [j] in rows
    [lo] to [hi - 1]. *)
Definition np_col_slice (Z : ndarray R) (lo hi j : nat) : result (ndarray R) :=
  match shape Z with
  | [n; m] =>
      if decide (j < m)
      then Ok (build1 (hi `min` n - lo `min` n) (λ k, nd_get Z [lo `min` n + k; j]))
      else Raise IndexError
  | [] | [_] => Raise IndexError
  | _ => Raise NotModelled
  end.

(** [Z[lo:hi, j] = v] for a matrix [Z]. *)
Definition np_set_col_slice (Z : ndarray R) (lo hi j : nat) (v : ndarray R)
  : result (ndarray R) :=
  match shape Z with
  | [n; m] =>
      if decide (j < m)
      then
        let len := hi `min` n - lo `min` n in
        sh ← broadcast_shapes [len] (shape v);
        if decide (sh = [len])
        then Ok (nd_update Z (λ idx x,
                   let r := idx !!! 0 in
                   if decide (lo `min` n ≤ r < hi `min` n ∧ idx !!! 1 = j)
                   then nd_get v (bcast_idx (shape v) [r - lo `min` n])
                   else x))
        else Raise ValueError
      else Raise IndexError
  | [] | [_] => Raise IndexError
  | _ => Raise NotModelled
  end.

(** [masks[:, :, i, j] = e] for a 4-dimensional integer array and a boolean
    array [e], stored as 0 and 1. *)
Definition np_set_slice_last2 (masks : ndarray int) (i j : nat)
    (e : ndarray bool) : result (ndarray int) :=
  match shape masks with
  | [h; w; p; q] =>
      if decide (i < p ∧ j < q)
      then
        sh ← broadcast_shapes [h; w] (shape e);
        if decide (sh = [h; w])
        then Ok (nd_update masks (λ idx x,
                   if decide (idx !!! 2 = i ∧ idx !!! 3 = j)
                   then
                     if nd_get e (bcast_idx (shape e) [idx !!! 0; idx !!! 1])
                     then 1%Z else 0%Z
                   else x))
        else Raise ValueError
      else Raise IndexError
  | [] | [_] | [_; _] | [_; _; _] => Raise IndexError
  | _ => Raise NotModelled
  end.

(** [dA[lo:hi]] for a matrix: rows [lo] to [hi - 1]. *)
Definition np_row_slice (dA : ndarray R) (lo hi : nat) : result (ndarray R) :=
  match shape dA with
  | [n; m] =>
      Ok (build2 (hi `min` n - lo `min` n) m
            (λ k s, nd_get dA [lo `min` n + k; s]))
  | [] => Raise IndexError
  | _ => Raise NotModelled
  end.

(** [A[x:x+3, y:y+3, :]] for a 3-dimensional array. *)
Definition np_patch3 (A : ndarray R) (x y : nat) : result (ndarray R) :=
  match shape A with
  | [h; w; m] =>
      Ok (build3 ((x + 3) `min` h - x `min` h) ((y + 3) `min` w - y `min` w) m
            (λ a b s, nd_get A [x `min` h + a; y `min` w + b; s]))
  | [] | [_] | [_; _] => Raise IndexError
  | _ => Raise NotModelled
  end.

(** *** The engine *)

(** The cache of the convolution stage: one dictionary whose values are
    float arrays, except ["masks"], an integer array. *)
Record conv_cache := ConvCache {
  conv_floats : cache_t;
  conv_ints : gmap string (ndarray int)
}.

Definition conv_cache_set (cache : conv_cache) (k : string) (v : ndarray R)
  : conv_cache :=
  ConvCache (<[k := v]> (conv_floats cache)) (delete k (conv_ints cache)).

Definition conv_cache_set_int (cache : conv_cache) (k : string)
    (v : ndarray int) : conv_cache :=
  ConvCache (delete k (conv_floats cache)) (<[k := v]> (conv_ints cache)).

(** The body of the inner loop of [conv_forward] (source lines 239-252),
    for filter [i] with weights [W] and bias [b], and sample [j]. *)
Definition conv_forward_sample (X W b : ndarray R) (i j : nat)
    (st : ndarray int * ndarray R) : result (ndarray int * ndarray R) :=
  let '(masks, Z) := st in
  let dim := 25 * 25 in
  Xj ← np_slice_last X j;
  z ← convolve2d_valid Xj W;
  z ← np_binop Rplus z b;
  z ← np_repeat2_axis0 z;
  z ← np_repeat2_axis1 z;
  z ← np_trim1 z;
  let z_prev := z in
  z ← np_reshape z [25; 2; 25; 2];
  z ← np_max_axes13 z;
  zflat ← np_reshape z [dim];
  Z ← np_set_col_slice Z (dim * i) (dim * (i + 1)) j zflat;
  _ ← np_reshape z [25; 25];
  z ← np_repeat2_axis0 z;
  z ← np_repeat2_axis1 z;
  e ← np_binop (λ x y : R, bool_decide (x = y)) z_prev z;
  masks ← np_set_slice_last2 masks i j e;
  Ok (masks, Z).

(** [conv_forward(X, parameters)] (source lines 226-255) *)
Definition conv_forward (X : ndarray R) (parameters : cache_t)
  : result (ndarray R * conv_cache) :=
  let cache := ConvCache ∅ ∅ in
  m ← shape_at X 2;
  let cache := conv_cache_set cache "A" X in
  let dim := 25 * 25 in
  let masks := np_empty_int [50; 50; 5; m] in
  let Z := np_empty [dim * 5; m] in
  '(cache, masks, Z) ←
    for_each (range 5) (λ i '(cache, masks, Z),
      W ← dict_get parameters ("convW" +:+ str (i + 1));
      b ← dict_get parameters ("convb" +:+ str (i + 1));
      let cache := conv_cache_set cache ("convW" +:+ str (i + 1)) W in
      let cache := conv_cache_set cache ("convb" +:+ str (i + 1)) b in
      '(masks, Z) ← for_each (range m) (conv_forward_sample X W b i) (masks, Z);
      Ok (cache, masks, Z)) (cache, masks, Z);
  let cache := conv_cache_set_int cache "masks" masks in
  Ok (Z, cache).

(** The first half of the body of the pooling loop of [conv_backward]
    (source lines 352-356), for sample [i] and filter [j]: every pooled
    gradient value is copied to the four positions of its window and
    multiplied by the mask. *)
Definition conv_backward_route (dA : ndarray R) (masks : ndarray int)
    (i j : nat) : result (ndarray R) :=
  let dim0 := 25 * 25 in
  mask ← np_slice_last2 masks j i;
  d ← np_col_slice dA (j * dim0) ((j + 1) * dim0) i;
  d ← np_reshape d [25; 25];
  d ← np_repeat2_axis0 d;
  d ← np_repeat2_axis1 d;
  np_binop (λ (x : R) (k : int), x * IZR k)%R d mask.

(** The body of the pooling loop of [conv_backward] (source lines
    352-359). *)
Definition conv_backward_unpool (dA : ndarray R) (masks : ndarray int)
    (i j : nat) (dA_prev : ndarray R) : result (ndarray R) :=
  let dim := 26 * 26 in
  d ← conv_backward_route dA masks i j;
  d ← np_pad1 d;
  d ← np_reshape d [26; 2; 26; 2];
  s ← np_sum_axes13 d;
  s ← np_reshape s [dim];
  np_set_col_slice dA_prev (j * dim) ((j + 1) * dim) i s.

(** The filter gradient of [conv_backward] (source lines 370-375): the
    accumulation over the 676 output positions. *)
Definition conv_backward_dW (A dZ : ndarray R) : result (ndarray R) :=
  let dW := np_zeros [3; 3] in
  for_each (range (26 * 26)) (λ j dW,
    let x := j / 26 in
    let y := j mod 26 in
    Aslice ← np_patch3 A x y;
    dZj ← np_item dZ (Z.of_nat j);
    prod ← np_binop Rmult Aslice dZj;
    s ← np_sum_axis2 prod;
    np_iop Rplus dW s) dW.

(** [conv_backward(dA, cache, parameters)] (source lines 343-378) *)
Definition conv_backward (dA : ndarray R) (cache : conv_cache)
    (parameters : cache_t) : result cache_t :=
  m ← shape_at dA 1;
  masks ← dict_get (conv_ints cache) "masks";
  let dA_prev := np_zeros [26 * 26 * 5; m] in
  let dim := 26 * 26 in
  dA_prev ←
    for_each (range m) (λ i dA_prev,
      for_each (range 5) (conv_backward_unpool dA masks i) dA_prev) dA_prev;
  let dA := dA_prev in
  m ← shape_at dA 1;
  A ← dict_get (conv_floats cache) "A";
  let gradients : cache_t := ∅ in
  for_each (range 5) (λ i gradients,
    dZ ← np_row_slice dA (i * dim) ((i + 1) * dim);
    let gradients :=
      <["dconvb" +:+ str (i + 1) :=
          nd_scalar (np_sum dZ / INR (m * dim))%R]> gradients in
    dW ← conv_backward_dW A dZ;
    dWn ← np_binop Rdiv dW (nd_scalar (INR (m * dim)));
    let gradients := <["dconvW" +:+ str (i + 1) := dWn]> gradients in
    Ok gradients) gradients.

(** [np.argmax(A, axis=0)] for a matrix: for every column the first row
    that holds the maximum of the column. *)
Fixpoint argmax_from (f : nat → R) (best : nat) (start len : nat) : nat :=
  match len with
  | 0 => best
  | S len' =>
      argmax_from f (if decide (f best < f start)%R then start else best)
                  (S start) len'
  end.

Definition np_argmax_axis0 (A : ndarray R) : result (ndarray int) :=
  match shape A with
  | [n; m] =>
      if decide (n = 0) then Raise ValueError
      else Ok (build1 m (λ j,
                 Z.of_nat (argmax_from (λ i, nd_get A [i; j]) 0 1 (n - 1))))
  | _ => Raise NotModelled
  end.

(** [classify(X, parameters, convParameters)] (source lines 381-400) *)
Definition classify (X : ndarray R) (parameters convParameters : cache_t)
  : result (ndarray int) :=
  '(A0, convCache) ← conv_forward X convParameters;
  '(AL, caches) ← multi_layer_forward A0 parameters;
  '(A, cache, cost) ← softmax_cross_entropy_loss AL [];
  Ypred ← np_argmax_axis0 A;
  Ok Ypred.

(** ** One training iteration

    The forward and backward passes of one iteration of
    [multi_layer_network] (source lines 451-465). *)

(** The cost of the forward pass (source lines 453-457). *)
Definition network_loss (X : ndarray R) (Y : list int)
    (parameters convParameters : cache_t) : result R :=
  '(A0, convCache) ← conv_forward X convParameters;
  '(AL, caches) ← multi_layer_forward A0 parameters;
  '(A, cache, cost) ← softmax_cross_entropy_loss AL Y;
  Ok cost.

(** The gradients of the backward pass (source lines 453-465): those of
    the dense stack and those of the convolution stage. *)
Definition network_gradients (X : ndarray R) (Y : list int)
    (parameters convParameters : cache_t) : result (cache_t * cache_t) :=
  '(A0, convCache) ← conv_forward X convParameters;
  '(AL, caches) ← multi_layer_forward A0 parameters;
  '(A, cache, cost) ← softmax_cross_entropy_loss AL Y;
  dZ ← softmax_cross_entropy_loss_der Y cache;
  gradients ← multi_layer_backward dZ caches parameters;
  dA ← dict_get gradients "dA";
  convGradients ← conv_backward dA convCache convParameters;
  Ok (gradients, convGradients).

(** ** Parameter store and optimizer *)

(** Python float division. *)
Definition py_div (x y : R) : result R :=
  if decide (y = 0%R) then Raise ZeroDivisionError else Ok (x / y)%R.

(** A loop whose body mutates a dictionary in place: the dictionary is
    threaded, and what was written before an exception stays written. *)
Fixpoint for_each_mut {S X} (xs : list X) (body : X → S → S * result ())
    (s : S) : S * result () :=
  match xs with
  | [] => (s, Ok ())
  | x :: xs' =>
      match body x s with
      | (s', Ok _) => for_each_mut xs' body s'
      | (s', Raise e) => (s', Raise e)
      end
  end.

(** [parameters[k] -= alpha * gradients[gk]] *)
Definition isub_scaled (alpha : R) (gradients : cache_t) (k gk : string)
    (parameters : cache_t) : cache_t * result () :=
  match (p ← dict_get parameters k;
         g ← dict_get gradients gk;
         ag ← np_binop Rmult (nd_scalar alpha) g;
         np_iop Rminus p ag) with
  | Ok p' => (<[k := p']> parameters, Ok ())
  | Raise e => (parameters, Raise e)
  end.

(** Two statements in sequence. *)
Definition seq_mut {S} (c1 c2 : S → S * result ()) (s : S) : S * result () :=
  match c1 s with
  | (s', Ok _) => c2 s'
  | (s', Raise e) => (s', Raise e)
  end.

(** [update_parameters(parameters, gradients, epoch, learning_rate,
    decay_rate)] (source lines 403-422).  The first component is the
    dictionary [parameters] after the call, whether or not it raised. *)
Definition update_parameters (parameters gradients : cache_t) (epoch : int)
    (learning_rate decay_rate : R) : cache_t * result R :=
  match py_div 1 (1 + decay_rate * IZR epoch) with
  | Raise e => (parameters, Raise e)
  | Ok q =>
      let alpha := (learning_rate * q)%R in
      let L := size parameters / 2 in
      match for_each_mut (reverse (seq 1 L)) (λ l,
              seq_mut
                (isub_scaled alpha gradients ("W" +:+ str l) ("dW" +:+ str l))
                (isub_scaled alpha gradients ("b" +:+ str l) ("db" +:+ str l)))
              parameters with
      | (parameters, Ok _) => (parameters, Ok alpha)
      | (parameters, Raise e) => (parameters, Raise e)
      end
  end.

(** [update_conv(parameters, gradients, alpha)] (source lines 425-429) *)
Definition update_conv (parameters gradients : cache_t) (alpha : R)
  : cache_t * result () :=
  for_each_mut (range 5) (λ i,
    seq_mut
      (isub_scaled alpha gradients
         ("convW" +:+ str (i + 1)) ("dconvW" +:+ str (i + 1)))
      (isub_scaled alpha gradients
         ("convb" +:+ str (i + 1)) ("dconvb" +:+ str (i + 1))))
    parameters.

(** The update of one training iteration (source lines 467-468): the dense
    update, then the convolution update with the rate it returned. *)
Definition update_step (stores : cache_t * cache_t)
    (gradients convGradients : cache_t) (epoch : int)
    (learning_rate decay_rate : R) : (cache_t * cache_t) * result R :=
  let '(parameters, convParameters) := stores in
  match update_parameters parameters gradients epoch learning_rate decay_rate with
  | (parameters, Raise e) => ((parameters, convParameters), Raise e)
  | (parameters, Ok alpha) =>
      match update_conv convParameters convGradients alpha with
      | (convParameters, Raise e) => ((parameters, convParameters), Raise e)
      | (convParameters, Ok _) => ((parameters, convParameters), Ok alpha)
      end
  end.

(** One update per element of [steps] (gradients, convolution gradients,
    epoch, decay rate), stopping at the first exception. *)
Fixpoint update_steps (stores : cache_t * cache_t)
    (steps : list (cache_t * cache_t * int * R)) (learning_rate : R)
  : (cache_t * cache_t) * result () :=
  match steps with
  | [] => (stores, Ok ())
  | (gradients, convGradients, epoch, decay_rate) :: steps' =>
      match update_step stores gradients convGradients epoch
              learning_rate decay_rate with
      | (stores', Ok _) => update_steps stores' steps' learning_rate
      | (stores', Raise e) => (stores', Raise e)
      end
  end.

(** ** Specification vocabulary *)

(** 1 when [P] holds, 0 otherwise. *)
Definition indicator (P : Prop) `{Decision P} : R :=
  if decide P then 1%R else 0%R.

(** [returns r P]: the computation does not raise, and its value
    satisfies [P]. *)
Definition returns {A} (r : result A) (P : A → Prop) : Prop :=
  ∃ a, r = Ok a ∧ P a.

(** [a] is an [n]x[m] matrix. *)
Abbreviation is_matrix a n m := (has_shape a [n; m]).

(** The softmax probability of class [i] for sample [j], for scores [Z]
    with [n] classes. *)
Definition softmax_prob (Z : ndarray R) (n i j : nat) : R :=
  (exp (nd_get Z [i; j]) / rsum n (λ k, exp (nd_get Z [k; j])))%R.

(** The clamp applied to the true-class probability before the
    logarithm. *)
Definition clamp (p : R) : R := ((p - 0.5) * 0.9999999999 + 0.5)%R.

(** The reading of the label contract under test: the forward pass with
    labels and the backward pass raise [IndexError] exactly when some label
    lies outside [0, n), for [n] classes. *)
Definition index_error_iff_label_outside_0_n (Z A : ndarray R) (Y : list int)
    (n : nat) : Prop :=
  (softmax_cross_entropy_loss Z Y = Raise IndexError
     ↔ ∃ y, y ∈ Y ∧ ¬ (0 ≤ y < Z.of_nat n)%Z) ∧
  (softmax_cross_entropy_loss_der Y (<["A" := A]> ∅) = Raise IndexError
     ↔ ∃ y, y ∈ Y ∧ ¬ (0 ≤ y < Z.of_nat n)%Z).

(** The reading of the zero-rate contract under test: the updates of
    [steps], run with [learning_rate = 0], leave both parameter dictionaries
    as they were, whatever the gradient dictionaries hold. *)
Definition zero_rate_leaves_stores_unchanged (stores : cache_t * cache_t)
    (steps : list (cache_t * cache_t * int * R)) : Prop :=
  (update_steps stores steps 0).1 = stores.

(** Scalars of a store are well formed, and a scalar parameter has a
    scalar gradient (the gradient of ["k"] is stored under ["dk"]). *)
Definition scalars_ok (parameters gradients : cache_t) : Prop :=
  ∀ k p, parameters !! k = Some p → shape p = [] →
    length (data p) = 1 ∧
    ∀ g, gradients !! ("d" +:+ k) = Some g → shape g = [].

(** Parameter ["k"] is present and its gradient ["dk"] has its shape. *)
Definition has_gradient (parameters gradients : cache_t) (k : string) : Prop :=
  ∃ p g, parameters !! k = Some p ∧ gradients !! ("d" +:+ k) = Some g ∧
         shape g = shape p.

(** Every parameter an update reads is present with a gradient of its
    shape: the dense layers 1..L and the five filters. *)
Definition gradients_complete (stores : cache_t * cache_t)
    (gradients convGradients : cache_t) : Prop :=
  (∀ l, 1 ≤ l ≤ size stores.1 / 2 →
     has_gradient stores.1 gradients ("W" +:+ str l) ∧
     has_gradient stores.1 gradients ("b" +:+ str l)) ∧
  (∀ i, i < 5 →
     has_gradient stores.2 convGradients ("convW" +:+ str (i + 1)) ∧
     has_gradient stores.2 convGradients ("convb" +:+ str (i + 1))).

(** Entry (r, c) of the valid 2D convolution of sample [j] of [X] with
    the 3x3 filter [W], plus the bias [b]. *)
Definition conv_entry (X W b : ndarray R) (j r c : nat) : R :=
  Rplus
    (rsum 3 (λ a, rsum 3 (λ b',
       Rmult (nd_get W [a; b']) (nd_get X [r + 2 - a; c + 2 - b'; j]))))
    (np_float b).

(** The stride-1 2x2 window of a map at (r, c), and its maximum. *)
Definition window (z : nat → nat → R) (r c : nat) : list R :=
  [z r c; z r (c + 1); z (r + 1) c; z (r + 1) (c + 1)].

Definition window_max (z : nat → nat → R) (r c : nat) : R :=
  Rmax (Rmax (z r c) (z r (c + 1))) (Rmax (z (r + 1) c) (z (r + 1) (c + 1))).

Definition is_max_of (x : R) (l : list R) : Prop :=
  x ∈ l ∧ ∀ y, y ∈ l → (y <= x)%R.

(** The mask entry that [conv_forward] stores at (u, v) for a pre-pool
    map [z]: position (u, v) of the 50x50 array belongs to the pooling
    window (u/2, v/2) and holds the pre-pool value ((u+1)/2, (v+1)/2). *)
Definition mask_entry (z : nat → nat → R) (u v : nat) : int :=
  if bool_decide (z ((u + 1) / 2) ((v + 1) / 2) = window_max z (u / 2) (v / 2))
  then 1%Z else 0%Z.

(** A filter bank: five 3x3 filters and five scalar biases under the keys
    ["convW1"], ..., ["convb5"]. *)
Definition is_filter_bank (parameters : cache_t)
    (W b : nat → ndarray R) : Prop :=
  ∀ i, i < 5 →
    parameters !! ("convW" +:+ str (i + 1)) = Some (W i) ∧
    parameters !! ("convb" +:+ str (i + 1)) = Some (b i) ∧
    has_shape (W i) [3; 3] ∧ has_shape (b i) [].

(** The store that holds the filter bank [W], [b]. *)
Definition filter_bank_store (W b : nat → ndarray R) : cache_t :=
  foldr (λ i s, <["convW" +:+ str (i + 1) := W i]>
                  (<["convb" +:+ str (i + 1) := b i]> s)) ∅ (range 5).

(** What [conv_backward] puts at position (u, v) of the 50x50 array of
    sample [s] and filter [f]: the pooled gradient of the window (u/2, v/2)
    times the mask. *)
Definition routed_entry (dA : ndarray R) (masks : ndarray int)
    (s f u v : nat) : R :=
  Rmult (nd_get dA [625 * f + 25 * (u / 2) + v / 2; s])
        (IZR (nd_get masks [u; v; f; s])).

(** The gradient that reaches position (x, y) of the 26x26 pre-pool map:
    the sum of what the (at most four) windows containing (x, y) route to
    it. *)
Definition unpool_entry (dA : ndarray R) (masks : ndarray int)
    (s f x y : nat) : R :=
  rsum 2 (λ p, rsum 2 (λ q,
    if decide (1 ≤ 2 * x + p ≤ 50 ∧ 1 ≤ 2 * y + q ≤ 50)
    then routed_entry dA masks s f (2 * x + p - 1) (2 * y + q - 1)
    else 0%R)).

(** The accumulation of input patches that [conv_backward] returns as the
    gradient of entry (a, b) of filter [f], for a pre-pool gradient [dz]. *)
Definition patch_accumulation (X : ndarray R) (dz : nat → nat → nat → R)
    (m a b : nat) : R :=
  Rdiv
    (rsum 676 (λ k, rsum m (λ s,
       Rmult (nd_get X [k / 26 + a; k mod 26 + b; s])
             (dz s (k / 26) (k mod 26)))))
    (INR (m * 676)).

(** The pre-pool gradient of filter [f] in terms of the inputs of
    [conv_forward]: [unpool_entry] with the masks that [conv_forward]
    stores. *)
Definition pre_pool_gradient (X W b dA : ndarray R) (f s x y : nat) : R :=
  rsum 2 (λ p, rsum 2 (λ q,
    if decide (1 ≤ 2 * x + p ≤ 50 ∧ 1 ≤ 2 * y + q ≤ 50)
    then Rmult
           (nd_get dA [625 * f + 25 * ((2 * x + p - 1) / 2)
                       + (2 * y + q - 1) / 2; s])
           (IZR (mask_entry (conv_entry X W b s)
                   (2 * x + p - 1) (2 * y + q - 1)))
    else 0%R)).

(** The filter bank with entry (a, c) of filter [i] replaced by [w]. *)
Definition with_filter_entry (convParameters : cache_t) (i a c : nat) (w : R)
  : cache_t :=
  alter (λ W, nd_update W (λ idx x, if decide (idx = [a; c]) then w else x))
        ("convW" +:+ str (i + 1)) convParameters.

(** The loss of the batch as a function of entry (a, c) of filter [i]
    (0 where the forward pass raises). *)
Definition loss_of_filter_entry (X : ndarray R) (Y : list int)
    (parameters convParameters : cache_t) (i a c : nat) (w : R) : R :=
  match network_loss X Y parameters (with_filter_entry convParameters i a c w) with
  | Ok cost => cost
  | Raise _ => 0%R
  end.

(** Entry (a, c) of the gradient that the backward pass returns for
    filter [i]. *)
Definition filter_gradient_entry (X : ndarray R) (Y : list int)
    (parameters convParameters : cache_t) (i a c : nat) : result R :=
  '(gradients, convGradients) ← network_gradients X Y parameters convParameters;
  dconvW ← dict_get convGradients ("dconvW" +:+ str (i + 1));
  Ok (nd_get dconvW [a; c]).

(** The gradient check under test: the returned gradient entry is, within
    [tol], the derivative of the loss with respect to that filter entry at
    its current value. *)
Definition gradient_check (tol : R) (X : ndarray R) (Y : list int)
    (parameters convParameters : cache_t) (i a c : nat) : Prop :=
  ∃ W g l,
    convParameters !! ("convW" +:+ str (i + 1)) = Some W ∧
    filter_gradient_entry X Y parameters convParameters i a c = Ok g ∧
    derivable_pt_lim (loss_of_filter_entry X Y parameters convParameters i a c)
                     (nd_get W [a; c]) l ∧
    (Rabs (g - l) <= tol)%R.

(** The all-zero network: the parameters that
    [initialize_multilayer_weights(net_dims)] (source lines 129-150) creates,
    with zeros in place of the random numbers. *)
Definition zero_dense_parameters (net_dims : list nat) : cache_t :=
  foldl (λ parameters l,
           <["b" +:+ str (l + 1) := np_zeros [net_dims !!! (l + 1); 1]]>
             (<["W" +:+ str (l + 1) :=
                  np_zeros [net_dims !!! (l + 1); net_dims !!! l]]> parameters))
        ∅ (range (length net_dims - 1)).

Definition zero_conv_parameters : cache_t :=
  filter_bank_store (λ _, np_zeros [3; 3]) (λ _, nd_scalar 0%R).

(** [k] is the first row that holds the maximum of column [j] of [A],
    among [n] rows. *)
Definition is_first_argmax (A : ndarray R) (n j k : nat) : Prop :=
  k < n ∧
  (∀ i, i < n → (nd_get A [i; j] <= nd_get A [k; j])%R) ∧
  (∀ i, i < k → (nd_get A [i; j] < nd_get A [k; j])%R).

(** ** Sample inputs *)

Definition relu_ex_Z : ndarray R := NdArray [1; 3] [-1; 0; 2]%R.
Definition relu_ex_dA : ndarray R := NdArray [1; 3] [5; 7; 9]%R.

Definition dense_ex_dZ : ndarray R := NdArray [1; 2] [1; 3]%R.
Definition dense_ex_A : ndarray R := NdArray [1; 2] [2; 4]%R.
Definition dense_ex_W : ndarray R := NdArray [1; 1] [5]%R.
Definition dense_ex_b : ndarray R := NdArray [1; 1] [0]%R.

Definition softmax_ex_Z : ndarray R := NdArray [2; 2] [1; 2; 3; 4]%R.

Definition label_ex_Z : ndarray R := NdArray [2; 1] [0; 0]%R.
Definition label_ex_A : ndarray R := NdArray [2; 1] [0.5; 0.5]%R.

Definition update_ex_parameters : cache_t :=
  <["W1" := NdArray [1; 2] [1; 2]%R]> (<["b1" := NdArray [1; 1] [3]%R]> ∅).
Definition update_ex_gradients : cache_t :=
  <["dW1" := NdArray [1; 2] [5; 6]%R]> (<["db1" := NdArray [1; 1] [7]%R]> ∅).
Definition update_ex_convParameters : cache_t :=
  filter_bank_store (λ _, NdArray [3; 3] [1; 2; 3; 4; 5; 6; 7; 8; 9]%R)
                    (λ _, nd_scalar 4%R).
Definition update_ex_convGradients : cache_t :=
  foldr (λ i s, <["dconvW" +:+ str (i + 1) :=
                    NdArray [3; 3] [9; 8; 7; 6; 5; 4; 3; 2; 1]%R]>
                  (<["dconvb" +:+ str (i + 1) := nd_scalar 8%R]> s))
        ∅ (range 5).
Definition update_ex_steps : list (cache_t * cache_t * int * R) :=
  [(update_ex_gradients, update_ex_convGradients, 0%Z, 0.003%R);
   (update_ex_gradients, update_ex_convGradients, 1%Z, 0.003%R)].

(** The same gradients, but with a 3x3 array stored as the gradient of the
    first convolution bias, which the store holds as a Python float. *)
Definition update_ex_convGradients_array : cache_t :=
  <["dconvb1" := NdArray [3; 3] [9; 8; 7; 6; 5; 4; 3; 2; 1]%R]>
    update_ex_convGradients.
Definition update_ex_steps_array : list (cache_t * cache_t * int * R) :=
  [(update_ex_gradients, update_ex_convGradients_array, 0%Z, 0.003%R)].

Definition conv_ex_X : ndarray R := np_zeros [28; 28; 1].
Definition conv_ex_parameters : cache_t :=
  filter_bank_store (λ _, np_zeros [3; 3]) (λ _, nd_scalar 0%R).

(** An image with one lit pixel in the corner, a first filter that looks
    at it, and a one-layer dense stack with two classes. *)
Definition grad_ex_X : ndarray R :=
  build3 28 28 1 (λ u v s, indicator (u = 0 ∧ v = 0)).
Definition grad_ex_W (i : nat) : ndarray R :=
  build2 3 3 (λ a c, indicator (i = 0 ∧ a = 2 ∧ c = 2)).
Definition grad_ex_convParameters : cache_t :=
  filter_bank_store grad_ex_W (λ _, nd_scalar 0%R).
Definition grad_ex_parameters : cache_t :=
  <["W1" := build2 2 3125 (λ i k, Rmult 676 (indicator (i = 0 ∧ k = 0)))]>
    (<["b1" := build2 2 1 (λ i _, Rmult 676 (indicator (i = 1)))]> ∅).
Definition grad_ex_Y : list int := [0%Z].
Definition grad_ex_Z0 : ndarray R := build2 3125 1 (λ k s, indicator (k = 0)).

(** ** Initialisation and the training loop *)

(** [np.random.randn(d0, d1, ...) * 0.01]: the standard normal numbers that
    numpy draws after [np.random.seed(0)] are an input of the model, [rng k]
    being the k-th one.  An array of shape [sh] drawn when [pos] numbers
    have been used takes the next [size_of sh] of them, in row-major
    order; [np.random.randn()] is the scalar case. *)
Definition randn_scaled (rng : nat → R) (pos : nat) (sh : list nat)
  : ndarray R :=
  NdArray sh ((λ k, Rmult (rng (pos + k)) 0.01%R) <$> seq 0 (size_of sh)).

(** [initialize_multilayer_weights(net_dims)] (source lines 129-150) *)
Definition initialize_multilayer_weights (rng : nat → R) (net_dims : list nat)
  : result (cache_t * cache_t) :=
  let pos := 0 in                            (* np.random.seed(0) *)
  let numLayers := length net_dims in
  let parameters : cache_t := ∅ in
  '(parameters, pos) ←
    for_each (range (numLayers - 1)) (λ l '(parameters, pos),
      d1 ← list_get net_dims (l + 1);
      d0 ← list_get net_dims l;
      let parameters :=
        <["W" +:+ str (l + 1) := randn_scaled rng pos [d1; d0]]> parameters in
      let pos := pos + d1 * d0 in
      d1 ← list_get net_dims (l + 1);
      let parameters :=
        <["b" +:+ str (l + 1) := randn_scaled rng pos [d1; 1]]> parameters in
      let pos := pos + d1 in
      Ok (parameters, pos)) (parameters, pos);
  let convParameters : cache_t := ∅ in
  '(convParameters, pos) ←
    for_each (range 5) (λ i '(convParameters, pos),
      let convParameters :=
        <["convW" +:+ str (i + 1) := randn_scaled rng pos [3; 3]]>
          convParameters in
      let pos := pos + 9 in
      let convParameters :=
        <["convb" +:+ str (i + 1) := randn_scaled rng pos []]>
          convParameters in
      let pos := pos + 1 in
      Ok (convParameters, pos)) (convParameters, pos);
  Ok (parameters, convParameters).

(** The body of the loop of [multi_layer_network] (source lines 452-473),
    for iteration [ii].  The labels are integers already, so that
    [Y.astype(int)] is the identity; the line that is printed every tenth
    iteration is not part of the model. *)
Definition training_iteration (X : ndarray R) (Y : list int)
    (learning_rate decay_rate : R) (ii : nat)
    (st : list R * cache_t * cache_t) : result (list R * cache_t * cache_t) :=
  let '(costs, parameters, convParameters) := st in
  '(A0, convCache) ← conv_forward X convParameters;
  '(AL, caches) ← multi_layer_forward A0 parameters;
  '(A, cache, cost) ← softmax_cross_entropy_loss AL Y;
  dZ ← softmax_cross_entropy_loss_der Y cache;
  gradients ← multi_layer_backward dZ caches parameters;
  dA ← dict_get gradients "dA";
  convGradients ← conv_backward dA convCache convParameters;
  match update_parameters parameters gradients (Z.of_nat ii)
          learning_rate decay_rate with
  | (_, Raise e) => Raise e
  | (parameters, Ok alpha) =>
      match update_conv convParameters convGradients alpha with
      | (_, Raise e) => Raise e
      | (convParameters, Ok _) =>
          let costs :=
            if decide (ii mod 10 = 0) then costs ++ [cost] else costs in
          Ok (costs, parameters, convParameters)
      end
  end.

(** [multi_layer_network(X, Y, net_dims, num_iterations, learning_rate,
    decay_rate)] (source lines 432-475) *)
Definition multi_layer_network (rng : nat → R) (X : ndarray R) (Y : list int)
    (net_dims : list nat) (num_iterations : nat)
    (learning_rate decay_rate : R) : result (list R * cache_t * cache_t) :=
  '(parameters, convParameters) ← initialize_multilayer_weights rng net_dims;
  let costs : list R := [] in
  for_each (range num_iterations)
    (training_iteration X Y learning_rate decay_rate)
    (costs, parameters, convParameters).

(** ** Vocabulary for the whole network *)

(** A dense store for the layer widths [net_dims]: exactly the keys
    ["W1"], ["b1"], ..., ["WL"], ["bL"] for [L = len(net_dims) - 1], layer
    [l] mapping width [net_dims[l-1]] to width [net_dims[l]]. *)
Definition is_dense_store (parameters : cache_t) (net_dims : list nat) : Prop :=
  size parameters = 2 * (length net_dims - 1) ∧
  ∀ l, 1 ≤ l ≤ length net_dims - 1 →
    ∃ W b, parameters !! ("W" +:+ str l) = Some W ∧
           parameters !! ("b" +:+ str l) = Some b ∧
           is_matrix W (net_dims !!! l) (net_dims !!! (l - 1)) ∧
           is_matrix b (net_dims !!! l) 1.

(** The cache of layer [l + 1] of a forward pass over [m] samples: the
    input of the layer, and for a relu layer its pre-activation. *)
Definition is_layer_cache (cache : layer_cache) (p n m : nat)
    (activation : string) : Prop :=
  (∃ A, lin_cache cache !! "A" = Some A ∧ is_matrix A p m) ∧
  (activation = "relu" →
     ∃ Z, act_cache cache !! "Z" = Some Z ∧ is_matrix Z n m).

Definition caches_fit (caches : list layer_cache) (net_dims : list nat)
    (m : nat) : Prop :=
  length caches = length net_dims - 1 ∧
  ∀ l cache, caches !! l = Some cache →
    is_layer_cache cache (net_dims !!! l) (net_dims !!! (l + 1)) m
      (if decide (l + 1 = length caches) then "linear" else "relu").

(** The gradients of a dense store: one gradient of the shape of each
    parameter, and the gradient ["dA"] with respect to the input. *)
Definition is_dense_gradients (gradients : cache_t) (net_dims : list nat)
    (m : nat) : Prop :=
  (∃ dA, gradients !! "dA" = Some dA ∧ is_matrix dA (net_dims !!! 0) m) ∧
  ∀ l, 1 ≤ l ≤ length net_dims - 1 →
    ∃ dW db, gradients !! ("dW" +:+ str l) = Some dW ∧
             gradients !! ("db" +:+ str l) = Some db ∧
             is_matrix dW (net_dims !!! l) (net_dims !!! (l - 1)) ∧
             is_matrix db (net_dims !!! l) 1.

(** [parameters'] holds under [k] the parameter [k] of [parameters] moved
    by [alpha] against its gradient ["dk"]. *)
Definition descent_step_at (alpha : R) (parameters gradients parameters' : cache_t)
    (k : string) : Prop :=
  ∃ p g p', parameters !! k = Some p ∧ gradients !! ("d" +:+ k) = Some g ∧
    parameters' !! k = Some p' ∧ has_shape p' (shape p) ∧
    ∀ idx, in_bounds (shape p) idx →
      nd_get p' idx = (nd_get p idx - alpha * nd_get g idx)%R.

(** Parameter [k] and its gradient ["dk"] are arrays of one shape. *)
Definition gradient_fits (parameters gradients : cache_t) (k : string) : Prop :=
  ∃ p g sh, parameters !! k = Some p ∧ gradients !! ("d" +:+ k) = Some g ∧
    has_shape p sh ∧ has_shape g sh.

(** The keys that [update_parameters] touches for [L] layers, and those
    that [update_conv] touches. *)
Definition dense_keys (L : nat) : list string :=
  seq 1 L ≫= λ l, ["W" +:+ str l; "b" +:+ str l].

Definition conv_keys : list string :=
  range 5 ≫= λ i, ["convW" +:+ str (i + 1); "convb" +:+ str (i + 1)].

(** What [conv_backward] returns as the gradient of the bias of a filter,
    for a pre-pool gradient [dz]: its sum over the 676 positions and the
    [m] samples, divided by m * 676. *)
Definition bias_accumulation (dz : nat → nat → nat → R) (m : nat) : R :=
  Rdiv (rsum 676 (λ k, rsum m (λ s, dz s (k / 26) (k mod 26))))
       (INR (m * 676)).

(** A network for the layer widths [net_dims]: a dense store and a filter
    bank. *)
Definition is_network (stores : cache_t * cache_t) (net_dims : list nat)
  : Prop :=
  is_dense_store stores.1 net_dims ∧ ∃ W b, is_filter_bank stores.2 W b.

(** The gradients of a filter bank: a 3x3 array and a scalar per filter. *)
Definition is_conv_gradients (convGradients : cache_t) : Prop :=
  ∀ i, i < 5 →
    (∃ dW, convGradients !! ("dconvW" +:+ str (i + 1)) = Some dW ∧
           is_matrix dW 3 3) ∧
    (∃ db, convGradients !! ("dconvb" +:+ str (i + 1)) = Some db ∧
           has_shape db []).

(** The width of the last layer: the number of classes. *)
Definition num_classes (net_dims : list nat) : nat :=
  net_dims !!! (length net_dims - 1).

(** A batch of [m] images with one label per image, for a network whose
    first dense layer reads the 3125 pooled features and whose last layer
    has one row per class. *)
Definition is_batch (X : ndarray R) (Y : list int) (net_dims : list nat)
    (m : nat) : Prop :=
  has_shape X [28; 28; m] ∧ 1 ≤ m ∧ length Y = m ∧
  2 ≤ length net_dims ∧ net_dims !!! 0 = 3125 ∧
  num_classes net_dims ≠ 0 ∧
  ∀ y, y ∈ Y → (0 ≤ y < Z.of_nat (num_classes net_dims))%Z.

(** ** More sample inputs *)

(** A two-layer all-zero network with three hidden units and two classes,
    a batch of one blank image with the label 0, and a batch of dense
    inputs. *)
Definition net_ex_dims : list nat := [3125; 3; 2].
Definition net_ex_parameters : cache_t := zero_dense_parameters net_ex_dims.
Definition net_ex_Y : list int := [0%Z].
Definition net_ex_A0 : ndarray R := np_zeros [3125; 1].
Definition net_ex_dAL : ndarray R := np_zeros [2; 1].

(** Scores shifted by 10 in the first column and by 20 in the second. *)
Definition shift_ex_c (j : nat) : R := if decide (j = 0) then 10%R else 20%R.
Definition shift_ex_Z' : ndarray R := NdArray [2; 2] [11; 22; 13; 24]%R.


(** A weight matrix whose inner dimension does not fit [dense_ex_A]. *)
Definition dense_ex_W_bad : ndarray R := NdArray [1; 2] [5; 6]%R.

(** Batches of 3x3 images and of no image at all, and a filter bank with
    the biases 1. *)
Definition conv_ex_X_small : ndarray R := np_zeros [3; 3; 1].
Definition conv_ex_X_empty : ndarray R := np_zeros [5; 7; 0].
Definition conv_ex_parameters_b1 : cache_t :=
  filter_bank_store (λ _, np_zeros [3; 3]) (λ _, nd_scalar 1%R).

(** Gradients without the entry ["db1"]. *)
Definition update_ex_gradients_partial : cache_t :=
  <["dW1" := NdArray [1; 2] [5; 6]%R]> ∅.

(** The number of positions of the pooling window (r, c) of a pre-pool
    map that hold the maximum of the window (1 without ties, up to 4). *)
Definition window_ties (z : nat → nat → R) (r c : nat) : R :=
  rsum 2 (λ p, rsum 2 (λ q,
    indicator (z (r + p) (c + q) = window_max z r c))).

(** The pooled gradient of filter [f], every window counted as often as
    its maximum occurs in it, summed over the windows and the samples and
    divided by m * 676. *)
Definition tie_weighted_mean (X W b dA : ndarray R) (f m : nat) : R :=
  Rdiv
    (rsum m (λ s, rsum 25 (λ r, rsum 25 (λ c,
       Rmult (nd_get dA [625 * f + 25 * r + c; s])
             (window_ties (conv_entry X W b s) r c)))))
    (INR (m * 676)).

(** *** Basic facts about the array model *)

Section ndarray_facts.
Context {A : Type} `{Inhabited A}.

Lemma ravel_lt sh idx : in_bounds sh idx → ravel sh idx < size_of sh.
Proof.
  intros Hb. induction Hb as [|i d idx sh Hi _ IH]; simpl; [lia|].
  nia.
Qed.

Lemma unravel_ravel sh idx : in_bounds sh idx → unravel sh (ravel sh idx) = idx.
Proof.
  intros Hb. induction Hb as [|i d idx sh Hi Hb IH]; simpl; [done|].
  pose proof (ravel_lt _ _ Hb) as Hlt.
  assert (size_of sh ≠ 0) by lia.
  f_equal.
  - rewrite Nat.div_add_l by done. rewrite Nat.div_small by done. lia.
  - rewrite Nat.add_comm, Nat.Div0.mod_add. rewrite Nat.mod_small by done. done.
Qed.

Lemma length_build sh (f : list nat → A) :
  length (data (nd_build sh f)) = size_of sh.
Proof. simpl. by rewrite length_fmap, length_seq. Qed.

Lemma has_shape_build sh (f : list nat → A) : has_shape (nd_build sh f) sh.
Proof. split; [done | apply length_build]. Qed.

Lemma nd_get_build sh (f : list nat → A) idx :
  in_bounds sh idx → nd_get (nd_build sh f) idx = f idx.
Proof.
  intros Hb. unfold nd_get. simpl.
  pose proof (ravel_lt _ _ Hb) as Hlt.
  rewrite list_lookup_total_alt, list_lookup_fmap, lookup_seq_lt by done.
  simpl. by rewrite unravel_ravel.
Qed.

Lemma nd_get_update (a : ndarray A) f sh idx :
  has_shape a sh → in_bounds sh idx →
  nd_get (nd_update a f) idx = f idx (nd_get a idx).
Proof.
  intros [Hs Hl] Hb. unfold nd_get. simpl. rewrite Hs.
  pose proof (ravel_lt _ _ Hb) as Hlt.
  rewrite !list_lookup_total_alt, list_lookup_imap.
  destruct (lookup_lt_is_Some_2 (data a) (ravel sh idx)) as [x Hx]; [lia|].
  rewrite Hx. simpl. by rewrite unravel_ravel.
Qed.

Lemma has_shape_update (a : ndarray A) f sh :
  has_shape a sh → has_shape (nd_update a f) sh.
Proof.
  intros [Hs Hl]. split; [done|]. simpl. by rewrite length_imap.
Qed.

Lemma nd_update_id (a : ndarray A) f :
  (∀ idx x, f idx x = x) → nd_update a f = a.
Proof.
  intros Hf. destruct a as [sh d]. unfold nd_update. simpl. f_equal.
  apply list_eq. intros i. rewrite list_lookup_imap.
  destruct (d !! i); simpl; by rewrite ?Hf.
Qed.

Lemma unravel_in_bounds sh i : i < size_of sh → in_bounds sh (unravel sh i).
Proof.
  revert i. induction sh as [|d sh IH]; intros i Hi; simpl.
  - constructor.
  - simpl in Hi. constructor.
    + apply Nat.Div0.div_lt_upper_bound. lia.
    + apply IH. apply Nat.mod_upper_bound. intros E. rewrite E in Hi. lia.
Qed.

Lemma ravel_unravel sh i : i < size_of sh → ravel sh (unravel sh i) = i.
Proof.
  revert i. induction sh as [|d sh IH]; intros i Hi; simpl.
  - simpl in Hi. lia.
  - simpl in Hi. assert (size_of sh ≠ 0) by (intros E; rewrite E in Hi; lia).
    rewrite IH by (by apply Nat.mod_upper_bound).
    pose proof (Nat.div_mod_eq i (size_of sh)). lia.
Qed.

(** Arrays of one shape with the same elements are the same array. *)
Lemma nd_ext (a b : ndarray A) sh :
  has_shape a sh → has_shape b sh →
  (∀ idx, in_bounds sh idx → nd_get a idx = nd_get b idx) → a = b.
Proof.
  intros [Hsa Hla] [Hsb Hlb] Hext.
  destruct a as [sa da], b as [sb db]. simpl in *. subst sa sb. f_equal.
  apply list_eq_same_length with (size_of sh); [done..|].
  intros i x y Hi Hx Hy.
  specialize (Hext _ (unravel_in_bounds _ _ Hi)).
  unfold nd_get in Hext. simpl in Hext.
  rewrite ravel_unravel in Hext by done.
  rewrite !list_lookup_total_alt, Hx, Hy in Hext. done.
Qed.

Lemma nd_build_ext sh (f g : list nat → A) :
  (∀ idx, in_bounds sh idx → f idx = g idx) → nd_build sh f = nd_build sh g.
Proof.
  intros Hfg. unfold nd_build. f_equal. apply list_eq. intros i.
  rewrite !list_lookup_fmap.
  destruct (decide (i < size_of sh)) as [Hi|Hi].
  - rewrite lookup_seq_lt by done. simpl. f_equal.
    apply Hfg. by apply unravel_in_bounds.
  - by rewrite lookup_seq_ge by lia.
Qed.

Lemma in_bounds1 n i : i < n → in_bounds [n] [i].
Proof. intros. by repeat constructor. Qed.
Lemma in_bounds2 n m i j : i < n → j < m → in_bounds [n; m] [i; j].
Proof. intros. by repeat constructor. Qed.
Lemma in_bounds3 n m p i j k :
  i < n → j < m → k < p → in_bounds [n; m; p] [i; j; k].
Proof. intros. by repeat constructor. Qed.
Lemma in_bounds4 n m p q i j k l :
  i < n → j < m → k < p → l < q → in_bounds [n; m; p; q] [i; j; k; l].
Proof. intros. by repeat constructor. Qed.

Lemma in_bounds2_inv n m idx :
  in_bounds [n; m] idx → ∃ i j, idx = [i; j] ∧ i < n ∧ j < m.
Proof.
  intros Hb. inversion Hb as [|i ? idx1 ? Hi Hb1]; subst.
  inversion Hb1 as [|j ? idx2 ? Hj Hb2]; subst.
  inversion Hb2; subst. eauto.
Qed.

Lemma nd_get_build1 n (f : nat → A) i :
  i < n → nd_get (build1 n f) [i] = f i.
Proof. intros. unfold build1. by rewrite nd_get_build by by apply in_bounds1. Qed.
Lemma nd_get_build2 n m (f : nat → nat → A) i j :
  i < n → j < m → nd_get (build2 n m f) [i; j] = f i j.
Proof. intros. unfold build2. by rewrite nd_get_build by by apply in_bounds2. Qed.
Lemma nd_get_build3 n m p (f : nat → nat → nat → A) i j k :
  i < n → j < m → k < p → nd_get (build3 n m p f) [i; j; k] = f i j k.
Proof. intros. unfold build3. by rewrite nd_get_build by by apply in_bounds3. Qed.
Lemma nd_get_build4 n m p q (f : nat → nat → nat → nat → A) i j k l :
  i < n → j < m → k < p → l < q →
  nd_get (build4 n m p q f) [i; j; k; l] = f i j k l.
Proof. intros. unfold build4. by rewrite nd_get_build by by apply in_bounds4. Qed.
End ndarray_facts.

Lemma nd_get_map {A B} `{Inhabited A, Inhabited B} (f : A → B) (a : ndarray A)
  sh idx :
has_shape a sh → in_bounds sh idx →
nd_get (nd_map f a) idx = f (nd_get a idx).
Proof.
intros [Hs Hl] Hb. unfold nd_get. simpl. rewrite Hs.
pose proof (ravel_lt _ _ Hb).
rewrite !list_lookup_total_alt, list_lookup_fmap.
destruct (lookup_lt_is_Some_2 (data a) (ravel sh idx)) as [x Hx]; [lia|].
by rewrite Hx.
Qed.

Lemma has_shape_map {A B} (f : A → B) (a : ndarray A) sh :
has_shape a sh → has_shape (nd_map f a) sh.
Proof. intros [Hs Hl]. split; [done|]. simpl. by rewrite length_fmap. Qed.

Lemma bcast_idx_same sh idx : in_bounds sh idx → bcast_idx sh idx = idx.
Proof.
intros Hb. unfold bcast_idx.
rewrite (Forall2_length _ _ _ Hb), Nat.sub_diag, drop_0.
induction Hb as [|i d idx sh Hi Hb IH]; simpl; [done|].
rewrite IH. case_decide; [f_equal; lia | done].
Qed.

Lemma bcast_idx_scalar idx : bcast_idx [] idx = [].
Proof. done. Qed.

Lemma broadcast_rev_same sh : broadcast_rev sh sh = Ok sh.
Proof.
induction sh as [|d sh IH]; simpl; [done|].
rewrite IH. simpl. by rewrite decide_True.
Qed.

Lemma broadcast_shapes_same sh : broadcast_shapes sh sh = Ok sh.
Proof.
unfold broadcast_shapes. rewrite broadcast_rev_same. simpl.
by rewrite reverse_involutive.
Qed.

Lemma broadcast_shapes_scalar_r sh : broadcast_shapes sh [] = Ok sh.
Proof.
unfold broadcast_shapes. simpl.
destruct (reverse sh) eqn:E; simpl; f_equal;
  by rewrite <- (reverse_involutive sh), E.
Qed.

Lemma broadcast_shapes_scalar_l sh : broadcast_shapes [] sh = Ok sh.
Proof. unfold broadcast_shapes. simpl. by rewrite reverse_involutive. Qed.


(** ** Reasoning about computations that may raise *)

Lemma returns_ok {A} (a : A) (P : A → Prop) : P a → returns (Ok a) P.
Proof. intros. by exists a. Qed.

Lemma returns_bind {A B} (m : result A) (k : A → result B) P Q :
  returns m P → (∀ a, P a → returns (k a) Q) → returns (m ≫= k) Q.
Proof. intros (a & -> & Ha) Hk. simpl. by apply Hk. Qed.

Lemma returns_weaken {A} (m : result A) (P Q : A → Prop) :
  returns m P → (∀ a, P a → Q a) → returns m Q.
Proof. intros (a & -> & Ha) HPQ. exists a. auto. Qed.

Lemma returns_inv {A} (a : A) (P : A → Prop) : returns (Ok a) P → P a.
Proof. by intros (a' & [= <-] & Ha). Qed.

Lemma dict_get_Some {V} (d : gmap string V) k v :
  d !! k = Some v → dict_get d k = Ok v.
Proof. unfold dict_get. by intros ->. Qed.

(** ** Facts about the numpy operations *)

Lemma has_shape_scalar {A} (x : A) : has_shape (nd_scalar x) [].
Proof. done. Qed.

Lemma nd_get_scalar {A} `{Inhabited A} (x : A) idx : nd_get (nd_scalar x) idx = x.
Proof. unfold nd_get. simpl. by destruct idx. Qed.

Section binop_facts.
Context {A B C : Type} `{Inhabited A, Inhabited B, Inhabited C}.
Implicit Types (f : A → B → C) (a : ndarray A) (b : ndarray B).

Lemma np_binop_same f a b sh :
  has_shape a sh → has_shape b sh →
  returns (np_binop f a b) (λ r, has_shape r sh ∧
    ∀ idx, in_bounds sh idx → nd_get r idx = f (nd_get a idx) (nd_get b idx)).
Proof.
  intros [Ha ?] [Hb ?]. unfold np_binop. rewrite Ha, Hb, broadcast_shapes_same.
  simpl. apply returns_ok. split; [apply has_shape_build|].
  intros idx Hidx. rewrite nd_get_build by done. by rewrite bcast_idx_same.
Qed.

Lemma np_binop_scalar_r f a b sh :
  has_shape a sh → has_shape b [] →
  returns (np_binop f a b) (λ r, has_shape r sh ∧
    ∀ idx, in_bounds sh idx → nd_get r idx = f (nd_get a idx) (nd_get b [])).
Proof.
  intros [Ha ?] [Hb ?]. unfold np_binop.
  rewrite Ha, Hb, broadcast_shapes_scalar_r.
  simpl. apply returns_ok. split; [apply has_shape_build|].
  intros idx Hidx. rewrite nd_get_build by done. by rewrite bcast_idx_same.
Qed.

Lemma np_binop_scalar_l f a b sh :
  has_shape a [] → has_shape b sh →
  returns (np_binop f a b) (λ r, has_shape r sh ∧
    ∀ idx, in_bounds sh idx → nd_get r idx = f (nd_get a []) (nd_get b idx)).
Proof.
  intros [Ha ?] [Hb ?]. unfold np_binop.
  rewrite Ha, Hb, broadcast_shapes_scalar_l.
  simpl. apply returns_ok. split; [apply has_shape_build|].
  intros idx Hidx. rewrite nd_get_build by done.
  by rewrite (bcast_idx_same sh).
Qed.

Lemma broadcast_shapes_col n m : broadcast_shapes [n; m] [n; 1] = Ok [n; m].
Proof.
  unfold broadcast_shapes. cbn.
  repeat (case_decide; cbn); subst; done.
Qed.

Lemma broadcast_shapes_row n m : broadcast_shapes [n; m] [1; m] = Ok [n; m].
Proof.
  unfold broadcast_shapes. cbn.
  repeat (case_decide; cbn); subst; done.
Qed.

(** A matrix combined with a column: the column is repeated along the
    second axis. *)
Lemma np_binop_col f a b n m :
  is_matrix a n m → is_matrix b n 1 →
  returns (np_binop f a b) (λ r, is_matrix r n m ∧
    ∀ i j, i < n → j < m →
      nd_get r [i; j] = f (nd_get a [i; j]) (nd_get b [i; 0])).
Proof.
  intros [Ha ?] [Hb ?]. unfold np_binop. rewrite Ha, Hb, broadcast_shapes_col.
  simpl. apply returns_ok. split; [apply has_shape_build|].
  intros i j Hi Hj. rewrite nd_get_build by by apply in_bounds2.
  rewrite bcast_idx_same by by apply in_bounds2.
  do 2 f_equal. unfold bcast_idx. cbn.
  repeat case_decide; try congruence; repeat f_equal; lia.
Qed.

(** A matrix combined with a row: the row is repeated along the first
    axis. *)
Lemma np_binop_row f a b n m :
  is_matrix a n m → is_matrix b 1 m →
  returns (np_binop f a b) (λ r, is_matrix r n m ∧
    ∀ i j, i < n → j < m →
      nd_get r [i; j] = f (nd_get a [i; j]) (nd_get b [0; j])).
Proof.
  intros [Ha ?] [Hb ?]. unfold np_binop. rewrite Ha, Hb, broadcast_shapes_row.
  simpl. apply returns_ok. split; [apply has_shape_build|].
  intros i j Hi Hj. rewrite nd_get_build by by apply in_bounds2.
  rewrite bcast_idx_same by by apply in_bounds2.
  do 2 f_equal. unfold bcast_idx. cbn.
  repeat case_decide; try congruence; repeat f_equal; lia.
Qed.
End binop_facts.

Lemma np_dot_spec a b n k m :
  is_matrix a n k → is_matrix b k m →
  returns (np_dot a b) (λ r, is_matrix r n m ∧
    ∀ i j, i < n → j < m →
      nd_get r [i; j] = rsum k (λ l, nd_get a [i; l] * nd_get b [l; j])%R).
Proof.
  intros [Ha ?] [Hb ?]. unfold np_dot. rewrite Ha, Hb, decide_True by done.
  apply returns_ok. split; [apply has_shape_build|].
  intros i j Hi Hj. by rewrite nd_get_build2.
Qed.

Lemma np_transpose_spec a n m :
  is_matrix a n m →
  returns (np_transpose a) (λ r, is_matrix r m n ∧
    ∀ i j, i < m → j < n → nd_get r [i; j] = nd_get a [j; i]).
Proof.
  intros [Ha ?]. unfold np_transpose. rewrite Ha.
  apply returns_ok. split; [apply has_shape_build|].
  intros i j Hi Hj. by rewrite nd_get_build2.
Qed.

Lemma np_sum_axis0_keepdims_spec a n m :
  is_matrix a n m →
  returns (np_sum_axis0_keepdims a) (λ r, is_matrix r 1 m ∧
    ∀ j, j < m → nd_get r [0; j] = rsum n (λ i, nd_get a [i; j])).
Proof.
  intros [Ha ?]. unfold np_sum_axis0_keepdims. rewrite Ha.
  apply returns_ok. split; [apply has_shape_build|].
  intros j Hj. rewrite nd_get_build2; [done|lia|done].
Qed.

Lemma np_sum_axis1_keepdims_spec a n m :
  is_matrix a n m →
  returns (np_sum_axis1_keepdims a) (λ r, is_matrix r n 1 ∧
    ∀ i, i < n → nd_get r [i; 0] = rsum m (λ j, nd_get a [i; j])).
Proof.
  intros [Ha ?]. unfold np_sum_axis1_keepdims. rewrite Ha.
  apply returns_ok. split; [apply has_shape_build|].
  intros i Hi. rewrite nd_get_build2; [done|done|lia].
Qed.

Lemma np_max_axis0_keepdims_spec a n m :
  is_matrix a n m → n ≠ 0 →
  returns (np_max_axis0_keepdims a) (λ r, is_matrix r 1 m ∧
    ∀ j, j < m → nd_get r [0; j] = rmax_upto n (λ i, nd_get a [i; j])).
Proof.
  intros [Ha ?] Hn. unfold np_max_axis0_keepdims.
  rewrite Ha, decide_False by done.
  apply returns_ok. split; [apply has_shape_build|].
  intros j Hj. rewrite nd_get_build2; [done|lia|done].
Qed.

(** ** Activation library *)

(** C4.  For same-shape [Z] and [dA], [relu_der] applied to [dA] with the
    cache produced by [relu Z] returns an array [dZ] of that shape which is
    0 at the positions where [Z < 0] and equals [dA] at every other
    position; positions where [Z = 0] pass through unchanged. *)
Theorem relu_der_zeroes_negative_positions (Z dA : ndarray R) (sh : list nat) :
  has_shape Z sh → has_shape dA sh →
  returns (relu_der dA (relu Z).2) (λ dZ,
    has_shape dZ sh ∧
    ∀ idx, in_bounds sh idx →
      ((nd_get Z idx < 0)%R → nd_get dZ idx = 0%R) ∧
      (¬ (nd_get Z idx < 0)%R → nd_get dZ idx = nd_get dA idx) ∧
      (nd_get Z idx = 0%R → nd_get dZ idx = nd_get dA idx)).
Proof.
  intros HZ HdA. unfold relu_der, relu. simpl.
  rewrite (dict_get_Some _ _ Z) by apply lookup_insert_eq. simpl.
  unfold np_setmask. simpl.
  destruct HZ as [HZs HZl], HdA as [HdAs HdAl].
  rewrite decide_True by congruence. simpl.
  apply returns_ok. split; [by apply has_shape_update|].
  intros idx Hidx.
  rewrite (nd_get_update _ _ sh) by done.
  rewrite (nd_get_map _ _ sh) by done.
  repeat split.
  - intros Hlt. by rewrite bool_decide_true.
  - intros Hge. by rewrite bool_decide_false.
  - intros H0. rewrite bool_decide_false; [done|lra].
Qed.

Lemma relu_der_zeroes_negative_positions_witness :
  returns (relu_der relu_ex_dA (relu relu_ex_Z).2) (λ dZ,
    has_shape dZ [1; 3] ∧
    ∀ idx, in_bounds [1; 3] idx →
      ((nd_get relu_ex_Z idx < 0)%R → nd_get dZ idx = 0%R) ∧
      (¬ (nd_get relu_ex_Z idx < 0)%R → nd_get dZ idx = nd_get relu_ex_dA idx) ∧
      (nd_get relu_ex_Z idx = 0%R → nd_get dZ idx = nd_get relu_ex_dA idx)).
Proof.
  apply (relu_der_zeroes_negative_positions relu_ex_Z relu_ex_dA [1; 3]);
    split; reflexivity.
Defined.

(** The two functions on a row with a negative, a zero and a positive
    entry. *)
Example relu_example :
  (relu relu_ex_Z).1 = NdArray [1; 3] [0; 0; 2]%R.
Proof.
  unfold relu, relu_ex_Z, nd_map. cbn. do 2 f_equal.
  rewrite Rmax_left by lra. f_equal.
  rewrite Rmax_left by lra. f_equal.
  by rewrite Rmax_right by lra.
Qed.

Example relu_der_example :
  relu_der relu_ex_dA (relu relu_ex_Z).2 = Ok (NdArray [1; 3] [0; 7; 9]%R).
Proof.
  unfold relu_der, relu. cbn [snd].
  rewrite (dict_get_Some _ _ relu_ex_Z) by apply lookup_insert_eq.
  unfold relu_ex_Z, relu_ex_dA, np_setmask, nd_map, nd_update. cbn.
  rewrite bool_decide_true by lra. rewrite !bool_decide_false by lra.
  reflexivity.
Qed.

(** ** Dense layer engine *)

Lemma rsum_ext n (f g : nat → R) :
  (∀ i, i < n → f i = g i) → rsum n f = rsum n g.
Proof.
  intros Hfg. unfold rsum, range. f_equal. apply list_eq. intros i.
  rewrite !list_lookup_fmap.
  destruct (decide (i < n)) as [Hi|Hi].
  - rewrite lookup_seq_lt by done. simpl. f_equal. by apply Hfg.
  - by rewrite lookup_seq_ge by lia.
Qed.

Lemma shape_at_matrix1 {A} (a : ndarray A) n m :
  is_matrix a n m → shape_at a 1 = Ok m.
Proof. intros [Ha _]. unfold shape_at. by rewrite Ha. Qed.

Lemma linear_backward_spec (dZ A_prev W b : ndarray R) (cache : cache_t)
    (n m p : nat) :
  is_matrix dZ n m →
  cache !! "A" = Some A_prev →
  is_matrix A_prev p m →
  is_matrix W n p →
  returns (linear_backward dZ cache W b) (λ '(dA_prev, dW, db),
    is_matrix dA_prev p m ∧ is_matrix dW n p ∧ is_matrix db n 1 ∧
    (∀ k j, k < p → j < m →
       nd_get dA_prev [k; j]
       = rsum n (λ i, nd_get W [i; k] * nd_get dZ [i; j])%R) ∧
    (∀ i k, i < n → k < p →
       nd_get dW [i; k]
       = (rsum m (λ j, nd_get dZ [i; j] * nd_get A_prev [k; j]) / INR m)%R) ∧
    (∀ i, i < n →
       nd_get db [i; 0] = (rsum m (λ j, nd_get dZ [i; j]) / INR m)%R)).
Proof.
  intros HdZ Hc HA HW. unfold linear_backward.
  rewrite (dict_get_Some _ _ _ Hc). simpl.
  rewrite (shape_at_matrix1 _ _ _ HdZ). simpl.
  eapply returns_bind; [by apply np_transpose_spec|].
  intros Wt [HWt HWt_get].
  eapply returns_bind; [by eapply np_dot_spec|].
  intros dA_prev [HdA HdA_get].
  eapply returns_bind; [by apply np_transpose_spec|].
  intros At [HAt HAt_get].
  eapply returns_bind; [by eapply np_dot_spec|].
  intros dZAt [HP HP_get].
  eapply returns_bind;
    [by eapply np_binop_scalar_r; [|apply has_shape_scalar]|].
  intros dW [HdW HdW_get].
  eapply returns_bind; [by apply np_sum_axis1_keepdims_spec|].
  intros s [Hs Hs_get].
  eapply returns_bind;
    [by eapply np_binop_scalar_r; [|apply has_shape_scalar]|].
  intros db [Hdb Hdb_get].
  apply returns_ok. repeat split; try (by apply HdA || by apply HdW || by apply Hdb).
  - intros k j Hk Hj. rewrite HdA_get by done.
    apply rsum_ext. intros i Hi. by rewrite HWt_get.
  - intros i k Hi Hk. rewrite HdW_get by by apply in_bounds2.
    rewrite nd_get_scalar, HP_get by done. f_equal.
    apply rsum_ext. intros j Hj. by rewrite HAt_get.
  - intros i Hi. rewrite Hdb_get by (apply in_bounds2; lia).
    by rewrite nd_get_scalar, Hs_get.
Qed.

(** C3.  For [dZ] of shape (n,m) with m ≥ 1, cached [A_prev] of shape (p,m)
    and [W] of shape (n,p), [linear_backward] returns
    [dA_prev = transpose(W)·dZ], [dW = (dZ·transpose(A_prev))/m] and
    [db] = the row-wise sum of [dZ] divided by [m]. *)
Theorem linear_backward_gradients (dZ A_prev W b : ndarray R) (cache : cache_t)
    (n m p : nat) :
  1 ≤ m →
  is_matrix dZ n m →
  cache !! "A" = Some A_prev →
  is_matrix A_prev p m →
  is_matrix W n p →
  returns (linear_backward dZ cache W b) (λ '(dA_prev, dW, db),
    is_matrix dA_prev p m ∧ is_matrix dW n p ∧ is_matrix db n 1 ∧
    (∀ k j, k < p → j < m →
       nd_get dA_prev [k; j]
       = rsum n (λ i, nd_get W [i; k] * nd_get dZ [i; j])%R) ∧
    (∀ i k, i < n → k < p →
       nd_get dW [i; k]
       = (rsum m (λ j, nd_get dZ [i; j] * nd_get A_prev [k; j]) / INR m)%R) ∧
    (∀ i, i < n →
       nd_get db [i; 0] = (rsum m (λ j, nd_get dZ [i; j]) / INR m)%R)).
Proof. intros _. apply linear_backward_spec. Qed.

Lemma linear_backward_gradients_witness :
  returns (linear_backward dense_ex_dZ {["A" := dense_ex_A]} dense_ex_W dense_ex_b)
    (λ '(dA_prev, dW, db),
    is_matrix dA_prev 1 2 ∧ is_matrix dW 1 1 ∧ is_matrix db 1 1 ∧
    (∀ k j, k < 1 → j < 2 →
       nd_get dA_prev [k; j]
       = rsum 1 (λ i, nd_get dense_ex_W [i; k] * nd_get dense_ex_dZ [i; j])%R) ∧
    (∀ i k, i < 1 → k < 1 →
       nd_get dW [i; k]
       = (rsum 2 (λ j, nd_get dense_ex_dZ [i; j] * nd_get dense_ex_A [k; j])
          / INR 2)%R) ∧
    (∀ i, i < 1 →
       nd_get db [i; 0] = (rsum 2 (λ j, nd_get dense_ex_dZ [i; j]) / INR 2)%R)).
Proof.
  apply (linear_backward_gradients dense_ex_dZ dense_ex_A dense_ex_W dense_ex_b
           {["A" := dense_ex_A]} 1 2 1).
  - lia.
  - split; reflexivity.
  - reflexivity.
  - split; reflexivity.
  - split; reflexivity.
Defined.

(** ** Softmax / cross-entropy head *)

Lemma sumR_app l1 l2 : sumR (l1 ++ l2) = (sumR l1 + sumR l2)%R.
Proof. induction l1 as [|x l1 IH]; simpl; [lra|]. rewrite IH. lra. Qed.

Lemma rsum_0 f : rsum 0 f = 0%R.
Proof. done. Qed.

Lemma rsum_S n f : rsum (S n) f = (rsum n f + f n)%R.
Proof.
  unfold rsum, range. rewrite seq_S, fmap_app, sumR_app. simpl. lra.
Qed.

Lemma rsum_scal n f c : rsum n (λ i, f i * c)%R = (rsum n f * c)%R.
Proof.
  induction n as [|n IH]; [rewrite !rsum_0; lra|].
  rewrite !rsum_S, IH. lra.
Qed.

Lemma rsum_zero n f : (∀ i, i < n → f i = 0%R) → rsum n f = 0%R.
Proof.
  induction n as [|n IH]; intros Hf; [done|].
  rewrite rsum_S, IH by (intros; apply Hf; lia).
  rewrite Hf by lia. lra.
Qed.

Lemma rsum_pos n f : n ≠ 0 → (∀ i, i < n → (0 < f i)%R) → (0 < rsum n f)%R.
Proof.
  intros Hn Hf. destruct n as [|n]; [done|]. clear Hn.
  induction n as [|n IH].
  - rewrite rsum_S, rsum_0. specialize (Hf 0 ltac:(lia)). lra.
  - rewrite rsum_S.
    assert (0 < rsum (S n) f)%R by (apply IH; intros; apply Hf; lia).
    specialize (Hf (S n) ltac:(lia)). lra.
Qed.

Lemma py_norm_index_nonneg n k :
  (0 ≤ k < Z.of_nat n)%Z → py_norm_index n k = Ok (Z.to_nat k).
Proof. intros. unfold py_norm_index. by rewrite decide_True. Qed.

Lemma py_norm_index_neg n k :
  (- Z.of_nat n ≤ k < 0)%Z → py_norm_index n k = Ok (Z.to_nat (k + Z.of_nat n)).
Proof.
  intros. unfold py_norm_index.
  rewrite decide_False by lia. by rewrite decide_True.
Qed.

Lemma py_norm_index_out n k :
  ¬ (- Z.of_nat n ≤ k < Z.of_nat n)%Z → py_norm_index n k = Raise IndexError.
Proof. intros. unfold py_norm_index. by rewrite !decide_False by lia. Qed.

Lemma py_norm_index_in n k :
  (- Z.of_nat n ≤ k < Z.of_nat n)%Z →
  ∃ i, py_norm_index n k = Ok i ∧ i < n ∧
       i = Z.to_nat (if decide (0 ≤ k)%Z then k else k + Z.of_nat n).
Proof.
  intros Hk. destruct (decide (0 ≤ k)%Z).
  - exists (Z.to_nat k). rewrite py_norm_index_nonneg by lia.
    split_and!; [done | lia | done].
  - exists (Z.to_nat (k + Z.of_nat n)). rewrite py_norm_index_neg by lia.
    split_and!; [done | lia | done].
Qed.

(** [a[k]] is the [k]-th slab of the buffer. *)
Lemma np_item_spec {A} `{Inhabited A} (a : ndarray A) n sh (k : int) i :
  has_shape a (n :: sh) → py_norm_index n k = Ok i → i < n →
  returns (np_item a k) (λ r, has_shape r sh ∧
    ∀ idx, in_bounds sh idx → nd_get r idx = nd_get a (i :: idx)).
Proof.
  intros [Ha Hl] Hk Hi. unfold np_item. rewrite Ha, Hk. simpl.
  apply returns_ok. simpl in Hl. split.
  - split; [done|]. simpl. rewrite length_take, length_drop. nia.
  - intros idx Hidx. unfold nd_get. simpl. rewrite Ha. simpl.
    pose proof (ravel_lt _ _ Hidx).
    rewrite !list_lookup_total_alt, lookup_take_lt, lookup_drop by done.
    done.
Qed.

Lemma list_comp_ok {X Y} (f : X → result Y) (g : X → Y) xs :
  (∀ x, x ∈ xs → f x = Ok (g x)) → list_comp f xs = Ok (g <$> xs).
Proof.
  induction xs as [|x xs IH]; intros Hf; simpl; [done|].
  rewrite Hf by left. simpl. rewrite IH; [done|].
  intros y Hy. apply Hf. by right.
Qed.

(** When every element either is bad and raises [e], or is good and
    evaluates, the comprehension raises [e] exactly when some element is
    bad. *)
Lemma list_comp_cases {X Y} (f : X → result Y) (bad : X → Prop) e xs :
  (∀ x, x ∈ xs → (bad x ∧ f x = Raise e) ∨ (¬ bad x ∧ is_Ok (f x))) →
  (Exists bad xs ∧ list_comp f xs = Raise e) ∨
  (Forall (λ x, ¬ bad x) xs ∧ is_Ok (list_comp f xs)).
Proof.
  induction xs as [|x xs IH]; intros Hf; simpl.
  - right. split; [constructor | by eexists].
  - destruct (Hf x ltac:(left)) as [[Hb ->] | [Hg [y ->]]]; simpl.
    + left. split; [by left | done].
    + destruct IH as [[Hex ->] | [Hall [ys ->]]]; simpl.
      * intros z Hz. apply Hf. by right.
      * left. split; [by right | done].
      * right. split; [by constructor | by eexists].
Qed.

Lemma for_each_cases {S X} (body : X → S → result S) (P : S → Prop)
    (bad : X → Prop) e xs s :
  P s →
  (∀ x s, x ∈ xs → P s →
     (bad x ∧ body x s = Raise e) ∨ (¬ bad x ∧ returns (body x s) P)) →
  (Exists bad xs ∧ for_each xs body s = Raise e) ∨
  (Forall (λ x, ¬ bad x) xs ∧ returns (for_each xs body s) P).
Proof.
  revert s. induction xs as [|x xs IH]; intros s Hs Hbody; simpl.
  - right. split; [constructor | by apply returns_ok].
  - destruct (Hbody x s ltac:(left) Hs) as [[Hb ->] | [Hg (s' & -> & Hs')]]; simpl.
    + left. split; [by left | done].
    + destruct (IH s' Hs') as [[Hex ->] | [Hall Hret]].
      * intros z t Hz. apply Hbody. by right.
      * left. split; [by right | done].
      * right. split; [by constructor | done].
Qed.

Lemma for_each_returns {S X} (body : X → S → result S) (P : S → Prop) xs s :
  P s → (∀ x s, x ∈ xs → P s → returns (body x s) P) →
  returns (for_each xs body s) P.
Proof.
  intros Hs Hbody.
  destruct (for_each_cases body P (λ _, False) IndexError xs s Hs)
    as [[Hex _] | [_ Hret]]; [|by apply Exists_exists in Hex as (? & _ & []) | done].
  intros x t Hx Ht. right. split; [tauto | by apply Hbody].
Qed.

Lemma elem_of_range n i : i ∈ range n ↔ i < n.
Proof. unfold range. rewrite elem_of_seq. lia. Qed.

Lemma exp_shift_ratio (n : nat) (z : nat → R) (M : R) i :
  n ≠ 0 →
  (exp (z i - M) / rsum n (λ k, exp (z k - M)) = exp (z i) / rsum n (λ k, exp (z k)))%R.
Proof.
  intros Hn.
  assert (HM : (exp M ≠ 0)%R) by (pose proof (exp_pos M); lra).
  assert (Hs : (0 < rsum n (λ k, exp (z k)))%R)
    by (apply rsum_pos; [done | intros; apply exp_pos]).
  rewrite (rsum_ext n (λ k, exp (z k - M)) (λ k, exp (z k) * / exp M)%R).
  2:{ intros k _. unfold Rminus. by rewrite exp_plus, exp_Ropp. }
  rewrite rsum_scal. unfold Rminus. rewrite exp_plus, exp_Ropp.
  field. split; lra.
Qed.

(** The activation computed by the forward pass is the softmax of each
    column; what remains of the forward pass is the loss. *)
Lemma softmax_forward_unfold (Z : ndarray R) (Y : list int) n m :
  is_matrix Z n m → n ≠ 0 →
  ∃ A, is_matrix A n m ∧
    (∀ i j, i < n → j < m → nd_get A [i; j] = softmax_prob Z n i j) ∧
    softmax_cross_entropy_loss Z Y =
      (IA ← list_comp (λ i,
               y ← list_get Y i;
               row ← np_item A y;
               x ← np_item row (Z.of_nat i);
               Ok (np_float x)) (range (length Y));
       Ok (A, <["A" := A]> (∅ : cache_t),
           (- np_mean (nd_map ln (nd_map clamp (np_array1 IA))))%R)).
Proof.
  intros HZ Hn. unfold softmax_cross_entropy_loss.
  destruct (np_max_axis0_keepdims_spec Z n m HZ Hn) as (mZ & -> & HmZ & HmZ_get).
  simpl.
  destruct (np_binop_row Rminus Z mZ n m HZ HmZ) as (ZmZ & -> & HZmZ & HZmZ_get).
  simpl.
  pose proof (has_shape_map exp ZmZ _ HZmZ) as HexpZ.
  destruct (np_sum_axis0_keepdims_spec _ n m HexpZ) as (s & -> & Hs & Hs_get).
  simpl.
  destruct (np_binop_row Rdiv _ s n m HexpZ Hs) as (A & -> & HA & HA_get).
  simpl.
  exists A. split_and!; [done| |done].
  intros i j Hi Hj. rewrite HA_get, Hs_get by done.
  rewrite (nd_get_map exp ZmZ [n; m]) by (done || by apply in_bounds2).
  rewrite HZmZ_get by done.
  rewrite (rsum_ext n _ (λ k, exp (nd_get Z [k; j] - nd_get mZ [0%nat; j]))%R).
  2:{ intros k Hk.
      rewrite (nd_get_map exp ZmZ [n; m]) by (done || by apply in_bounds2).
      by rewrite HZmZ_get. }
  unfold softmax_prob.
  apply (exp_shift_ratio n (λ k, nd_get Z [k; j]) (nd_get mZ [0; j]) i Hn).
Qed.

(** The true-class probability [A[Y[0][i]][i]] of sample [i]. *)
Lemma true_class_item (A : ndarray R) (Y : list int) n m i y :
  is_matrix A n m → i < m → Y !! i = Some y →
  ((¬ (- Z.of_nat n ≤ y < Z.of_nat n)%Z ∧
    (y ← list_get Y i; row ← np_item A y; x ← np_item row (Z.of_nat i);
     Ok (np_float x)) = Raise IndexError)
   ∨ ((- Z.of_nat n ≤ y < Z.of_nat n)%Z ∧
    (y ← list_get Y i; row ← np_item A y; x ← np_item row (Z.of_nat i);
     Ok (np_float x))
    = Ok (nd_get A [Z.to_nat (if decide (0 ≤ y)%Z then y else y + Z.of_nat n); i]))).
Proof.
  intros HA Hi HY. unfold list_get. rewrite HY. simpl.
  destruct (decide (- Z.of_nat n ≤ y < Z.of_nat n)%Z) as [Hy|Hy].
  - right. split; [done|].
    destruct (py_norm_index_in n y Hy) as (r & Hr & Hrn & Hreq).
    destruct (np_item_spec A n [m] y r HA Hr Hrn) as (row & -> & Hrow & Hrow_get).
    simpl.
    assert (Hc : py_norm_index m (Z.of_nat i) = Ok i).
    { rewrite py_norm_index_nonneg by lia. by rewrite Nat2Z.id. }
    destruct (np_item_spec row m [] (Z.of_nat i) i Hrow Hc Hi)
      as (x & -> & Hx & Hx_get).
    simpl. unfold np_float. rewrite Hx_get by constructor.
    rewrite Hrow_get by by apply in_bounds1. by rewrite Hreq.
  - left. split; [done|]. destruct HA as [HAs _].
    assert (np_item A y = Raise IndexError) as ->; [|done].
    unfold np_item. rewrite HAs. by rewrite py_norm_index_out.
Qed.

Lemma sumR_fmap_range n (f : nat → R) : sumR (f <$> range n) = rsum n f.
Proof. done. Qed.

(** C6.  For labels in range, the loss returned by the forward pass is
    minus the batch mean of [ln (clamp p_i)], where [p_i] is the softmax
    probability of the true class [y_i] of sample [i] and
    [clamp p = (p - 0.5) * 0.9999999999 + 0.5]. *)
Theorem softmax_loss_is_mean_log_clamped (Z : ndarray R) (Y : list int) (n m : nat) :
  is_matrix Z n m →
  length Y = m →
  (∀ y, y ∈ Y → (0 ≤ y < Z.of_nat n)%Z) →
  n ≠ 0 →
  returns (softmax_cross_entropy_loss Z Y) (λ '(A, cache, loss),
    is_matrix A n m ∧
    (∀ i j, i < n → j < m → nd_get A [i; j] = softmax_prob Z n i j) ∧
    loss = (- (rsum m (λ i, ln (clamp (nd_get A [Z.to_nat (Y !!! i); i])))
              / INR m))%R).
Proof.
  intros HZ HY Hlab Hn.
  destruct (softmax_forward_unfold Z Y n m HZ Hn) as (A & HA & HA_get & ->).
  rewrite (list_comp_ok _ (λ i, nd_get A [Z.to_nat (Y !!! i); i])).
  2:{ intros i Hi%elem_of_range.
      destruct (lookup_lt_is_Some_2 Y i Hi) as [y Hy].
      assert (Hyin : (0 ≤ y < Z.of_nat n)%Z)
        by (apply Hlab; by eapply list_elem_of_lookup_2).
      destruct (true_class_item A Y n m i y HA ltac:(lia) Hy) as [[Hout _]|[_ ->]];
        [lia|].
      rewrite decide_True by lia.
      by rewrite list_lookup_total_alt, Hy. }
  simpl. apply returns_ok. split_and!; [done..|].
  unfold np_mean, np_sum, nd_size. simpl.
  rewrite <- !list_fmap_compose, length_fmap.
  replace (length (range (length Y))) with m
    by (unfold range; by rewrite length_seq).
  by rewrite HY, Nat.mul_1_r, sumR_fmap_range.
Qed.

Lemma softmax_loss_is_mean_log_clamped_witness :
  returns (softmax_cross_entropy_loss softmax_ex_Z [1; 0]%Z) (λ '(A, cache, loss),
    is_matrix A 2 2 ∧
    (∀ i j, i < 2 → j < 2 → nd_get A [i; j] = softmax_prob softmax_ex_Z 2 i j) ∧
    loss = (- (rsum 2 (λ i, ln (clamp (nd_get A [Z.to_nat ([1; 0]%Z !!! i); i])))
              / INR 2))%R).
Proof.
  apply (softmax_loss_is_mean_log_clamped softmax_ex_Z [1; 0]%Z 2 2).
  - split; reflexivity.
  - reflexivity.
  - intros y Hy. apply list_elem_of_In in Hy. simpl in Hy.
    destruct Hy as [<-|[<-|[]]]; lia.
  - lia.
Defined.

Lemma softmax_column_sum (Z : ndarray R) n j :
  n ≠ 0 → rsum n (λ i, softmax_prob Z n i j) = 1%R.
Proof.
  intros Hn. unfold softmax_prob.
  assert (Hs : (0 < rsum n (λ k, exp (nd_get Z [k; j])))%R)
    by (apply rsum_pos; [done | intros; apply exp_pos]).
  unfold Rdiv. rewrite rsum_scal. field. lra.
Qed.

(** C5.  Whenever the forward pass returns, every column of the softmax
    activation [A] sums to 1; and it does return on the inference call
    (no labels) for every matrix with at least one row. *)
Theorem softmax_columns_sum_to_one (Z : ndarray R) (n m : nat) :
  is_matrix Z n m →
  (∀ Y A cache loss,
     softmax_cross_entropy_loss Z Y = Ok (A, cache, loss) →
     is_matrix A n m ∧ ∀ j, j < m → rsum n (λ i, nd_get A [i; j]) = 1%R) ∧
  (n ≠ 0 → is_Ok (softmax_cross_entropy_loss Z [])).
Proof.
  intros HZ. split.
  - intros Y A cache loss Hret.
    destruct (decide (n = 0)) as [->|Hn].
    { unfold softmax_cross_entropy_loss, np_max_axis0_keepdims in Hret.
      destruct HZ as [HZs _]. rewrite HZs in Hret. done. }
    destruct (softmax_forward_unfold Z Y n m HZ Hn) as (A' & HA & HA_get & Heq).
    rewrite Heq in Hret.
    destruct (list_comp _ _) as [IA|e]; [|done]. simpl in Hret.
    injection Hret as <- _ _. split; [done|].
    intros j Hj.
    rewrite (rsum_ext n _ (λ i, softmax_prob Z n i j)) by (intros; by apply HA_get).
    by apply softmax_column_sum.
  - intros Hn.
    destruct (softmax_forward_unfold Z [] n m HZ Hn) as (A' & _ & _ & ->).
    simpl. by eexists.
Qed.

Lemma softmax_columns_sum_to_one_witness :
  (∀ Y A cache loss,
     softmax_cross_entropy_loss softmax_ex_Z Y = Ok (A, cache, loss) →
     is_matrix A 2 2 ∧ ∀ j, j < 2 → rsum 2 (λ i, nd_get A [i; j]) = 1%R) ∧
  (2 ≠ 0 → is_Ok (softmax_cross_entropy_loss softmax_ex_Z [])).
Proof.
  apply (softmax_columns_sum_to_one softmax_ex_Z 2 2). split; reflexivity.
Defined.

(** The forward pass with labels raises [IndexError] exactly when a label
    is outside [-n, n); otherwise it returns. *)
Lemma softmax_forward_index_error (Z : ndarray R) (Y : list int) n m :
  is_matrix Z n m → n ≠ 0 → length Y ≤ m →
  (Exists (λ y, ¬ (- Z.of_nat n ≤ y < Z.of_nat n)%Z) Y ∧
   softmax_cross_entropy_loss Z Y = Raise IndexError) ∨
  (Forall (λ y, (- Z.of_nat n ≤ y < Z.of_nat n)%Z) Y ∧
   is_Ok (softmax_cross_entropy_loss Z Y)).
Proof.
  intros HZ Hn HY.
  destruct (softmax_forward_unfold Z Y n m HZ Hn) as (A & HA & _ & ->).
  match goal with |- context [list_comp ?f ?xs] =>
    destruct (list_comp_cases f
      (λ i, ∃ y, Y !! i = Some y ∧ ¬ (- Z.of_nat n ≤ y < Z.of_nat n)%Z)
      IndexError xs) as [[Hex ->] | [Hall [IA ->]]]
  end.
  - intros i Hi%elem_of_range.
    destruct (lookup_lt_is_Some_2 Y i Hi) as [y Hy].
    destruct (true_class_item A Y n m i y HA ltac:(lia) Hy) as [[Hout ->]|[Hin' ->]].
    + left. split; [by exists y | done].
    + right. split; [|by eexists]. intros (y' & Hy' & Hout).
      assert (y' = y) as -> by congruence. done.
  - left. split; [|done].
    apply Exists_exists in Hex as (i & _ & y & Hy & Hout).
    apply Exists_exists. exists y. split; [by eapply list_elem_of_lookup_2 | done].
  - right. split; [|simpl; by eexists].
    apply Forall_forall. intros y Hy.
    apply list_elem_of_lookup in Hy as [i Hi].
    rewrite Forall_forall in Hall.
    destruct (decide (- Z.of_nat n ≤ y < Z.of_nat n)%Z) as [|Hout]; [done|].
    exfalso. apply (Hall i).
    + apply elem_of_range. by eapply lookup_lt_Some.
    + by exists y.
Qed.

(** The same for the backward pass, which moreover keeps the shape. *)
Lemma softmax_backward_index_error (A : ndarray R) (Y : list int)
    (cache : cache_t) n m :
  cache !! "A" = Some A → is_matrix A n m → length Y ≤ m →
  (Exists (λ y, ¬ (- Z.of_nat n ≤ y < Z.of_nat n)%Z) Y ∧
   softmax_cross_entropy_loss_der Y cache = Raise IndexError) ∨
  (Forall (λ y, (- Z.of_nat n ≤ y < Z.of_nat n)%Z) Y ∧
   returns (softmax_cross_entropy_loss_der Y cache) (λ dZ, is_matrix dZ n m)).
Proof.
  intros Hc HA HY. unfold softmax_cross_entropy_loss_der.
  rewrite (dict_get_Some _ _ _ Hc). simpl.
  match goal with |- context [for_each ?xs ?body ?s] =>
    destruct (for_each_cases body (λ dZ, is_matrix dZ n m)
      (λ i, ∃ y, Y !! i = Some y ∧ ¬ (- Z.of_nat n ≤ y < Z.of_nat n)%Z)
      IndexError xs s HA) as [[Hex ->] | [Hall (dZ & -> & HdZ)]]
  end.
  - intros i dZ Hi%elem_of_range HdZ.
    destruct (lookup_lt_is_Some_2 Y i Hi) as [y Hy].
    unfold list_get. rewrite Hy. simpl. unfold np_isub_at2.
    destruct HdZ as [HdZs HdZl]. rewrite HdZs.
    destruct (decide (- Z.of_nat n ≤ y < Z.of_nat n)%Z) as [Hin|Hout].
    + right. split.
      { intros (y' & Hy' & Hout'). assert (y' = y) as -> by congruence. done. }
      destruct (py_norm_index_in n y Hin) as (r & -> & _ & _). simpl.
      rewrite py_norm_index_nonneg by lia. simpl.
      apply returns_ok. by apply has_shape_update.
    + left. split; [by exists y|]. simpl.
      by rewrite (py_norm_index_out n y).
  - left. split; [|done].
    apply Exists_exists in Hex as (i & _ & y & Hy & Hout).
    apply Exists_exists. exists y. split; [by eapply list_elem_of_lookup_2 | done].
  - right. split; [|simpl; by apply returns_ok].
    apply Forall_forall. intros y Hy.
    apply list_elem_of_lookup in Hy as [i Hi].
    rewrite Forall_forall in Hall.
    destruct (decide (- Z.of_nat n ≤ y < Z.of_nat n)%Z) as [|Hout]; [done|].
    exfalso. apply (Hall i).
    + apply elem_of_range. by eapply lookup_lt_Some.
    + by exists y.
Qed.

(** C8, as the code has it.  With [n ≥ 1] classes and one label per sample,
    the forward pass (with labels) and the backward pass raise [IndexError]
    if and only if some label lies outside [-n, n): a label in [-n, 0) is a
    Python index counted from the last row and is accepted.  When all labels
    lie in [0, n) both passes return. *)
Theorem softmax_index_error_iff_label_outside_python_range
    (Z A : ndarray R) (Y : list int) (n m : nat) :
  is_matrix Z n m → is_matrix A n m → n ≠ 0 → length Y = m →
  (softmax_cross_entropy_loss Z Y = Raise IndexError
     ↔ ∃ y, y ∈ Y ∧ ¬ (- Z.of_nat n ≤ y < Z.of_nat n)%Z) ∧
  (softmax_cross_entropy_loss_der Y (<["A" := A]> ∅) = Raise IndexError
     ↔ ∃ y, y ∈ Y ∧ ¬ (- Z.of_nat n ≤ y < Z.of_nat n)%Z) ∧
  ((∀ y, y ∈ Y → (0 ≤ y < Z.of_nat n)%Z) →
     is_Ok (softmax_cross_entropy_loss Z Y) ∧
     is_Ok (softmax_cross_entropy_loss_der Y (<["A" := A]> ∅))).
Proof.
  intros HZ HA Hn HY.
  pose proof (softmax_forward_index_error Z Y n m HZ Hn ltac:(lia)) as Hf.
  pose proof (softmax_backward_index_error A Y (<["A" := A]> ∅) n m
                (lookup_insert_eq _ _ _) HA ltac:(lia)) as Hb.
  split_and!.
  - split.
    + intros Hraise. destruct Hf as [[Hex _]|[_ [r Hr]]]; [|congruence].
      by apply Exists_exists in Hex.
    + intros Hex%Exists_exists. destruct Hf as [[_ ?]|[Hall _]]; [done|].
      rewrite Forall_forall in Hall.
      apply Exists_exists in Hex as (y & Hy & Hout).
      exfalso. by apply Hout, Hall.
  - split.
    + intros Hraise. destruct Hb as [[Hex _]|[_ (r & Hr & _)]]; [|congruence].
      by apply Exists_exists in Hex.
    + intros Hex%Exists_exists. destruct Hb as [[_ ?]|[Hall _]]; [done|].
      rewrite Forall_forall in Hall.
      apply Exists_exists in Hex as (y & Hy & Hout).
      exfalso. by apply Hout, Hall.
  - intros Hlab. split.
    + destruct Hf as [[Hex _]|[_ ?]]; [|done].
      apply Exists_exists in Hex as (y & Hy & Hout).
      specialize (Hlab y Hy). lia.
    + destruct Hb as [[Hex _]|[_ (r & Hr & _)]]; [|by exists r].
      apply Exists_exists in Hex as (y & Hy & Hout).
      specialize (Hlab y Hy). lia.
Qed.

Lemma softmax_index_error_iff_label_outside_python_range_witness :
  (softmax_cross_entropy_loss label_ex_Z [-1]%Z = Raise IndexError
     ↔ ∃ y, y ∈ [-1]%Z ∧ ¬ (- Z.of_nat 2 ≤ y < Z.of_nat 2)%Z) ∧
  (softmax_cross_entropy_loss_der [-1]%Z (<["A" := label_ex_A]> ∅) = Raise IndexError
     ↔ ∃ y, y ∈ [-1]%Z ∧ ¬ (- Z.of_nat 2 ≤ y < Z.of_nat 2)%Z) ∧
  ((∀ y, y ∈ [-1]%Z → (0 ≤ y < Z.of_nat 2)%Z) →
     is_Ok (softmax_cross_entropy_loss label_ex_Z [-1]%Z) ∧
     is_Ok (softmax_cross_entropy_loss_der [-1]%Z (<["A" := label_ex_A]> ∅))).
Proof.
  apply (softmax_index_error_iff_label_outside_python_range
           label_ex_Z label_ex_A [-1]%Z 2 1).
  - split; reflexivity.
  - split; reflexivity.
  - lia.
  - reflexivity.
Defined.

(** C8 as stated fails: the label -1 is outside [0, 2), yet neither pass
    raises on it. *)
Lemma label_minus_one_is_accepted :
  ¬ index_error_iff_label_outside_0_n label_ex_Z label_ex_A [-1]%Z 2.
Proof.
  intros [Hfwd _].
  assert (Hout : ∃ y, y ∈ [-1]%Z ∧ ¬ (0 ≤ y < Z.of_nat 2)%Z).
  { exists (-1)%Z. split; [by left | lia]. }
  apply Hfwd in Hout.
  destruct (softmax_forward_index_error label_ex_Z [-1]%Z 2 1)
    as [[Hex _]|[_ [r Hr]]]; [by split | lia | simpl; lia | | congruence].
  apply Exists_exists in Hex as (y & Hy & Hbad).
  apply list_elem_of_In in Hy. simpl in Hy. destruct Hy as [<-|[]]. lia.
Qed.

(** Python's index normalisation on an axis of length 2, and the backward
    pass on the labels -1 (which reaches the last row) and 2. *)
Example py_norm_index_examples :
  py_norm_index 2 1 = Ok 1 ∧ py_norm_index 2 (-1) = Ok 1 ∧
  py_norm_index 2 (-2) = Ok 0 ∧ py_norm_index 2 2 = Raise IndexError ∧
  py_norm_index 2 (-3) = Raise IndexError.
Proof. repeat split. Qed.

Example softmax_der_label_minus_one :
  softmax_cross_entropy_loss_der [-1]%Z (<["A" := label_ex_A]> ∅)
  = Ok (NdArray [2; 1] [0.5; 0.5 - 1]%R).
Proof.
  unfold softmax_cross_entropy_loss_der.
  rewrite (dict_get_Some _ _ label_ex_A) by apply lookup_insert_eq.
  reflexivity.
Qed.

Example softmax_der_label_two :
  softmax_cross_entropy_loss_der [2]%Z (<["A" := label_ex_A]> ∅)
  = Raise IndexError.
Proof.
  unfold softmax_cross_entropy_loss_der.
  rewrite (dict_get_Some _ _ label_ex_A) by apply lookup_insert_eq.
  reflexivity.
Qed.

(** ** Parameter store and optimizer *)

(** [0 * g] is zero everywhere. *)
Lemma scale_by_zero (g : ndarray R) :
  ∃ ag, np_binop Rmult (nd_scalar 0%R) g = Ok ag ∧ shape ag = shape g ∧
        ∀ idx, nd_get ag idx = 0%R.
Proof.
  unfold np_binop. simpl shape at 1. rewrite broadcast_shapes_scalar_l. simpl.
  eexists. split_and!; [done..|].
  intros idx. unfold nd_get. simpl.
  rewrite list_lookup_total_alt, list_lookup_fmap.
  destruct (seq 0 (size_of (shape g)) !! _); simpl; [|done].
  apply Rmult_0_l.
Qed.

(** [p -= ag] with [ag] zero everywhere gives back [p]. *)
Lemma np_iop_sub_zero (p ag r : ndarray R) :
  (∀ idx, nd_get ag idx = 0%R) →
  (shape p = [] → length (data p) = 1 ∧ shape ag = []) →
  np_iop Rminus p ag = Ok r → r = p.
Proof.
  intros Hag Hscal. unfold np_iop.
  destruct (shape p) as [|d sh] eqn:Hsh.
  - destruct (Hscal eq_refl) as [Hl Hsag].
    unfold np_binop. rewrite Hsh, Hsag. simpl. intros [= <-].
    destruct p as [shp dp]. simpl in *. subst shp.
    destruct dp as [|x [|? ?]]; simplify_eq/=.
    unfold nd_build. simpl. do 2 f_equal.
    rewrite Hag. unfold nd_get. simpl. lra.
  - destruct (broadcast_shapes _ _) as [sh'|e]; simpl; [|done].
    case_decide; [|done]. intros [= <-].
    apply (nd_update_id p).
    intros idx x. rewrite Hag. lra.
Qed.

Lemma isub_scaled_zero (parameters gradients : cache_t) (k : string) :
  scalars_ok parameters gradients →
  (isub_scaled 0 gradients k ("d" +:+ k) parameters).1 = parameters.
Proof.
  intros Hok. unfold isub_scaled, dict_get.
  destruct (parameters !! k) as [p|] eqn:Hp; cbn -[np_binop np_iop]; [|done].
  destruct (gradients !! ("d" +:+ k)) as [g|] eqn:Hg;
    cbn -[np_binop np_iop]; [|done].
  destruct (scale_by_zero g) as (ag & -> & Hsag & Hag). cbn -[np_iop].
  destruct (np_iop Rminus p ag) as [p'|e] eqn:Hiop; simpl; [|done].
  apply np_iop_sub_zero in Hiop as ->; [by apply insert_id|done|].
  intros Hsh. destruct (Hok k p Hp Hsh) as [Hl Hgs].
  split; [done|]. rewrite Hsag. by apply Hgs.
Qed.

Lemma seq_mut_unchanged {S} (c1 c2 : S → S * result ()) s :
  (c1 s).1 = s → (c2 s).1 = s → (seq_mut c1 c2 s).1 = s.
Proof.
  intros H1 H2. unfold seq_mut.
  destruct (c1 s) as [s' [[]|e]]; simpl in *; by subst.
Qed.

Lemma for_each_mut_unchanged {S X} (body : X → S → S * result ()) xs s :
  (∀ x, (body x s).1 = s) → (for_each_mut xs body s).1 = s.
Proof.
  intros Hbody. induction xs as [|x xs IH]; simpl; [done|].
  specialize (Hbody x).
  destruct (body x s) as [s' [[]|e]]; simpl in *; by subst.
Qed.

Lemma update_parameters_zero_rate parameters gradients epoch decay_rate :
  scalars_ok parameters gradients →
  (update_parameters parameters gradients epoch 0 decay_rate).1 = parameters ∧
  ∀ alpha, (update_parameters parameters gradients epoch 0 decay_rate).2
           = Ok alpha → alpha = 0%R.
Proof.
  intros Hok. unfold update_parameters.
  destruct (py_div _ _) as [q|e]; simpl; [|done].
  rewrite Rmult_0_l.
  match goal with |- context [for_each_mut ?xs ?body ?s] =>
    pose proof (for_each_mut_unchanged body xs s) as Hloop;
    destruct (for_each_mut xs body s) as [ps [[]|e]]
  end; simpl in *.
  - split; [|by intros ? [= <-]]. apply Hloop.
    intros l. apply seq_mut_unchanged; by apply (isub_scaled_zero _ _ _ Hok).
  - split; [|done]. apply Hloop.
    intros l. apply seq_mut_unchanged; by apply (isub_scaled_zero _ _ _ Hok).
Qed.

Lemma update_conv_zero_rate parameters gradients :
  scalars_ok parameters gradients →
  (update_conv parameters gradients 0).1 = parameters.
Proof.
  intros Hok. unfold update_conv. apply for_each_mut_unchanged.
  intros i. apply seq_mut_unchanged; by apply (isub_scaled_zero _ _ _ Hok).
Qed.

Lemma update_step_zero_rate stores gradients convGradients epoch decay_rate :
  scalars_ok stores.1 gradients → scalars_ok stores.2 convGradients →
  (update_step stores gradients convGradients epoch 0 decay_rate).1 = stores ∧
  ∀ alpha, (update_step stores gradients convGradients epoch 0 decay_rate).2
           = Ok alpha → alpha = 0%R.
Proof.
  destruct stores as [parameters convParameters]. simpl. intros Hok Hcok.
  unfold update_step.
  destruct (update_parameters_zero_rate parameters gradients epoch decay_rate Hok)
    as [Hps Halpha].
  destruct (update_parameters _ _ _ _ _) as [ps [alpha|e]]; simpl in *; subst ps;
    [|done].
  rewrite (Halpha alpha eq_refl).
  pose proof (update_conv_zero_rate convParameters convGradients Hcok) as Hcps.
  destruct (update_conv _ _ _) as [cps [[]|e]]; simpl in *; subst cps;
    [split; [done | by intros ? [= <-]] | done].
Qed.

(** With gradients of the right shapes and a rate that can be computed,
    the update does not raise: it returns the rate 0. *)
Lemma np_iop_same_shape_Ok {A B} `{Inhabited A, Inhabited B}
    (f : A → B → A) (a : ndarray A) (b : ndarray B) :
  shape b = shape a → is_Ok (np_iop f a b).
Proof.
  intros Hs. unfold np_iop, np_binop. rewrite Hs, broadcast_shapes_same.
  destruct (shape a); simpl; [by eexists|].
  rewrite decide_True by done. by eexists.
Qed.

Lemma isub_scaled_zero_returns (parameters gradients : cache_t) (k : string) :
  scalars_ok parameters gradients → has_gradient parameters gradients k →
  isub_scaled 0 gradients k ("d" +:+ k) parameters = (parameters, Ok ()).
Proof.
  intros Hok (p & g & Hp & Hg & Hs).
  pose proof (isub_scaled_zero parameters gradients k Hok) as Hst.
  unfold isub_scaled, dict_get in *. rewrite Hp, Hg in *.
  cbn -[np_binop np_iop] in *.
  destruct (scale_by_zero g) as (ag & Hag & Hsag & _). rewrite Hag in *.
  cbn -[np_iop] in *.
  destruct (np_iop_same_shape_Ok Rminus p ag) as [p' Hp']; [congruence|].
  rewrite Hp' in *. simpl in *. by rewrite Hst.
Qed.

Lemma seq_mut_returns {S} (c1 c2 : S → S * result ()) s :
  c1 s = (s, Ok ()) → c2 s = (s, Ok ()) → seq_mut c1 c2 s = (s, Ok ()).
Proof. intros H1 H2. unfold seq_mut. by rewrite H1. Qed.

Lemma for_each_mut_returns {S X} (body : X → S → S * result ()) xs s :
  (∀ x, x ∈ xs → body x s = (s, Ok ())) → for_each_mut xs body s = (s, Ok ()).
Proof.
  induction xs as [|x xs IH]; intros Hbody; simpl; [done|].
  rewrite (Hbody x) by left. apply IH. intros y Hy. apply Hbody. by right.
Qed.

Lemma update_step_zero_rate_returns stores gradients convGradients
    epoch decay_rate :
  scalars_ok stores.1 gradients → scalars_ok stores.2 convGradients →
  gradients_complete stores gradients convGradients →
  (1 + decay_rate * IZR epoch)%R ≠ 0%R →
  update_step stores gradients convGradients epoch 0 decay_rate
  = (stores, Ok 0%R).
Proof.
  destruct stores as [parameters convParameters]. simpl.
  intros Hok Hcok [Hdense Hconv] Hrate. cbn [fst snd] in Hdense, Hconv.
  unfold update_step, update_parameters, py_div.
  rewrite decide_False by done. cbn zeta. rewrite Rmult_0_l.
  rewrite for_each_mut_returns.
  - unfold update_conv. rewrite for_each_mut_returns; [done|].
    intros i Hi. apply elem_of_seq in Hi.
    destruct (Hconv i ltac:(lia)) as [HW Hb].
    apply seq_mut_returns; by apply isub_scaled_zero_returns.
  - intros l Hl. apply elem_of_reverse, elem_of_seq in Hl.
    destruct (Hdense l ltac:(lia)) as [HW Hb].
    apply seq_mut_returns; by apply isub_scaled_zero_returns.
Qed.

(** C7, as the code has it.  Provided every parameter held as a Python
    scalar (the convolution biases) has a scalar gradient, as
    [conv_backward] produces: with [learning_rate = 0], one update (the dense
    update followed by the convolution update with the rate it returned)
    leaves both parameter dictionaries as they were, whatever else the
    gradients hold, whatever the epoch and the decay rate, and whether or
    not the call raises; the effective rate it returns is 0; and so does any
    number of repeated updates. *)
Theorem zero_learning_rate_leaves_parameters_unchanged
    (stores : cache_t * cache_t) (steps : list (cache_t * cache_t * int * R)) :
  (∀ gradients convGradients epoch decay_rate,
     (gradients, convGradients, epoch, decay_rate) ∈ steps →
     scalars_ok stores.1 gradients ∧ scalars_ok stores.2 convGradients) →
  (update_steps stores steps 0).1 = stores ∧
  (∀ gradients convGradients epoch decay_rate,
     (gradients, convGradients, epoch, decay_rate) ∈ steps →
     (update_step stores gradients convGradients epoch 0 decay_rate).1 = stores ∧
     ∀ alpha,
       (update_step stores gradients convGradients epoch 0 decay_rate).2
       = Ok alpha → alpha = 0%R).
Proof.
  intros Hok. split.
  - induction steps as [|[[[g cg] e] d] steps IH]; simpl; [done|].
    destruct (Hok g cg e d ltac:(left)) as [Hg Hcg].
    destruct (update_step_zero_rate stores g cg e d Hg Hcg) as [Hst _].
    destruct (update_step _ _ _ _ _ _) as [st [alpha|ex]]; simpl in *; subst st;
      [|done].
    apply IH. intros g' cg' e' d' Hin. apply (Hok g' cg' e' d'). by right.
  - intros g cg e d Hin. destruct (Hok g cg e d Hin) as [Hg Hcg].
    by apply update_step_zero_rate.
Qed.

Lemma scalars_ok_empty gradients : scalars_ok ∅ gradients.
Proof. intros k p Hk. by rewrite lookup_empty in Hk. Qed.

Lemma scalars_ok_insert k p parameters gradients :
  (shape p = [] → length (data p) = 1 ∧
     ∀ g, gradients !! ("d" +:+ k) = Some g → shape g = []) →
  scalars_ok parameters gradients →
  scalars_ok (<[k := p]> parameters) gradients.
Proof.
  intros Hp Hok k' p' Hk' Hs.
  apply lookup_insert_Some in Hk' as [[<- <-]|[_ Hk']]; [by apply Hp|].
  by apply Hok.
Qed.

Lemma update_ex_scalars_ok :
  scalars_ok update_ex_parameters update_ex_gradients ∧
  scalars_ok update_ex_convParameters update_ex_convGradients.
Proof.
  split.
  - unfold update_ex_parameters.
    apply scalars_ok_insert; [intros [=]|].
    apply scalars_ok_insert; [intros [=]|]. apply scalars_ok_empty.
  - unfold update_ex_convParameters, filter_bank_store, range.
    cbn [seq foldr].
    repeat (apply scalars_ok_insert; [intros Hs; try discriminate Hs|]);
      try exact (scalars_ok_empty _).
    all: split; [done|]; intros g Hg.
    all: change (Some (nd_scalar 8%R) = Some g) in Hg; by injection Hg as <-.
Qed.

Lemma update_ex_gradients_complete :
  gradients_complete (update_ex_parameters, update_ex_convParameters)
                     update_ex_gradients update_ex_convGradients.
Proof.
  split; cbn [fst snd].
  - change (size update_ex_parameters / 2) with 1.
    intros l Hl. assert (l = 1) as -> by lia.
    split; eexists _, _; split_and!; reflexivity.
  - intros i Hi.
    do 5 (destruct i as [|i];
          [split; eexists _, _; split_and!; reflexivity|]).
    lia.
Qed.

(** On a complete store the update with rate 0 runs to the end. *)
Example update_step_example :
  update_step (update_ex_parameters, update_ex_convParameters)
              update_ex_gradients update_ex_convGradients 1 0 0.003
  = ((update_ex_parameters, update_ex_convParameters), Ok 0%R).
Proof.
  apply update_step_zero_rate_returns;
    [apply update_ex_scalars_ok.. | apply update_ex_gradients_complete | lra].
Qed.

Lemma zero_learning_rate_leaves_parameters_unchanged_witness :
  (update_steps (update_ex_parameters, update_ex_convParameters)
     update_ex_steps 0).1
  = (update_ex_parameters, update_ex_convParameters) ∧
  (∀ gradients convGradients epoch decay_rate,
     (gradients, convGradients, epoch, decay_rate) ∈ update_ex_steps →
     (update_step (update_ex_parameters, update_ex_convParameters)
        gradients convGradients epoch 0 decay_rate).1
     = (update_ex_parameters, update_ex_convParameters) ∧
     ∀ alpha,
       (update_step (update_ex_parameters, update_ex_convParameters)
          gradients convGradients epoch 0 decay_rate).2
       = Ok alpha → alpha = 0%R).
Proof.
  apply (zero_learning_rate_leaves_parameters_unchanged
           (update_ex_parameters, update_ex_convParameters) update_ex_steps).
  intros g cg e d Hin. apply list_elem_of_In in Hin. simpl in Hin.
  destruct Hin as [[= <- <- <- <-]|[[= <- <- <- <-]|[]]];
    exact update_ex_scalars_ok.
Defined.

(** The update with rate 0 and a 3x3 array as the gradient of the scalar
    bias ["convb1"] runs to the end and returns the rate 0, and ["convb1"]
    is then bound to a 3x3 array: on a Python float,
    [convb1 -= 0 * dconvb1] rebinds the name to the broadcast difference. *)
Lemma update_ex_array_rebinds_bias :
  ∃ stores',
    update_step (update_ex_parameters, update_ex_convParameters)
      update_ex_gradients update_ex_convGradients_array 0 0 0.003
    = (stores', Ok 0%R) ∧
    shape <$> stores'.2 !! "convb1" = Some [3; 3] ∧
    shape <$> update_ex_convParameters !! "convb1" = Some [].
Proof.
  unfold update_step, update_parameters, py_div.
  rewrite decide_False by lra. cbn zeta. rewrite Rmult_0_l.
  eexists. split; [reflexivity|]. split; reflexivity.
Qed.

(** C7 as stated fails.  The store of the example holds the convolution
    biases as Python floats; with a 3x3 array as the gradient of ["convb1"]
    one update at rate 0 leaves ["convb1"] bound to a 3x3 array, so the
    store is not what it was. *)
Lemma scalar_bias_with_array_gradient_is_rebound :
  ¬ zero_rate_leaves_stores_unchanged
      (update_ex_parameters, update_ex_convParameters) update_ex_steps_array.
Proof.
  unfold zero_rate_leaves_stores_unchanged, update_ex_steps_array.
  cbn [update_steps].
  destruct update_ex_array_rebinds_bias as (stores' & -> & Hs & Hs0).
  cbn [fst]. intros ->. cbn [snd] in Hs. congruence.
Qed.

(** ** Convolution / pooling engine *)

(** *** The numpy and scipy operations *)

Lemma np_reshape_spec {A} `{Inhabited A} (a : ndarray A) sh sh' :
  has_shape a sh → size_of sh' = size_of sh →
  returns (np_reshape a sh') (λ r, has_shape r sh' ∧
    ∀ idx idx', ravel sh' idx' = ravel sh idx → nd_get r idx' = nd_get a idx).
Proof.
  intros [Hs Hl] Hsz. unfold np_reshape, nd_size.
  rewrite Hs, decide_True by done. apply returns_ok. split.
  - split; [done|]. simpl. congruence.
  - intros idx idx' Hr. unfold nd_get. simpl. by rewrite Hs, Hr.
Qed.

Lemma np_slice_last_spec {A} `{Inhabited A} (X : ndarray A) h w m j :
  has_shape X [h; w; m] → j < m →
  returns (np_slice_last X j) (λ r, is_matrix r h w ∧
    ∀ u v, u < h → v < w → nd_get r [u; v] = nd_get X [u; v; j]).
Proof.
  intros [Hs _] Hj. unfold np_slice_last. rewrite Hs, decide_True by done.
  apply returns_ok. split; [apply has_shape_build|].
  intros u v Hu Hv. by rewrite nd_get_build2.
Qed.

Lemma np_slice_last2_spec {A} `{Inhabited A} (a : ndarray A) h w p q i j :
  has_shape a [h; w; p; q] → i < p → j < q →
  returns (np_slice_last2 a i j) (λ r, is_matrix r h w ∧
    ∀ u v, u < h → v < w → nd_get r [u; v] = nd_get a [u; v; i; j]).
Proof.
  intros [Hs _] Hi Hj. unfold np_slice_last2. rewrite Hs, decide_True by done.
  apply returns_ok. split; [apply has_shape_build|].
  intros u v Hu Hv. by rewrite nd_get_build2.
Qed.

Lemma convolve2d_valid_spec (in1 in2 : ndarray R) h w kh kw :
  is_matrix in1 h w → is_matrix in2 kh kw → 1 ≤ kh ≤ h → 1 ≤ kw ≤ w →
  returns (convolve2d_valid in1 in2) (λ r,
    is_matrix r (h - kh + 1) (w - kw + 1) ∧
    ∀ u v, u < h - kh + 1 → v < w - kw + 1 →
      nd_get r [u; v]
      = rsum kh (λ a, rsum kw (λ b,
          Rmult (nd_get in2 [a; b])
                (nd_get in1 [u + (kh - 1) - a; v + (kw - 1) - b])))).
Proof.
  intros [Hs1 _] [Hs2 _] Hkh Hkw. unfold convolve2d_valid.
  rewrite Hs1, Hs2, decide_True by done.
  apply returns_ok. split; [apply has_shape_build|].
  intros u v Hu Hv. by rewrite nd_get_build2.
Qed.

Lemma np_repeat2_axis0_spec {A} `{Inhabited A} (z : ndarray A) h w :
  is_matrix z h w →
  returns (np_repeat2_axis0 z) (λ r, is_matrix r (2 * h) w ∧
    ∀ u v, u < 2 * h → v < w → nd_get r [u; v] = nd_get z [u / 2; v]).
Proof.
  intros [Hs _]. unfold np_repeat2_axis0. rewrite Hs.
  apply returns_ok. split; [apply has_shape_build|].
  intros u v Hu Hv. by rewrite nd_get_build2.
Qed.

Lemma np_repeat2_axis1_spec {A} `{Inhabited A} (z : ndarray A) h w :
  is_matrix z h w →
  returns (np_repeat2_axis1 z) (λ r, is_matrix r h (2 * w) ∧
    ∀ u v, u < h → v < 2 * w → nd_get r [u; v] = nd_get z [u; v / 2]).
Proof.
  intros [Hs _]. unfold np_repeat2_axis1. rewrite Hs.
  apply returns_ok. split; [apply has_shape_build|].
  intros u v Hu Hv. by rewrite nd_get_build2.
Qed.

Lemma np_trim1_spec {A} `{Inhabited A} (z : ndarray A) h w :
  is_matrix z h w →
  returns (np_trim1 z) (λ r, is_matrix r (h - 2) (w - 2) ∧
    ∀ u v, u < h - 2 → v < w - 2 → nd_get r [u; v] = nd_get z [u + 1; v + 1]).
Proof.
  intros [Hs _]. unfold np_trim1. rewrite Hs.
  apply returns_ok. split; [apply has_shape_build|].
  intros u v Hu Hv. by rewrite nd_get_build2.
Qed.

Lemma np_max_axes13_spec (z : ndarray R) a b c d :
  has_shape z [a; b; c; d] → b ≠ 0 → d ≠ 0 →
  returns (np_max_axes13 z) (λ r, is_matrix r a c ∧
    ∀ u v, u < a → v < c →
      nd_get r [u; v]
      = rmax_upto b (λ p, rmax_upto d (λ q, nd_get z [u; p; v; q]))).
Proof.
  intros [Hs _] Hb Hd. unfold np_max_axes13. rewrite Hs, decide_False by lia.
  apply returns_ok. split; [apply has_shape_build|].
  intros u v Hu Hv. by rewrite nd_get_build2.
Qed.

Lemma np_sum_axes13_spec (z : ndarray R) a b c d :
  has_shape z [a; b; c; d] →
  returns (np_sum_axes13 z) (λ r, is_matrix r a c ∧
    ∀ u v, u < a → v < c →
      nd_get r [u; v]
      = rsum b (λ p, rsum d (λ q, nd_get z [u; p; v; q]))).
Proof.
  intros [Hs _]. unfold np_sum_axes13. rewrite Hs.
  apply returns_ok. split; [apply has_shape_build|].
  intros u v Hu Hv. by rewrite nd_get_build2.
Qed.

Lemma np_sum_axis2_spec (z : ndarray R) a b c :
  has_shape z [a; b; c] →
  returns (np_sum_axis2 z) (λ r, is_matrix r a b ∧
    ∀ u v, u < a → v < b →
      nd_get r [u; v] = rsum c (λ t, nd_get z [u; v; t])).
Proof.
  intros [Hs _]. unfold np_sum_axis2. rewrite Hs.
  apply returns_ok. split; [apply has_shape_build|].
  intros u v Hu Hv. by rewrite nd_get_build2.
Qed.

Lemma np_pad1_spec (d : ndarray R) h w :
  is_matrix d h w →
  returns (np_pad1 d) (λ r, is_matrix r (h + 2) (w + 2) ∧
    ∀ u v, u < h + 2 → v < w + 2 →
      nd_get r [u; v]
      = if decide (1 ≤ u ≤ h ∧ 1 ≤ v ≤ w) then nd_get d [u - 1; v - 1]
        else 0%R).
Proof.
  intros [Hs _]. unfold np_pad1. rewrite Hs.
  apply returns_ok. split; [apply has_shape_build|].
  intros u v Hu Hv. by rewrite nd_get_build2.
Qed.

Lemma np_col_slice_spec (Z : ndarray R) n m lo hi j :
  is_matrix Z n m → j < m → lo ≤ hi → hi ≤ n →
  returns (np_col_slice Z lo hi j) (λ r, has_shape r [hi - lo] ∧
    ∀ k, k < hi - lo → nd_get r [k] = nd_get Z [lo + k; j]).
Proof.
  intros [Hs _] Hj Hlo Hhi. unfold np_col_slice. rewrite Hs, decide_True by done.
  rewrite !Nat.min_l by lia.
  apply returns_ok. split; [apply has_shape_build|].
  intros k Hk. by rewrite nd_get_build1.
Qed.

Lemma np_set_col_slice_spec (Z v : ndarray R) n m lo hi j :
  is_matrix Z n m → j < m → lo ≤ hi → hi ≤ n → has_shape v [hi - lo] →
  returns (np_set_col_slice Z lo hi j v) (λ r, is_matrix r n m ∧
    ∀ k s, k < n → s < m →
      nd_get r [k; s]
      = if decide (lo ≤ k < hi ∧ s = j) then nd_get v [k - lo]
        else nd_get Z [k; s]).
Proof.
  intros HZ Hj Hlo Hhi [Hvs Hvl]. pose proof HZ as [Hs _].
  unfold np_set_col_slice. rewrite Hs, decide_True by done.
  rewrite !Nat.min_l by lia. rewrite Hvs, broadcast_shapes_same. simpl.
  rewrite decide_True by done.
  apply returns_ok. split; [by apply has_shape_update|].
  intros k s Hk Hs'. rewrite (nd_get_update _ _ [n; m]) by (done || by apply in_bounds2).
  simpl. case_decide as Hc; [|done].
  rewrite bcast_idx_same; [done|]. apply in_bounds1. lia.
Qed.

Lemma np_set_slice_last2_spec (masks : ndarray int) (e : ndarray bool)
    h w p q i j :
  has_shape masks [h; w; p; q] → i < p → j < q → is_matrix e h w →
  returns (np_set_slice_last2 masks i j e) (λ r, has_shape r [h; w; p; q] ∧
    ∀ u v i' j', u < h → v < w → i' < p → j' < q →
      nd_get r [u; v; i'; j']
      = if decide (i' = i ∧ j' = j)
        then (if nd_get e [u; v] then 1%Z else 0%Z)
        else nd_get masks [u; v; i'; j']).
Proof.
  intros Hm Hi Hj [Hes Hel]. pose proof Hm as [Hs _].
  unfold np_set_slice_last2. rewrite Hs, decide_True by done.
  rewrite Hes, broadcast_shapes_same. simpl. rewrite decide_True by done.
  apply returns_ok. split; [by apply has_shape_update|].
  intros u v i' j' Hu Hv Hi' Hj'.
  rewrite (nd_get_update _ _ [h; w; p; q]) by (done || by apply in_bounds4).
  simpl. case_decide as Hc; [|done].
  by rewrite bcast_idx_same by by apply in_bounds2.
Qed.

Lemma np_row_slice_spec (dA : ndarray R) n m lo hi :
  is_matrix dA n m → lo ≤ hi → hi ≤ n →
  returns (np_row_slice dA lo hi) (λ r, is_matrix r (hi - lo) m ∧
    ∀ k s, k < hi - lo → s < m → nd_get r [k; s] = nd_get dA [lo + k; s]).
Proof.
  intros [Hs _] Hlo Hhi. unfold np_row_slice. rewrite Hs.
  rewrite !Nat.min_l by lia.
  apply returns_ok. split; [apply has_shape_build|].
  intros k s Hk Hs'. by rewrite nd_get_build2.
Qed.

Lemma np_patch3_spec (A : ndarray R) h w m x y :
  has_shape A [h; w; m] → x + 3 ≤ h → y + 3 ≤ w →
  returns (np_patch3 A x y) (λ r, has_shape r [3; 3; m] ∧
    ∀ a b s, a < 3 → b < 3 → s < m →
      nd_get r [a; b; s] = nd_get A [x + a; y + b; s]).
Proof.
  intros [Hs _] Hx Hy. unfold np_patch3. rewrite Hs.
  rewrite !Nat.min_l by lia.
  replace (x + 3 - x) with 3 by lia. replace (y + 3 - y) with 3 by lia.
  apply returns_ok. split; [apply has_shape_build|].
  intros a b s Ha Hb Hs'. by rewrite nd_get_build3.
Qed.

(** A (3, 3, m) array times an (m) array: the vector is repeated along
    the first two axes. *)
Lemma np_binop_patch_vec (f : R → R → R) (a b : ndarray R) m :
  has_shape a [3; 3; m] → has_shape b [m] →
  returns (np_binop f a b) (λ r, has_shape r [3; 3; m] ∧
    ∀ u v s, u < 3 → v < 3 → s < m →
      nd_get r [u; v; s] = f (nd_get a [u; v; s]) (nd_get b [s])).
Proof.
  intros [Ha ?] [Hb ?]. unfold np_binop. rewrite Ha, Hb.
  assert (broadcast_shapes [3; 3; m] [m] = Ok [3; 3; m]) as ->.
  { unfold broadcast_shapes. cbn. by rewrite decide_True. }
  simpl. apply returns_ok. split; [apply has_shape_build|].
  intros u v s Hu Hv Hs. rewrite nd_get_build by by apply in_bounds3.
  rewrite bcast_idx_same by by apply in_bounds3.
  do 2 f_equal. unfold bcast_idx. cbn. case_decide; [f_equal; lia|done].
Qed.

Lemma rmax_upto_2 f : rmax_upto 2 f = Rmax (f 0) (f 1).
Proof. done. Qed.

Lemma window_max_is_max z r c : is_max_of (window_max z r c) (window z r c).
Proof.
  unfold is_max_of, window_max, window. split.
  - unfold Rmax. repeat destruct (Rle_dec _ _);
      rewrite !elem_of_cons; auto.
  - intros y Hy. rewrite !elem_of_cons, elem_of_nil in Hy.
    unfold Rmax. repeat destruct (Rle_dec _ _);
      destruct Hy as [->|[->|[->|[->|[]]]]]; lra.
Qed.

(** *** One sample through one filter *)

Lemma half_succ_double r p : p < 2 → (2 * r + p + 1) / 2 = r + p.
Proof.
  intros Hp. destruct p as [|[|?]]; [| |lia].
  - replace (2 * r + 0 + 1) with (1 + r * 2) by lia.
    rewrite Nat.div_add by done. simpl. lia.
  - replace (2 * r + 1 + 1) with (0 + (r + 1) * 2) by lia.
    rewrite Nat.div_add by done. simpl. lia.
Qed.

Lemma half_double r p : p < 2 → (2 * r + p) / 2 = r.
Proof.
  intros Hp. replace (2 * r + p) with (p + r * 2) by lia.
  rewrite Nat.div_add by done. rewrite Nat.div_small by done. lia.
Qed.

Lemma conv_forward_sample_spec (X W b : ndarray R) (masks : ndarray int)
    (Z : ndarray R) (m i j : nat) :
  has_shape X [28; 28; m] → is_matrix W 3 3 → has_shape b [] →
  i < 5 → j < m →
  has_shape masks [50; 50; 5; m] → is_matrix Z 3125 m →
  returns (conv_forward_sample X W b i j (masks, Z)) (λ '(masks', Z'),
    has_shape masks' [50; 50; 5; m] ∧ is_matrix Z' 3125 m ∧
    (∀ k s, k < 3125 → s < m →
       nd_get Z' [k; s]
       = if decide (625 * i ≤ k < 625 * i + 625 ∧ s = j)
         then window_max (conv_entry X W b j)
                ((k - 625 * i) / 25) ((k - 625 * i) mod 25)
         else nd_get Z [k; s]) ∧
    (∀ u v i' j', u < 50 → v < 50 → i' < 5 → j' < m →
       nd_get masks' [u; v; i'; j']
       = if decide (i' = i ∧ j' = j)
         then mask_entry (conv_entry X W b j) u v
         else nd_get masks [u; v; i'; j'])).
Proof.
  intros HX HW Hb Hi Hj Hmasks HZ. unfold conv_forward_sample.
  eapply returns_bind; [by eapply np_slice_last_spec|].
  intros Xj [HXj HXj_get].
  eapply returns_bind; [eapply convolve2d_valid_spec; [done|done|lia|lia]|].
  change (28 - 3 + 1) with 26. change (3 - 1) with 2.
  intros z1 [Hz1 Hz1_get].
  eapply returns_bind; [by eapply np_binop_scalar_r|].
  intros z2 [Hz2 Hz2_get].
  assert (Hz2_entry : ∀ u v, u < 26 → v < 26 →
            nd_get z2 [u; v] = conv_entry X W b j u v).
  { intros u v Hu Hv. rewrite Hz2_get by by apply in_bounds2.
    rewrite Hz1_get by done. unfold conv_entry, np_float. f_equal.
    apply rsum_ext. intros a Ha. apply rsum_ext. intros b' Hb'.
    rewrite HXj_get by lia. done. }
  clear Hz2_get Hz1_get HXj_get.
  eapply returns_bind; [by eapply np_repeat2_axis0_spec|].
  change (2 * 26) with 52.
  intros z3 [Hz3 Hz3_get].
  eapply returns_bind; [by eapply np_repeat2_axis1_spec|].
  change (2 * 26) with 52.
  intros z4 [Hz4 Hz4_get].
  eapply returns_bind; [by eapply np_trim1_spec|].
  change (52 - 2) with 50.
  intros z_prev [Hzp Hzp_get].
  assert (Hzp_entry : ∀ u v, u < 50 → v < 50 →
            nd_get z_prev [u; v]
            = conv_entry X W b j ((u + 1) / 2) ((v + 1) / 2)).
  { intros u v Hu Hv.
    assert ((u + 1) / 2 < 26) by (apply Nat.Div0.div_lt_upper_bound; lia).
    assert ((v + 1) / 2 < 26) by (apply Nat.Div0.div_lt_upper_bound; lia).
    rewrite Hzp_get, Hz4_get, Hz3_get by lia. by apply Hz2_entry. }
  clear Hzp_get Hz4_get Hz3_get.
  eapply returns_bind; [by eapply (np_reshape_spec z_prev [50; 50])|].
  intros z6 [Hz6 Hz6_get].
  eapply returns_bind; [by eapply np_max_axes13_spec|].
  intros z7 [Hz7 Hz7_get].
  assert (Hz7_entry : ∀ r c, r < 25 → c < 25 →
            nd_get z7 [r; c] = window_max (conv_entry X W b j) r c).
  { intros r c Hr Hc. rewrite Hz7_get by done.
    rewrite !rmax_upto_2. unfold window_max.
    rewrite (Hz6_get [2 * r + 0; 2 * c + 0]) by (cbn [ravel size_of foldr]; lia).
    rewrite (Hz6_get [2 * r + 0; 2 * c + 1]) by (cbn [ravel size_of foldr]; lia).
    rewrite (Hz6_get [2 * r + 1; 2 * c + 0]) by (cbn [ravel size_of foldr]; lia).
    rewrite (Hz6_get [2 * r + 1; 2 * c + 1]) by (cbn [ravel size_of foldr]; lia).
    rewrite !Hzp_entry by lia.
    rewrite !half_succ_double by lia.
    by rewrite !Nat.add_0_r. }
  clear Hz7_get Hz6_get.
  eapply returns_bind; [by eapply (np_reshape_spec z7 [25; 25])|].
  intros zflat [Hzf Hzf_get].
  eapply returns_bind.
  { eapply (np_set_col_slice_spec Z zflat 3125 m (25 * 25 * i) (25 * 25 * (i + 1)) j);
      [done | done | lia | lia |].
    replace (25 * 25 * (i + 1) - 25 * 25 * i) with (25 * 25) by lia. done. }
  intros Z' [HZ' HZ'_get].
  eapply returns_bind; [by eapply (np_reshape_spec z7 [25; 25])|].
  intros _ _.
  eapply returns_bind; [by eapply np_repeat2_axis0_spec|].
  change (2 * 25) with 50.
  intros z8 [Hz8 Hz8_get].
  eapply returns_bind; [by eapply np_repeat2_axis1_spec|].
  change (2 * 25) with 50.
  intros z9 [Hz9 Hz9_get].
  eapply returns_bind; [by eapply (np_binop_same _ z_prev z9 [50; 50])|].
  intros e [He He_get].
  eapply returns_bind; [by eapply np_set_slice_last2_spec|].
  intros masks' [Hmasks' Hmasks'_get].
  apply returns_ok. split_and!; [done..| |].
  - intros k s Hk Hs. rewrite HZ'_get by done.
    destruct (decide (25 * 25 * i ≤ k < 25 * 25 * (i + 1) ∧ s = j)) as [[Hk' ->]|Hn].
    + rewrite decide_True by lia.
      set (k' := k - 625 * i).
      assert (Hk'' : k' < 625) by (unfold k'; lia).
      replace (k - 25 * 25 * i) with k' by (unfold k'; lia).
      rewrite (Hzf_get [k' / 25; k' mod 25]).
      2:{ cbn [ravel size_of foldr]. pose proof (Nat.div_mod_eq k' 25). lia. }
      apply Hz7_entry.
      * apply Nat.Div0.div_lt_upper_bound. lia.
      * apply Nat.mod_upper_bound. lia.
    + rewrite decide_False by lia. done.
  - intros u v i' j' Hu Hv Hi' Hj'. rewrite Hmasks'_get by done.
    case_decide; [|done].
    rewrite He_get by by apply in_bounds2.
    assert (u / 2 < 25) by (apply Nat.Div0.div_lt_upper_bound; lia).
    assert (v / 2 < 25) by (apply Nat.Div0.div_lt_upper_bound; lia).
    rewrite Hzp_entry, Hz9_get, Hz8_get by done.
    by rewrite Hz7_entry.
Qed.

(** *** The loops of [conv_forward] *)

Lemma for_each_seq_inv {S} (body : nat → S → result S) (P : nat → S → Prop)
    start len s :
  P start s →
  (∀ k s, start ≤ k < start + len → P k s → returns (body k s) (P (Datatypes.S k))) →
  returns (for_each (seq start len) body s) (P (start + len)).
Proof.
  revert start s. induction len as [|len IH]; intros start s Hs Hbody; simpl.
  - rewrite Nat.add_0_r. by apply returns_ok.
  - eapply returns_bind; [apply Hbody; [lia|done]|].
    intros s' Hs'. replace (start + Datatypes.S len) with (Datatypes.S start + len) by lia.
    apply IH; [done|]. intros k t Hk. apply Hbody. lia.
Qed.

Lemma for_each_range_inv {S} (body : nat → S → result S) (P : nat → S → Prop)
    n s :
  P 0 s →
  (∀ k s, k < n → P k s → returns (body k s) (P (Datatypes.S k))) →
  returns (for_each (range n) body s) (P n).
Proof.
  intros Hs Hbody. apply (for_each_seq_inv body P 0 n s Hs).
  intros k t Hk. apply Hbody. lia.
Qed.

(** All samples through filter [i]. *)
Lemma conv_forward_filter_spec (X W b : ndarray R) (masks : ndarray int)
    (Z : ndarray R) (m i : nat) :
  has_shape X [28; 28; m] → is_matrix W 3 3 → has_shape b [] → i < 5 →
  has_shape masks [50; 50; 5; m] → is_matrix Z 3125 m →
  returns (for_each (range m) (conv_forward_sample X W b i) (masks, Z))
    (λ '(masks', Z'),
    has_shape masks' [50; 50; 5; m] ∧ is_matrix Z' 3125 m ∧
    (∀ k s, k < 3125 → s < m →
       nd_get Z' [k; s]
       = if decide (625 * i ≤ k < 625 * i + 625)
         then window_max (conv_entry X W b s)
                ((k - 625 * i) / 25) ((k - 625 * i) mod 25)
         else nd_get Z [k; s]) ∧
    (∀ u v i' j', u < 50 → v < 50 → i' < 5 → j' < m →
       nd_get masks' [u; v; i'; j']
       = if decide (i' = i)
         then mask_entry (conv_entry X W b j') u v
         else nd_get masks [u; v; i'; j'])).
Proof.
  intros HX HW Hb Hi Hmasks HZ.
  eapply returns_weaken.
  - apply (for_each_range_inv (conv_forward_sample X W b i)
      (λ n '(masks', Z'),
         has_shape masks' [50; 50; 5; m] ∧ is_matrix Z' 3125 m ∧
         (∀ k s, k < 3125 → s < m →
            nd_get Z' [k; s]
            = if decide (625 * i ≤ k < 625 * i + 625 ∧ s < n)
              then window_max (conv_entry X W b s)
                     ((k - 625 * i) / 25) ((k - 625 * i) mod 25)
              else nd_get Z [k; s]) ∧
         (∀ u v i' j', u < 50 → v < 50 → i' < 5 → j' < m →
            nd_get masks' [u; v; i'; j']
            = if decide (i' = i ∧ j' < n)
              then mask_entry (conv_entry X W b j') u v
              else nd_get masks [u; v; i'; j']))).
    + split_and!; [done..| |].
      * intros k s Hk Hs. by rewrite decide_False by lia.
      * intros u v i' j' ????. by rewrite decide_False by lia.
    + intros j [masks1 Z1] Hj (Hm1 & HZ1 & HZ1_get & Hm1_get).
      eapply returns_weaken;
        [by apply (conv_forward_sample_spec X W b masks1 Z1 m i j)|].
      intros [masks2 Z2] (Hm2 & HZ2 & HZ2_get & Hm2_get).
      split_and!; [done..| |].
      * intros k s Hk Hs. rewrite HZ2_get, HZ1_get by done.
        repeat case_decide; try done; try lia.
        destruct_and?. by subst.
      * intros u v i' j' ????. rewrite Hm2_get, Hm1_get by done.
        repeat case_decide; try done; try lia.
        destruct_and?. by subst.
  - intros [masks' Z'] (Hm' & HZ' & HZ'_get & Hm'_get).
    split_and!; [done..| |].
    + intros k s Hk Hs. rewrite HZ'_get by done.
      repeat case_decide; try done; lia.
    + intros u v i' j' ????. rewrite Hm'_get by done.
      repeat case_decide; try done; lia.
Qed.

Lemma conv_key_ne_A (s : string) (n : nat) :
  s = "convW" ∨ s = "convb" → s +:+ str n ≠ "A".
Proof. by intros [->| ->]. Qed.

Lemma conv_forward_spec (X : ndarray R) (parameters : cache_t)
    (W b : nat → ndarray R) (m : nat) :
  has_shape X [28; 28; m] → is_filter_bank parameters W b →
  returns (conv_forward X parameters) (λ '(Z, cache),
    is_matrix Z 3125 m ∧
    (∀ i j r c, i < 5 → j < m → r < 25 → c < 25 →
       nd_get Z [625 * i + 25 * r + c; j]
       = window_max (conv_entry X (W i) (b i) j) r c) ∧
    conv_floats cache !! "A" = Some X ∧
    ∃ masks, conv_ints cache !! "masks" = Some masks ∧
      has_shape masks [50; 50; 5; m] ∧
      ∀ u v i j, u < 50 → v < 50 → i < 5 → j < m →
        nd_get masks [u; v; i; j]
        = mask_entry (conv_entry X (W i) (b i) j) u v).
Proof.
  intros HX Hbank. unfold conv_forward.
  assert (shape_at X 2 = Ok m) as ->
    by (unfold shape_at; destruct HX as [-> _]; done).
  cbn [mbind result_bind].
  eapply returns_bind.
  - apply (for_each_range_inv _
      (λ n '(cache, masks, Z),
         conv_floats cache !! "A" = Some X ∧
         has_shape masks [50; 50; 5; m] ∧ is_matrix Z 3125 m ∧
         (∀ k s, k < 625 * n → s < m →
            nd_get Z [k; s]
            = window_max (conv_entry X (W (k / 625)) (b (k / 625)) s)
                ((k mod 625) / 25) ((k mod 625) mod 25)) ∧
         (∀ u v i j, u < 50 → v < 50 → i < n → j < m →
            nd_get masks [u; v; i; j]
            = mask_entry (conv_entry X (W i) (b i) j) u v))).
    + split_and!.
      * apply lookup_insert_eq.
      * apply has_shape_build.
      * apply (has_shape_build [25 * 25 * 5; m]).
      * intros k s Hk. lia.
      * intros u v i j _ _ Hi. lia.
    + intros i [[cache masks] Z] Hi (HcA & Hmasks & HZ & HZ_get & Hm_get).
      destruct (Hbank i Hi) as (HWi & Hbi & HWs & Hbs).
      rewrite (dict_get_Some _ _ _ HWi), (dict_get_Some _ _ _ Hbi).
      cbn [mbind result_bind].
      eapply returns_bind;
        [by apply (conv_forward_filter_spec X (W i) (b i) masks Z m i)|].
      intros [masks' Z'] (Hm' & HZ' & HZ'_get & Hm'_get).
      apply returns_ok. split_and!; [|done|done| |].
      * simpl. rewrite !lookup_insert_ne by (apply conv_key_ne_A; auto). done.
      * intros k s Hk Hs. rewrite HZ'_get by lia.
        case_decide as Hc.
        -- replace (k / 625) with i.
           2:{ apply Nat.div_unique with (k - 625 * i); lia. }
           replace (k mod 625) with (k - 625 * i).
           2:{ apply Nat.mod_unique with i; lia. }
           done.
        -- apply HZ_get; lia.
      * intros u v i' j Hu Hv Hi' Hj. rewrite Hm'_get by (done || lia).
        case_decide as Hc; [by subst|]. apply Hm_get; lia.
  - intros [[cache masks] Z] (HcA & Hmasks & HZ & HZ_get & Hm_get).
    apply returns_ok. split_and!; [done| | |].
    + intros i j r c Hi Hj Hr Hc. rewrite HZ_get by lia.
      replace ((625 * i + 25 * r + c) / 625) with i.
      2:{ apply Nat.div_unique with (25 * r + c); lia. }
      replace ((625 * i + 25 * r + c) mod 625) with (25 * r + c).
      2:{ apply Nat.mod_unique with i; lia. }
      replace ((25 * r + c) / 25) with r.
      2:{ apply Nat.div_unique with c; lia. }
      replace ((25 * r + c) mod 25) with c.
      2:{ apply Nat.mod_unique with r; lia. }
      done.
    + simpl. by rewrite lookup_delete_ne.
    + exists masks. split_and!; [apply lookup_insert_eq | done | done].
Qed.

Lemma filter_bank_store_ok (W b : nat → ndarray R) :
  (∀ i, i < 5 → has_shape (W i) [3; 3] ∧ has_shape (b i) []) →
  is_filter_bank (filter_bank_store W b) W b.
Proof.
  intros Hs i Hi. destruct (Hs i Hi) as [HW Hb].
  split_and!; [| |done|done];
    do 5 (destruct i as [|i]; [reflexivity|]); lia.
Qed.

(** C1.  For an input batch of shape 28x28xm and a bank of five 3x3 filters
    with scalar biases, [conv_forward] returns [Z] of shape (3125, m) such
    that, for filter [i] (0-based, the filter under the key
    ["convW" + str(i+1)]) and sample [j], row [625*i + 25*r + c] of column
    [j] is the maximum over the stride-1 2x2 window at (r, c) of the 26x26
    valid convolution of [X[:,:,j]] with the filter, plus its bias. *)
Theorem conv_forward_is_max_pooled_valid_convolution (X : ndarray R)
    (parameters : cache_t) (W b : nat → ndarray R) (m : nat) :
  has_shape X [28; 28; m] → is_filter_bank parameters W b →
  returns (conv_forward X parameters) (λ '(Z, cache),
    is_matrix Z 3125 m ∧
    ∀ i j r c, i < 5 → j < m → r < 25 → c < 25 →
      nd_get Z [625 * i + 25 * r + c; j]
        = window_max (conv_entry X (W i) (b i) j) r c ∧
      is_max_of (nd_get Z [625 * i + 25 * r + c; j])
                (window (conv_entry X (W i) (b i) j) r c)).
Proof.
  intros HX Hbank.
  eapply returns_weaken; [by apply (conv_forward_spec X parameters W b m)|].
  intros [Z cache] (HZ & HZ_get & _). split; [done|].
  intros i j r c Hi Hj Hr Hc. rewrite HZ_get by done.
  split; [done | apply window_max_is_max].
Qed.

Lemma conv_forward_is_max_pooled_valid_convolution_witness :
  returns (conv_forward conv_ex_X conv_ex_parameters) (λ '(Z, cache),
    is_matrix Z 3125 1 ∧
    ∀ i j r c, i < 5 → j < 1 → r < 25 → c < 25 →
      nd_get Z [625 * i + 25 * r + c; j]
        = window_max
            (conv_entry conv_ex_X (np_zeros [3; 3]) (nd_scalar 0%R) j) r c ∧
      is_max_of (nd_get Z [625 * i + 25 * r + c; j])
        (window (conv_entry conv_ex_X (np_zeros [3; 3]) (nd_scalar 0%R) j) r c)).
Proof.
  apply (conv_forward_is_max_pooled_valid_convolution conv_ex_X
           conv_ex_parameters (λ _, np_zeros [3; 3]) (λ _, nd_scalar 0%R) 1).
  - apply has_shape_build.
  - apply filter_bank_store_ok. intros i _. split; [apply has_shape_build|done].
Defined.

(** *** Pooling masks and gradient routing *)

Lemma conv_backward_route_spec (dA : ndarray R) (masks : ndarray int) m i j :
  is_matrix dA 3125 m → has_shape masks [50; 50; 5; m] → i < m → j < 5 →
  returns (conv_backward_route dA masks i j) (λ d, is_matrix d 50 50 ∧
    ∀ u v, u < 50 → v < 50 →
      nd_get d [u; v]
      = Rmult (nd_get dA [625 * j + 25 * (u / 2) + v / 2; i])
              (IZR (nd_get masks [u; v; j; i]))).
Proof.
  intros HdA Hmasks Hi Hj. unfold conv_backward_route.
  eapply returns_bind; [by eapply np_slice_last2_spec|].
  intros mask [Hmask Hmask_get].
  eapply returns_bind.
  { eapply (np_col_slice_spec dA 3125 m (j * (25 * 25)) ((j + 1) * (25 * 25)) i);
      [done | done | lia | lia]. }
  replace ((j + 1) * (25 * 25) - j * (25 * 25)) with 625 by lia.
  intros d1 [Hd1 Hd1_get].
  eapply returns_bind; [by eapply (np_reshape_spec d1 [625])|].
  intros d2 [Hd2 Hd2_get].
  eapply returns_bind; [by eapply np_repeat2_axis0_spec|].
  change (2 * 25) with 50.
  intros d3 [Hd3 Hd3_get].
  eapply returns_bind; [by eapply np_repeat2_axis1_spec|].
  change (2 * 25) with 50.
  intros d4 [Hd4 Hd4_get].
  eapply returns_weaken; [by eapply (np_binop_same _ d4 mask [50; 50])|].
  intros d [Hd Hd_get]. split; [done|].
  intros u v Hu Hv. rewrite Hd_get by by apply in_bounds2.
  assert (u / 2 < 25) by (apply Nat.Div0.div_lt_upper_bound; lia).
  assert (v / 2 < 25) by (apply Nat.Div0.div_lt_upper_bound; lia).
  rewrite Hd4_get, Hd3_get, Hmask_get by done.
  rewrite (Hd2_get [25 * (u / 2) + v / 2]) by (cbn [ravel size_of foldr]; lia).
  rewrite Hd1_get by lia.
  do 3 f_equal. lia.
Qed.

Lemma window_max_attained z r c :
  ∃ p q, p < 2 ∧ q < 2 ∧ z (r + p) (c + q) = window_max z r c.
Proof.
  destruct (window_max_is_max z r c) as [Hin _]. unfold window in Hin.
  rewrite !elem_of_cons, elem_of_nil in Hin.
  destruct Hin as [H|[H|[H|[H|[]]]]].
  - exists 0, 0. rewrite !Nat.add_0_r. auto with lia.
  - exists 0, 1. rewrite !Nat.add_0_r. auto with lia.
  - exists 1, 0. rewrite !Nat.add_0_r. auto with lia.
  - exists 1, 1. auto with lia.
Qed.

Lemma mask_entry_window z r c p q :
  p < 2 → q < 2 →
  mask_entry z (2 * r + p) (2 * c + q)
  = if bool_decide (z (r + p) (c + q) = window_max z r c) then 1%Z else 0%Z.
Proof.
  intros Hp Hq. unfold mask_entry.
  by rewrite !half_succ_double, !half_double.
Qed.

(** C10.  In the cache produced by [conv_forward], for every sample [j],
    filter [i] and pooling window (r, c), the 2x2 group of mask entries
    at (2r+p, 2c+q) is 1 exactly at the positions whose pre-pool value
    equals the window maximum and 0 elsewhere; hence some entry of the group
    is 1, and [conv_backward] routes the pooled gradient value of the
    window, unchanged, to at least one position of the group (to every
    position that holds the maximum). *)
Theorem conv_forward_masks_mark_window_maxima (X dA : ndarray R)
    (parameters : cache_t) (W b : nat → ndarray R) (m : nat) :
  has_shape X [28; 28; m] → is_filter_bank parameters W b →
  is_matrix dA 3125 m →
  returns (conv_forward X parameters) (λ '(Z, cache),
    ∃ masks, conv_ints cache !! "masks" = Some masks ∧
      has_shape masks [50; 50; 5; m] ∧
      ∀ i j r c, i < 5 → j < m → r < 25 → c < 25 →
        (∀ p q, p < 2 → q < 2 →
           (nd_get masks [2 * r + p; 2 * c + q; i; j] = 1%Z
            ↔ conv_entry X (W i) (b i) j (r + p) (c + q)
              = window_max (conv_entry X (W i) (b i) j) r c) ∧
           (nd_get masks [2 * r + p; 2 * c + q; i; j] = 0%Z ∨
            nd_get masks [2 * r + p; 2 * c + q; i; j] = 1%Z)) ∧
        (∃ p q, p < 2 ∧ q < 2 ∧
           nd_get masks [2 * r + p; 2 * c + q; i; j] = 1%Z) ∧
        returns (conv_backward_route dA masks j i) (λ d,
          is_matrix d 50 50 ∧
          (∀ p q, p < 2 → q < 2 →
             conv_entry X (W i) (b i) j (r + p) (c + q)
               = window_max (conv_entry X (W i) (b i) j) r c →
             nd_get d [2 * r + p; 2 * c + q]
               = nd_get dA [625 * i + 25 * r + c; j]) ∧
          (∃ p q, p < 2 ∧ q < 2 ∧
             nd_get d [2 * r + p; 2 * c + q]
               = nd_get dA [625 * i + 25 * r + c; j]))).
Proof.
  intros HX Hbank HdA.
  eapply returns_weaken; [by apply (conv_forward_spec X parameters W b m)|].
  intros [Z cache] (_ & _ & _ & masks & Hc & Hmasks & Hm_get).
  exists masks. split_and!; [done..|].
  intros i j r c Hi Hj Hr Hc'.
  set (z := conv_entry X (W i) (b i) j).
  assert (Hgroup : ∀ p q, p < 2 → q < 2 →
            nd_get masks [2 * r + p; 2 * c + q; i; j]
            = if bool_decide (z (r + p) (c + q) = window_max z r c)
              then 1%Z else 0%Z).
  { intros p q Hp Hq. rewrite Hm_get by lia. by apply mask_entry_window. }
  split_and!.
  - intros p q Hp Hq. rewrite Hgroup by done.
    case_bool_decide; split; [done | by left + right | done | by left + right].
  - destruct (window_max_attained z r c) as (p & q & Hp & Hq & Hmax).
    exists p, q. split_and!; [done..|].
    rewrite Hgroup by done. by rewrite bool_decide_true.
  - eapply returns_weaken; [by apply (conv_backward_route_spec dA masks m j i)|].
    intros d [Hd Hd_get].
    assert (Hd_max : ∀ p q, p < 2 → q < 2 →
              z (r + p) (c + q) = window_max z r c →
              nd_get d [2 * r + p; 2 * c + q]
              = nd_get dA [625 * i + 25 * r + c; j]).
    { intros p q Hp Hq Hmax. rewrite Hd_get by lia.
      rewrite Hgroup by done. rewrite bool_decide_true by done.
      rewrite !half_double by done. lra. }
    split_and!; [done | done |].
    destruct (window_max_attained z r c) as (p & q & Hp & Hq & Hmax).
    exists p, q. split_and!; [done..|]. by apply Hd_max.
Qed.

Lemma conv_forward_masks_mark_window_maxima_witness :
  returns (conv_forward conv_ex_X conv_ex_parameters) (λ '(Z, cache),
    ∃ masks, conv_ints cache !! "masks" = Some masks ∧
      has_shape masks [50; 50; 5; 1] ∧
      ∀ i j r c, i < 5 → j < 1 → r < 25 → c < 25 →
        (∀ p q, p < 2 → q < 2 →
           (nd_get masks [2 * r + p; 2 * c + q; i; j] = 1%Z
            ↔ conv_entry conv_ex_X (np_zeros [3; 3]) (nd_scalar 0%R) j
                (r + p) (c + q)
              = window_max
                  (conv_entry conv_ex_X (np_zeros [3; 3]) (nd_scalar 0%R) j)
                  r c) ∧
           (nd_get masks [2 * r + p; 2 * c + q; i; j] = 0%Z ∨
            nd_get masks [2 * r + p; 2 * c + q; i; j] = 1%Z)) ∧
        (∃ p q, p < 2 ∧ q < 2 ∧
           nd_get masks [2 * r + p; 2 * c + q; i; j] = 1%Z) ∧
        returns (conv_backward_route (np_zeros [3125; 1]) masks j i) (λ d,
          is_matrix d 50 50 ∧
          (∀ p q, p < 2 → q < 2 →
             conv_entry conv_ex_X (np_zeros [3; 3]) (nd_scalar 0%R) j
               (r + p) (c + q)
               = window_max
                   (conv_entry conv_ex_X (np_zeros [3; 3]) (nd_scalar 0%R) j)
                   r c →
             nd_get d [2 * r + p; 2 * c + q]
               = nd_get (np_zeros [3125; 1]) [625 * i + 25 * r + c; j]) ∧
          (∃ p q, p < 2 ∧ q < 2 ∧
             nd_get d [2 * r + p; 2 * c + q]
               = nd_get (np_zeros [3125; 1]) [625 * i + 25 * r + c; j]))).
Proof.
  apply (conv_forward_masks_mark_window_maxima conv_ex_X (np_zeros [3125; 1])
           conv_ex_parameters (λ _, np_zeros [3; 3]) (λ _, nd_scalar 0%R) 1).
  - apply has_shape_build.
  - apply filter_bank_store_ok. intros i _. split; [apply has_shape_build|done].
  - apply has_shape_build.
Defined.

(** *** The backward pass *)

Lemma conv_backward_unpool_spec (dA dA_prev : ndarray R) (masks : ndarray int)
    m i j :
  is_matrix dA 3125 m → has_shape masks [50; 50; 5; m] → i < m → j < 5 →
  is_matrix dA_prev 3380 m →
  returns (conv_backward_unpool dA masks i j dA_prev) (λ r,
    is_matrix r 3380 m ∧
    ∀ k s, k < 3380 → s < m →
      nd_get r [k; s]
      = if decide (676 * j ≤ k < 676 * j + 676 ∧ s = i)
        then unpool_entry dA masks i j ((k - 676 * j) / 26) ((k - 676 * j) mod 26)
        else nd_get dA_prev [k; s]).
Proof.
  intros HdA Hmasks Hi Hj Hprev. unfold conv_backward_unpool.
  eapply returns_bind; [by eapply conv_backward_route_spec|].
  intros d [Hd Hd_get].
  eapply returns_bind; [by eapply np_pad1_spec|].
  change (50 + 2) with 52.
  intros d1 [Hd1 Hd1_get].
  eapply returns_bind; [by eapply (np_reshape_spec d1 [52; 52])|].
  intros d2 [Hd2 Hd2_get].
  eapply returns_bind; [by eapply np_sum_axes13_spec|].
  intros s1 [Hs1 Hs1_get].
  eapply returns_bind; [by eapply (np_reshape_spec s1 [26; 26])|].
  intros s2 [Hs2 Hs2_get].
  eapply returns_weaken.
  { eapply (np_set_col_slice_spec dA_prev s2 3380 m
              (j * (26 * 26)) ((j + 1) * (26 * 26)) i); [done | done | lia | lia |].
    replace ((j + 1) * (26 * 26) - j * (26 * 26)) with (26 * 26) by lia. done. }
  intros r [Hr Hr_get]. split; [done|].
  intros k s Hk Hs. rewrite Hr_get by done.
  destruct (decide (j * (26 * 26) ≤ k < (j + 1) * (26 * 26) ∧ s = i)) as [[Hk' ->]|Hn].
  - rewrite decide_True by lia.
    set (k' := k - 676 * j).
    assert (Hk'' : k' < 676) by (unfold k'; lia).
    replace (k - j * (26 * 26)) with k' by (unfold k'; lia).
    assert (k' / 26 < 26) by (apply Nat.Div0.div_lt_upper_bound; lia).
    assert (k' mod 26 < 26) by (apply Nat.mod_upper_bound; lia).
    rewrite (Hs2_get [k' / 26; k' mod 26]).
    2:{ cbn [ravel size_of foldr]. pose proof (Nat.div_mod_eq k' 26). lia. }
    rewrite Hs1_get by done. unfold unpool_entry.
    apply rsum_ext. intros p Hp. apply rsum_ext. intros q Hq.
    rewrite (Hd2_get [2 * (k' / 26) + p; 2 * (k' mod 26) + q])
      by (cbn [ravel size_of foldr]; lia).
    rewrite Hd1_get by lia.
    case_decide; [|done]. by rewrite Hd_get by lia.
  - rewrite decide_False by lia. done.
Qed.

(** The pooling half of [conv_backward]: the whole pre-pool gradient. *)
Lemma conv_backward_unpool_all (dA : ndarray R) (masks : ndarray int) m :
  is_matrix dA 3125 m → has_shape masks [50; 50; 5; m] →
  returns (for_each (range m) (λ i dA_prev,
             for_each (range 5) (conv_backward_unpool dA masks i) dA_prev)
             (np_zeros [26 * 26 * 5; m]))
    (λ r, is_matrix r 3380 m ∧
      ∀ k s, k < 3380 → s < m →
        nd_get r [k; s]
        = unpool_entry dA masks s (k / 676)
            ((k mod 676) / 26) ((k mod 676) mod 26)).
Proof.
  intros HdA Hmasks.
  eapply returns_weaken.
  - apply (for_each_range_inv _
      (λ n r, is_matrix r 3380 m ∧
         ∀ k s, k < 3380 → s < m →
           nd_get r [k; s]
           = if decide (s < n)
             then unpool_entry dA masks s (k / 676)
                    ((k mod 676) / 26) ((k mod 676) mod 26)
             else 0%R)).
    + split; [apply (has_shape_build [26 * 26 * 5; m])|].
      intros k s Hk Hs. rewrite decide_False by lia.
      unfold np_zeros.
      by rewrite (nd_get_build [26 * 26 * 5; m]) by by apply in_bounds2.
    + intros i r0 Hi [Hr0 Hr0_get].
      eapply returns_weaken.
      * apply (for_each_range_inv (conv_backward_unpool dA masks i)
          (λ n r, is_matrix r 3380 m ∧
             ∀ k s, k < 3380 → s < m →
               nd_get r [k; s]
               = if decide (k < 676 * n ∧ s = i)
                 then unpool_entry dA masks s (k / 676)
                        ((k mod 676) / 26) ((k mod 676) mod 26)
                 else nd_get r0 [k; s])).
        -- split; [done|]. intros k s Hk Hs. by rewrite decide_False by lia.
        -- intros j r1 Hj [Hr1 Hr1_get].
           eapply returns_weaken;
             [by apply (conv_backward_unpool_spec dA r1 masks m i j)|].
           intros r2 [Hr2 Hr2_get]. split; [done|].
           intros k s Hk Hs. rewrite Hr2_get, Hr1_get by done.
           destruct (decide (676 * j ≤ k < 676 * j + 676 ∧ s = i)) as [[Hk' ->]|Hn].
           ++ rewrite decide_True by lia.
              replace (k / 676) with j by (apply Nat.div_unique with (k - 676 * j); lia).
              replace (k mod 676) with (k - 676 * j)
                by (apply Nat.mod_unique with j; lia).
              done.
           ++ repeat case_decide; try done; lia.
      * intros r1 [Hr1 Hr1_get]. split; [done|].
        intros k s Hk Hs. rewrite Hr1_get, Hr0_get by done.
        repeat case_decide; try done; lia.
  - intros r [Hr Hr_get]. split; [done|].
    intros k s Hk Hs. rewrite Hr_get by done. by rewrite decide_True.
Qed.

Lemma np_iop_same (f : R → R → R) (a b : ndarray R) sh :
  has_shape a sh → has_shape b sh → sh ≠ [] →
  returns (np_iop f a b) (λ r, has_shape r sh ∧
    ∀ idx, in_bounds sh idx → nd_get r idx = f (nd_get a idx) (nd_get b idx)).
Proof.
  intros Ha Hb Hsh. pose proof Ha as [Has _]. pose proof Hb as [Hbs _].
  unfold np_iop. rewrite Has. destruct sh as [|d sh]; [done|].
  rewrite Hbs, broadcast_shapes_same. simpl. rewrite decide_True by done.
  apply returns_ok. split; [by apply has_shape_update|].
  intros idx Hidx. rewrite (nd_get_update _ _ (d :: sh)) by done.
  by rewrite bcast_idx_same.
Qed.

Lemma np_item_row (dZ : ndarray R) n m j :
  is_matrix dZ n m → j < n →
  returns (np_item dZ (Z.of_nat j)) (λ r, has_shape r [m] ∧
    ∀ s, s < m → nd_get r [s] = nd_get dZ [j; s]).
Proof.
  intros HdZ Hj.
  eapply returns_weaken.
  - apply (np_item_spec dZ n [m] (Z.of_nat j) j); [done| |done].
    rewrite py_norm_index_nonneg by lia. by rewrite Nat2Z.id.
  - intros r [Hr Hr_get]. split; [done|].
    intros s Hs. apply Hr_get. by apply in_bounds1.
Qed.

Lemma conv_backward_dW_spec (A dZ : ndarray R) m :
  has_shape A [28; 28; m] → is_matrix dZ 676 m →
  returns (conv_backward_dW A dZ) (λ dW, is_matrix dW 3 3 ∧
    ∀ a b, a < 3 → b < 3 →
      nd_get dW [a; b]
      = rsum 676 (λ k, rsum m (λ s,
          Rmult (nd_get A [k / 26 + a; k mod 26 + b; s]) (nd_get dZ [k; s])))).
Proof.
  intros HA HdZ. unfold conv_backward_dW.
  change (26 * 26) with 676.
  apply (for_each_range_inv _
    (λ n dW, is_matrix dW 3 3 ∧
       ∀ a b, a < 3 → b < 3 →
         nd_get dW [a; b]
         = rsum n (λ k, rsum m (λ s,
             Rmult (nd_get A [k / 26 + a; k mod 26 + b; s])
                   (nd_get dZ [k; s]))))).
  - split; [apply has_shape_build|].
    intros a b Ha Hb. unfold np_zeros.
    by rewrite nd_get_build by by apply in_bounds2.
  - intros j dW Hj [HdW HdW_get].
    assert (j / 26 < 26) by (apply Nat.Div0.div_lt_upper_bound; lia).
    assert (j mod 26 < 26) by (apply Nat.mod_upper_bound; lia).
    eapply returns_bind; [eapply np_patch3_spec; [done|lia|lia]|].
    intros Aslice [HAs HAs_get].
    eapply returns_bind; [by eapply np_item_row|].
    intros dZj [HdZj HdZj_get].
    eapply returns_bind; [by eapply np_binop_patch_vec|].
    intros prod [Hprod Hprod_get].
    eapply returns_bind; [by eapply np_sum_axis2_spec|].
    intros s [Hs Hs_get].
    eapply returns_weaken; [by eapply (np_iop_same Rplus dW s [3; 3])|].
    intros dW' [HdW' HdW'_get]. split; [done|].
    intros a b Ha Hb. rewrite HdW'_get by by apply in_bounds2.
    rewrite HdW_get, Hs_get, rsum_S by done. f_equal.
    apply rsum_ext. intros t Ht.
    by rewrite Hprod_get, HAs_get, HdZj_get.
Qed.

Lemma str_inj a b : str a = str b → a = b.
Proof. unfold str. apply pretty_nat_inj. Qed.

Lemma dconvW_key_inj a b : "dconvW" +:+ str a = "dconvW" +:+ str b → a = b.
Proof. simpl. intros [= H]. by apply str_inj. Qed.

Lemma dconvb_ne_dconvW a b : "dconvb" +:+ str a ≠ "dconvW" +:+ str b.
Proof. simpl. by intros [=]. Qed.

Lemma conv_backward_spec (dA X : ndarray R) (masks : ndarray int)
    (cache : conv_cache) (parameters : cache_t) m :
  is_matrix dA 3125 m →
  conv_floats cache !! "A" = Some X → has_shape X [28; 28; m] →
  conv_ints cache !! "masks" = Some masks → has_shape masks [50; 50; 5; m] →
  returns (conv_backward dA cache parameters) (λ gradients,
    ∀ i, i < 5 →
      ∃ dconvW, gradients !! ("dconvW" +:+ str (i + 1)) = Some dconvW ∧
        is_matrix dconvW 3 3 ∧
        ∀ a b, a < 3 → b < 3 →
          nd_get dconvW [a; b]
          = patch_accumulation X (λ s, unpool_entry dA masks s i) m a b).
Proof.
  intros HdA HcA HX Hcm Hmasks. unfold conv_backward.
  rewrite (shape_at_matrix1 _ _ _ HdA). cbn [mbind result_bind].
  rewrite (dict_get_Some _ _ _ Hcm). cbn [mbind result_bind].
  eapply returns_bind; [by apply conv_backward_unpool_all|].
  intros dA_prev [Hprev Hprev_get].
  rewrite (shape_at_matrix1 _ _ _ Hprev). cbn [mbind result_bind].
  rewrite (dict_get_Some _ _ _ HcA). cbn [mbind result_bind].
  eapply returns_weaken.
  - apply (for_each_range_inv _
      (λ n (gradients : cache_t), ∀ i, i < n →
         ∃ dconvW, gradients !! ("dconvW" +:+ str (i + 1)) = Some dconvW ∧
           is_matrix dconvW 3 3 ∧
           ∀ a b, a < 3 → b < 3 →
             nd_get dconvW [a; b]
             = patch_accumulation X (λ s, unpool_entry dA masks s i) m a b)).
    + intros i Hi. lia.
    + intros n gradients Hn Hinv.
      eapply returns_bind.
      { eapply (np_row_slice_spec dA_prev 3380 m (n * (26 * 26)) ((n + 1) * (26 * 26)));
          [done | lia | lia]. }
      replace ((n + 1) * (26 * 26) - n * (26 * 26)) with 676 by lia.
      intros dZ [HdZ HdZ_get].
      eapply returns_bind; [by eapply conv_backward_dW_spec|].
      intros dW [HdW HdW_get].
      eapply returns_bind;
        [by eapply np_binop_scalar_r; [|apply has_shape_scalar]|].
      intros dWn [HdWn HdWn_get].
      apply returns_ok. intros i Hi.
      destruct (decide (i = n)) as [->|Hne].
      * exists dWn. split_and!; [apply lookup_insert_eq | done |].
        intros a b Ha Hb. rewrite HdWn_get by by apply in_bounds2.
        rewrite nd_get_scalar, HdW_get by done.
        unfold patch_accumulation. change (26 * 26) with 676. f_equal.
        apply rsum_ext. intros k Hk. apply rsum_ext. intros s Hs.
        rewrite HdZ_get, Hprev_get by lia. f_equal.
        replace ((n * (26 * 26) + k) / 676) with n
          by (apply Nat.div_unique with k; lia).
        replace ((n * (26 * 26) + k) mod 676) with k
          by (apply Nat.mod_unique with n; lia).
        done.
      * destruct (Hinv i ltac:(lia)) as (g & Hg & Hgs & Hg_get).
        exists g. split_and!; [|done..].
        rewrite lookup_insert_ne by (intros E%dconvW_key_inj; lia).
        rewrite lookup_insert_ne by apply dconvb_ne_dconvW. done.
  - intros gradients Hg. done.
Qed.

Lemma unpool_entry_masks (X W b dA : ndarray R) (masks : ndarray int) f s x y :
  (∀ u v, u < 50 → v < 50 →
     nd_get masks [u; v; f; s] = mask_entry (conv_entry X W b s) u v) →
  unpool_entry dA masks s f x y = pre_pool_gradient X W b dA f s x y.
Proof.
  intros Hm. unfold unpool_entry, pre_pool_gradient.
  apply rsum_ext. intros p Hp. apply rsum_ext. intros q Hq.
  case_decide; [|done]. unfold routed_entry. by rewrite Hm by lia.
Qed.

(** What [conv_backward] (source lines 343-378) computes for the filters.
    For an input batch of shape 28x28xm, a filter bank and any gradient [dA]
    of shape (3125, m) arriving from the dense stack, the array [dconvW] it
    returns for the cache of [conv_forward] holds at entry (a, c) the sum of
    [A[x + a, y + c]] times the pre-pool gradient at (x, y) (the pooled
    gradient routed back through the masks), divided by m * 676.  The patch
    is not mirrored, whereas the convolution of [conv_forward] mirrors the
    filter ([convolve2d_valid]). *)
Theorem conv_backward_filter_gradient_is_patch_accumulation
    (X dA : ndarray R) (parameters : cache_t) (W b : nat → ndarray R) (m : nat) :
  has_shape X [28; 28; m] → is_filter_bank parameters W b →
  is_matrix dA 3125 m →
  returns (conv_forward X parameters) (λ '(Z, cache),
    returns (conv_backward dA cache parameters) (λ gradients,
      ∀ i, i < 5 →
        ∃ dconvW, gradients !! ("dconvW" +:+ str (i + 1)) = Some dconvW ∧
          is_matrix dconvW 3 3 ∧
          ∀ a c, a < 3 → c < 3 →
            nd_get dconvW [a; c]
            = patch_accumulation X
                (pre_pool_gradient X (W i) (b i) dA i) m a c)).
Proof.
  intros HX Hbank HdA.
  eapply returns_weaken; [by apply (conv_forward_spec X parameters W b m)|].
  intros [Z cache] (_ & _ & HcA & masks & Hcm & Hmasks & Hm_get).
  eapply returns_weaken;
    [by apply (conv_backward_spec dA X masks cache parameters m)|].
  intros gradients Hg i Hi.
  destruct (Hg i Hi) as (dconvW & Hk & Hs & Hget).
  exists dconvW. split_and!; [done..|].
  intros a c Ha Hc. rewrite Hget by done.
  unfold patch_accumulation. f_equal.
  apply rsum_ext. intros k Hk'. apply rsum_ext. intros s Hs'. f_equal.
  apply (unpool_entry_masks X (W i) (b i) dA masks).
  intros u v Hu Hv. by apply Hm_get.
Qed.

Lemma conv_backward_filter_gradient_is_patch_accumulation_witness :
  returns (conv_forward conv_ex_X conv_ex_parameters) (λ '(Z, cache),
    returns (conv_backward (np_zeros [3125; 1]) cache conv_ex_parameters)
      (λ gradients,
      ∀ i, i < 5 →
        ∃ dconvW, gradients !! ("dconvW" +:+ str (i + 1)) = Some dconvW ∧
          is_matrix dconvW 3 3 ∧
          ∀ a c, a < 3 → c < 3 →
            nd_get dconvW [a; c]
            = patch_accumulation conv_ex_X
                (pre_pool_gradient conv_ex_X (np_zeros [3; 3]) (nd_scalar 0%R)
                   (np_zeros [3125; 1]) i) 1 a c)).
Proof.
  apply (conv_backward_filter_gradient_is_patch_accumulation conv_ex_X
           (np_zeros [3125; 1]) conv_ex_parameters
           (λ _, np_zeros [3; 3]) (λ _, nd_scalar 0%R) 1).
  - apply has_shape_build.
  - apply filter_bank_store_ok. intros i _. split; [apply has_shape_build|done].
  - apply has_shape_build.
Defined.

(** ** The dense stack, layer by layer *)

Lemma linear_forward_spec (A W b : ndarray R) n p m :
  is_matrix A p m → is_matrix W n p → is_matrix b n 1 →
  returns (linear_forward A W b) (λ '(Z, cache),
    is_matrix Z n m ∧ cache = <["A" := A]> ∅ ∧
    ∀ i j, i < n → j < m →
      nd_get Z [i; j]
      = (rsum p (λ l, nd_get W [i; l] * nd_get A [l; j]) + nd_get b [i; 0%nat])%R).
Proof.
  intros HA HW Hb. unfold linear_forward.
  eapply returns_bind; [by eapply np_dot_spec|].
  intros WA [HWA HWA_get].
  eapply returns_bind; [by eapply np_binop_col|].
  intros Z [HZ HZ_get].
  apply returns_ok. split_and!; [done..|].
  intros i j Hi Hj. by rewrite HZ_get, HWA_get.
Qed.

Lemma layer_forward_linear (A_prev W b : ndarray R) n p m :
  is_matrix A_prev p m → is_matrix W n p → is_matrix b n 1 →
  returns (layer_forward A_prev W b "linear") (λ '(A, cache),
    is_matrix A n m ∧ cache = LayerCache (<["A" := A_prev]> ∅) ∅ ∧
    ∀ i j, i < n → j < m →
      nd_get A [i; j]
      = (rsum p (λ l, nd_get W [i; l] * nd_get A_prev [l; j])
         + nd_get b [i; 0%nat])%R).
Proof.
  intros HA HW Hb. unfold layer_forward.
  eapply returns_bind; [by eapply linear_forward_spec|].
  intros [Z lc] (HZ & -> & HZ_get).
  rewrite decide_False by done. rewrite decide_True by done.
  simpl. apply returns_ok. done.
Qed.

Lemma layer_forward_relu (A_prev W b : ndarray R) n p m :
  is_matrix A_prev p m → is_matrix W n p → is_matrix b n 1 →
  returns (layer_forward A_prev W b "relu") (λ '(A, cache),
    is_matrix A n m ∧
    ∀ i j, i < n → j < m →
      nd_get A [i; j]
      = Rmax 0 (rsum p (λ l, nd_get W [i; l] * nd_get A_prev [l; j])
                + nd_get b [i; 0%nat])%R).
Proof.
  intros HA HW Hb. unfold layer_forward.
  eapply returns_bind; [by eapply linear_forward_spec|].
  intros [Z lc] (HZ & -> & HZ_get).
  rewrite decide_True by done.
  simpl. apply returns_ok. split; [by apply has_shape_map|].
  intros i j Hi Hj.
  rewrite (nd_get_map _ _ [n; m]) by (done || by apply in_bounds2).
  by rewrite HZ_get.
Qed.

Lemma indicator_true (P : Prop) `{Decision P} : P → indicator P = 1%R.
Proof. intros. unfold indicator. by rewrite decide_True. Qed.

Lemma indicator_false (P : Prop) `{Decision P} : ¬ P → indicator P = 0%R.
Proof. intros. unfold indicator. by rewrite decide_False. Qed.

(** The backward pass of the softmax head subtracts 1 at the true class
    of every sample. *)
Lemma softmax_backward_values (A : ndarray R) (Y : list int) (cache : cache_t)
    n m :
  cache !! "A" = Some A → is_matrix A n m → length Y ≤ m →
  (∀ y, y ∈ Y → (0 ≤ y < Z.of_nat n)%Z) →
  returns (softmax_cross_entropy_loss_der Y cache) (λ dZ,
    is_matrix dZ n m ∧
    ∀ k s, k < n → s < m →
      nd_get dZ [k; s]
      = Rminus (nd_get A [k; s]) (indicator (Y !! s = Some (Z.of_nat k)))).
Proof.
  intros Hc HA HY Hlab. unfold softmax_cross_entropy_loss_der.
  rewrite (dict_get_Some _ _ _ Hc). cbn [mbind result_bind].
  eapply returns_bind; [|intros dZ HdZ; apply returns_ok; exact HdZ].
  eapply returns_weaken.
  - apply (for_each_range_inv _
      (λ t dZ, is_matrix dZ n m ∧
         ∀ k s, k < n → s < m →
           nd_get dZ [k; s]
           = Rminus (nd_get A [k; s])
               (indicator (s < t ∧ Y !! s = Some (Z.of_nat k))))).
    + split; [done|]. intros k s Hk Hs. rewrite indicator_false by lia. lra.
    + intros t dZ Ht [HdZ HdZ_get].
      destruct (lookup_lt_is_Some_2 Y t Ht) as [y Hy].
      assert (Hyr : (0 ≤ y < Z.of_nat n)%Z)
        by (apply Hlab; by eapply list_elem_of_lookup_2).
      unfold list_get. rewrite Hy. cbn [mbind result_bind].
      unfold np_isub_at2. destruct HdZ as [HdZs HdZl]. rewrite HdZs.
      rewrite (py_norm_index_nonneg n y) by done. cbn [mbind result_bind].
      rewrite (py_norm_index_nonneg m (Z.of_nat t)) by lia.
      cbn [mbind result_bind]. rewrite Nat2Z.id.
      apply returns_ok. split; [by apply has_shape_update|].
      intros k s Hk Hs.
      rewrite (nd_get_update _ _ [n; m]) by (done || by apply in_bounds2).
      rewrite HdZ_get by done.
      destruct (decide ([k; s] = [Z.to_nat y; t])) as [[= -> ->]|Hne].
      * rewrite indicator_false by lia. rewrite indicator_true; [lra|].
        split; [lia|]. rewrite Hy. f_equal. lia.
      * destruct (decide (s = t)) as [->|Hst].
        -- rewrite indicator_false by lia. rewrite indicator_false; [done|].
           intros [_ Hy']. rewrite Hy in Hy'. injection Hy' as ->.
           apply Hne. by rewrite Nat2Z.id.
        -- destruct (decide (s < t ∧ Y !! s = Some (Z.of_nat k))) as [[? ?]|Hn].
           ++ rewrite !indicator_true; [done| |done]. split; [lia|done].
           ++ rewrite !indicator_false; [done| |done].
              intros [? ?]. apply Hn. split; [lia|done].
  - intros dZ [HdZ HdZ_get]. split; [done|].
    intros k s Hk Hs. rewrite HdZ_get by done.
    destruct (decide (Y !! s = Some (Z.of_nat k))) as [Hy|Hy].
    + rewrite !indicator_true; [done..|]. split; [|done].
      by eapply lookup_lt_Some.
    + rewrite !indicator_false; [done..|]. by intros [_ ?].
Qed.

(** ** The filter gradient against the derivative of the loss *)

Ltac indicator_lia :=
  repeat match goal with
  | |- context [@indicator ?P ?D] =>
      first [ rewrite (@indicator_false P D) by lia
            | rewrite (@indicator_true P D) by lia ]
  end.

(** An image whose only lit pixel is the corner (0, 0), seen through a
    filter whose entries other than (0, 0) vanish except (2, 2): the valid
    convolution is lit only at (0, 0), whatever the entry (0, 0) is. *)
Lemma conv_entry_corner (X W b : ndarray R) (κ : R) s r c :
  (∀ u v, u < 28 → v < 28 → nd_get X [u; v; s] = indicator (u = 0 ∧ v = 0)) →
  (∀ a c', a < 3 → c' < 3 → ¬ (a = 0 ∧ c' = 0) →
     nd_get W [a; c'] = Rmult κ (indicator (a = 2 ∧ c' = 2))) →
  np_float b = 0%R → r < 26 → c < 26 →
  conv_entry X W b s r c = Rmult κ (indicator (r = 0 ∧ c = 0)).
Proof.
  intros HX HW Hb Hr Hc. unfold conv_entry, rsum, range.
  cbn [seq fmap list_fmap sumR foldr]. rewrite Hb.
  rewrite !HX by lia.
  rewrite (HW 2 2), (HW 2 1), (HW 2 0), (HW 1 2), (HW 1 1), (HW 1 0),
    (HW 0 2), (HW 0 1) by lia.
  destruct (decide (r = 0 ∧ c = 0)) as [[-> ->]|Hn]; indicator_lia; lra.
Qed.

Lemma window_max_corner (z : nat → nat → R) (κ : R) r c :
  (∀ r c, r < 26 → c < 26 → z r c = Rmult κ (indicator (r = 0 ∧ c = 0))) →
  (0 <= κ)%R → r < 25 → c < 25 →
  window_max z r c = Rmult κ (indicator (r = 0 ∧ c = 0)).
Proof.
  intros Hz Hκ Hr Hc. unfold window_max. rewrite !Hz by lia.
  destruct (decide (r = 0 ∧ c = 0)) as [[-> ->]|Hn]; indicator_lia;
    unfold Rmax; repeat destruct (Rle_dec _ _); lra.
Qed.

Lemma grad_ex_X_shape : has_shape grad_ex_X [28; 28; 1].
Proof. apply has_shape_build. Qed.

Lemma grad_ex_X_get u v s :
  u < 28 → v < 28 → s < 1 → nd_get grad_ex_X [u; v; s] = indicator (u = 0 ∧ v = 0).
Proof. intros. unfold grad_ex_X. by rewrite nd_get_build3. Qed.

(** The features of the corner image, for any bank of that kind. *)
Lemma grad_ex_conv_forward (parameters : cache_t) (W b : nat → ndarray R) :
  is_filter_bank parameters W b →
  (∀ i a c, i < 5 → a < 3 → c < 3 → ¬ (a = 0 ∧ c = 0) →
     nd_get (W i) [a; c]
     = Rmult (indicator (i = 0)) (indicator (a = 2 ∧ c = 2))) →
  (∀ i, i < 5 → np_float (b i) = 0%R) →
  returns (conv_forward grad_ex_X parameters) (λ '(Z, cache),
    Z = grad_ex_Z0 ∧
    conv_floats cache !! "A" = Some grad_ex_X ∧
    ∃ masks, conv_ints cache !! "masks" = Some masks ∧
      has_shape masks [50; 50; 5; 1] ∧
      nd_get masks [0; 0; 0; 0] = 1%Z).
Proof.
  intros Hbank HW Hb.
  assert (Hentry : ∀ i r c, i < 5 → r < 26 → c < 26 →
            conv_entry grad_ex_X (W i) (b i) 0 r c
            = Rmult (indicator (i = 0)) (indicator (r = 0 ∧ c = 0))).
  { intros i r c Hi Hr Hc.
    apply conv_entry_corner;
      [|intros a c' ???; by apply HW|by apply Hb|done..].
    intros u v Hu Hv. apply grad_ex_X_get; lia. }
  assert (Hmax : ∀ i r c, i < 5 → r < 25 → c < 25 →
            window_max (conv_entry grad_ex_X (W i) (b i) 0) r c
            = Rmult (indicator (i = 0)) (indicator (r = 0 ∧ c = 0))).
  { intros i r c Hi Hr Hc.
    apply window_max_corner; [intros r' c' ??; by apply Hentry| |done..].
    unfold indicator. case_decide; lra. }
  eapply returns_weaken;
    [by apply (conv_forward_spec grad_ex_X parameters W b 1 grad_ex_X_shape)|].
  intros [Z cache] (HZ & HZ_get & HcA & masks & Hcm & Hmasks & Hm_get).
  split_and!; [|done|].
  - apply (nd_ext Z grad_ex_Z0 [3125; 1]); [done|apply has_shape_build|].
    intros idx (k & s & -> & Hk & Hs)%in_bounds2_inv.
    assert (s = 0) as -> by lia.
    unfold grad_ex_Z0. rewrite nd_get_build2 by done.
    pose proof (Nat.div_mod_eq k 625) as Hk1.
    pose proof (Nat.div_mod_eq (k mod 625) 25) as Hk2.
    assert (k / 625 < 5) by (apply Nat.Div0.div_lt_upper_bound; lia).
    assert (k mod 625 < 625) by (apply Nat.mod_upper_bound; lia).
    assert ((k mod 625) / 25 < 25) by (apply Nat.Div0.div_lt_upper_bound; lia).
    assert ((k mod 625) mod 25 < 25) by (apply Nat.mod_upper_bound; lia).
    replace k with (625 * (k / 625) + 25 * ((k mod 625) / 25) + (k mod 625) mod 25)
      at 1 by lia.
    rewrite HZ_get, Hmax by done.
    destruct (decide (k = 0)) as [->|Hne].
    + rewrite !indicator_true; [lra|done..].
    + rewrite (indicator_false (k = 0)) by done.
      destruct (decide (k / 625 = 0)) as [E|E].
      * rewrite (indicator_false (_ ∧ _)) by lia. lra.
      * rewrite (indicator_false (k / 625 = 0)) by done. lra.
  - exists masks. split_and!; [done..|].
    rewrite Hm_get by lia. unfold mask_entry.
    change ((0 + 1) / 2) with 0. change (0 / 2) with 0.
    rewrite bool_decide_true; [done|].
    rewrite Hentry, Hmax by lia. done.
Qed.

Lemma grad_ex_W_get i a c :
  a < 3 → c < 3 →
  nd_get (grad_ex_W i) [a; c] = indicator (i = 0 ∧ a = 2 ∧ c = 2).
Proof. intros. unfold grad_ex_W. by rewrite nd_get_build2. Qed.

Lemma indicator_and3 i a c :
  indicator (i = 0 ∧ a = 2 ∧ c = 2)
  = Rmult (indicator (i = 0)) (indicator (a = 2 ∧ c = 2)).
Proof. unfold indicator. repeat case_decide; try lra; tauto. Qed.

Lemma grad_ex_bank : is_filter_bank grad_ex_convParameters grad_ex_W (λ _, nd_scalar 0%R).
Proof.
  apply filter_bank_store_ok. intros i _. split; [apply has_shape_build|done].
Qed.

(** The bank with entry (0, 0) of the first filter set to [w]. *)
Lemma grad_ex_bank_with_entry (w : R) :
  ∃ W, is_filter_bank (with_filter_entry grad_ex_convParameters 0 0 0 w)
         W (λ _, nd_scalar 0%R) ∧
    ∀ i a c, i < 5 → a < 3 → c < 3 → ¬ (a = 0 ∧ c = 0) →
      nd_get (W i) [a; c] = Rmult (indicator (i = 0)) (indicator (a = 2 ∧ c = 2)).
Proof.
  exists (λ i, if decide (i = 0)
               then nd_update (grad_ex_W 0)
                      (λ idx x, if decide (idx = [0; 0]) then w else x)
               else grad_ex_W i).
  split.
  - intros i Hi. split_and!.
    + do 5 (destruct i as [|i]; [reflexivity|]). lia.
    + do 5 (destruct i as [|i]; [reflexivity|]). lia.
    + case_decide; [apply has_shape_update|]; apply has_shape_build.
    + done.
  - intros i a c Hi Ha Hc Hne. case_decide as Hi0.
    + subst i.
      rewrite (nd_get_update _ _ [3; 3])
        by (apply has_shape_build || by apply in_bounds2).
      rewrite decide_False by (intros [= -> ->]; tauto).
      rewrite grad_ex_W_get by done. apply indicator_and3.
    + rewrite grad_ex_W_get by done. apply indicator_and3.
Qed.

Lemma network_loss_from_features (X : ndarray R) (Y : list int)
    (parameters convParameters : cache_t) A0 convCache :
  conv_forward X convParameters = Ok (A0, convCache) →
  network_loss X Y parameters convParameters
  = ('(AL, caches) ← multi_layer_forward A0 parameters;
     '(A, cache, cost) ← softmax_cross_entropy_loss AL Y;
     Ok cost).
Proof. intros H. unfold network_loss. by rewrite H. Qed.

(** The loss of the corner example does not depend on entry (0, 0) of the
    first filter. *)
Lemma grad_ex_loss_constant (w : R) :
  loss_of_filter_entry grad_ex_X grad_ex_Y grad_ex_parameters
    grad_ex_convParameters 0 0 0 w
  = match ('(AL, caches) ← multi_layer_forward grad_ex_Z0 grad_ex_parameters;
           '(A, cache, cost) ← softmax_cross_entropy_loss AL grad_ex_Y;
           Ok cost) with
    | Ok cost => cost
    | Raise _ => 0%R
    end.
Proof.
  unfold loss_of_filter_entry.
  destruct (grad_ex_bank_with_entry w) as (W & Hbank & HW).
  destruct (grad_ex_conv_forward _ W (λ _, nd_scalar 0%R) Hbank HW)
    as ([Z cache] & Hcf & -> & _); [done|].
  by rewrite (network_loss_from_features _ _ _ _ _ _ Hcf).
Qed.

Lemma derivable_pt_lim_constant (f : R → R) (c x : R) :
  (∀ w, f w = c) → derivable_pt_lim f x 0%R.
Proof.
  intros Hf eps Heps. exists (mkposreal 1 Rlt_0_1). intros h Hh _.
  rewrite !Hf. unfold Rdiv, Rminus. rewrite Rplus_opp_r, Rmult_0_l, Rplus_opp_r.
  by rewrite Rabs_R0.
Qed.

Lemma rsum_single n f k :
  k < n → (∀ l, l < n → l ≠ k → f l = 0%R) → rsum n f = f k.
Proof.
  revert k. induction n as [|n IH]; intros k Hk Hf; [lia|].
  rewrite rsum_S. destruct (decide (k = n)) as [->|Hne].
  - rewrite rsum_zero; [lra|]. intros i Hi. apply Hf; lia.
  - rewrite (IH k) by (lia || (intros; apply Hf; lia)).
    rewrite (Hf n) by lia. lra.
Qed.

Lemma softmax_forward_returns (Z : ndarray R) (Y : list int) n m :
  is_matrix Z n m → n ≠ 0 → length Y ≤ m →
  (∀ y, y ∈ Y → (0 ≤ y < Z.of_nat n)%Z) →
  returns (softmax_cross_entropy_loss Z Y) (λ '(A, cache, loss),
    is_matrix A n m ∧ cache = <["A" := A]> ∅ ∧
    ∀ i j, i < n → j < m → nd_get A [i; j] = softmax_prob Z n i j).
Proof.
  intros HZ Hn HY Hlab.
  destruct (softmax_forward_unfold Z Y n m HZ Hn) as (A & HA & HA_get & ->).
  rewrite (list_comp_ok _ (λ i, nd_get A [Z.to_nat (Y !!! i); i])).
  2:{ intros i Hi%elem_of_range.
      destruct (lookup_lt_is_Some_2 Y i Hi) as [y Hy].
      assert (Hyin : (0 ≤ y < Z.of_nat n)%Z)
        by (apply Hlab; by eapply list_elem_of_lookup_2).
      destruct (true_class_item A Y n m i y HA ltac:(lia) Hy) as [[Hout _]|[_ ->]];
        [lia|].
      rewrite decide_True by lia.
      by rewrite list_lookup_total_alt, Hy. }
  simpl. by apply returns_ok.
Qed.

Lemma multi_layer_forward_one_layer (X W b : ndarray R) (parameters : cache_t)
    n p m :
  size parameters = 2 →
  parameters !! "W1" = Some W → parameters !! "b1" = Some b →
  is_matrix X p m → is_matrix W n p → is_matrix b n 1 →
  returns (multi_layer_forward X parameters) (λ '(AL, caches),
    is_matrix AL n m ∧ caches = [LayerCache (<["A" := X]> ∅) ∅] ∧
    ∀ i j, i < n → j < m →
      nd_get AL [i; j]
      = (rsum p (λ l, nd_get W [i; l] * nd_get X [l; j])
         + nd_get b [i; 0%nat])%R).
Proof.
  intros Hsz HW Hb HX HWs Hbs. unfold multi_layer_forward. rewrite Hsz.
  change (2 / 2) with 1. change (seq 1 (1 - 1)) with (@nil nat).
  cbn [for_each mbind result_bind].
  change ("W" +:+ str 1) with "W1". change ("b" +:+ str 1) with "b1".
  rewrite (dict_get_Some _ _ _ HW), (dict_get_Some _ _ _ Hb).
  cbn [mbind result_bind].
  eapply returns_bind; [by eapply layer_forward_linear|].
  intros [AL cache] (HAL & -> & HAL_get). by apply returns_ok.
Qed.

Lemma multi_layer_backward_one_layer (dZ A_prev W b : ndarray R)
    (lc ac parameters : cache_t) n p m :
  parameters !! "W1" = Some W → parameters !! "b1" = Some b →
  lc !! "A" = Some A_prev →
  is_matrix dZ n m → is_matrix A_prev p m → is_matrix W n p →
  returns (multi_layer_backward dZ [LayerCache lc ac] parameters) (λ gradients,
    ∃ dA, gradients !! "dA" = Some dA ∧ is_matrix dA p m ∧
      ∀ k j, k < p → j < m →
        nd_get dA [k; j] = rsum n (λ i, nd_get W [i; k] * nd_get dZ [i; j])%R).
Proof.
  intros HW Hb Hlc HdZ HA HWs. unfold multi_layer_backward.
  change (reverse (seq 1 (length [LayerCache lc ac]))) with [1].
  cbn [for_each]. change (list_get [LayerCache lc ac] (1 - 1)) with (Ok (LayerCache lc ac)).
  cbn [mbind result_bind].
  change ("W" +:+ str 1) with "W1". change ("b" +:+ str 1) with "b1".
  rewrite (dict_get_Some _ _ _ HW), (dict_get_Some _ _ _ Hb).
  cbn [mbind result_bind].
  unfold layer_backward. rewrite decide_False by done. rewrite decide_True by done.
  unfold linear_der. cbn [mbind result_bind lin_cache act_cache].
  destruct (linear_backward_spec dZ A_prev W b lc n m p HdZ Hlc HA HWs)
    as ([[dA dW] db] & -> & HdA & _ & _ & HdA_get & _).
  cbn [mbind result_bind]. apply returns_ok.
  exists dA. split_and!; [apply lookup_insert_eq | done | done].
Qed.

Lemma grad_ex_parameters_size : size grad_ex_parameters = 2.
Proof.
  unfold grad_ex_parameters.
  rewrite map_size_insert_None by done.
  rewrite map_size_insert_None by done.
  by rewrite map_size_empty.
Qed.

(** The gradient that the backward pass returns for entry (0, 0) of the
    first filter on the corner example. *)
Lemma grad_ex_filter_gradient :
  filter_gradient_entry grad_ex_X grad_ex_Y grad_ex_parameters
    grad_ex_convParameters 0 0 0 = Ok (- (1 / 2))%R.
Proof.
  unfold filter_gradient_entry, network_gradients.
  (* convolution and pooling *)
  destruct (grad_ex_conv_forward grad_ex_convParameters grad_ex_W
              (λ _, nd_scalar 0%R) grad_ex_bank)
    as ([Z convCache] & -> & -> & HcA & masks & Hcm & Hmasks & Hm00).
  { intros i a c Hi Ha Hc _. rewrite grad_ex_W_get by done. apply indicator_and3. }
  { done. }
  cbn [mbind result_bind].
  (* the dense layer *)
  destruct (multi_layer_forward_one_layer grad_ex_Z0
              (build2 2 3125 (λ i k, Rmult 676 (indicator (i = 0 ∧ k = 0))))
              (build2 2 1 (λ i _, Rmult 676 (indicator (i = 1))))
              grad_ex_parameters 2 3125 1 grad_ex_parameters_size)
    as ([AL caches] & -> & HAL & -> & HAL_get);
    [reflexivity | reflexivity | apply has_shape_build..|].
  cbn [mbind result_bind].
  assert (HAL_val : ∀ i, i < 2 → nd_get AL [i; 0] = 676%R).
  { intros i Hi. rewrite HAL_get by lia.
    rewrite (rsum_single 3125 _ 0); [|lia|].
    - rewrite !nd_get_build2 by lia. unfold grad_ex_Z0.
      rewrite nd_get_build2 by lia.
      destruct i as [|[|?]]; [| |lia]; indicator_lia; lra.
    - intros l Hl Hne. unfold grad_ex_Z0. rewrite (nd_get_build2 3125 1) by lia.
      rewrite (indicator_false (l = 0)) by done. lra. }
  (* softmax and its derivative *)
  destruct (softmax_forward_returns AL grad_ex_Y 2 1 HAL)
    as ([[A cache] cost] & -> & HA & -> & HA_get).
  { done. }
  { simpl. lia. }
  { intros y Hy. apply list_elem_of_In in Hy. destruct Hy as [<-|[]]. lia. }
  cbn [mbind result_bind].
  assert (HA_val : ∀ i, i < 2 → nd_get A [i; 0] = (1 / 2)%R).
  { intros i Hi. rewrite HA_get by lia. unfold softmax_prob, rsum, range.
    cbn [seq fmap list_fmap sumR foldr]. rewrite !HAL_val by lia.
    pose proof (exp_pos 676). field. lra. }
  destruct (softmax_backward_values A grad_ex_Y (<["A" := A]> ∅) 2 1)
    as (dZ & -> & HdZ & HdZ_get).
  { apply lookup_insert_eq. }
  { done. }
  { simpl. lia. }
  { intros y Hy. apply list_elem_of_In in Hy. destruct Hy as [<-|[]]. lia. }
  cbn [mbind result_bind].
  (* back through the dense layer *)
  destruct (multi_layer_backward_one_layer dZ grad_ex_Z0
              (build2 2 3125 (λ i k, Rmult 676 (indicator (i = 0 ∧ k = 0))))
              (build2 2 1 (λ i _, Rmult 676 (indicator (i = 1))))
              (<["A" := grad_ex_Z0]> ∅) ∅ grad_ex_parameters 2 3125 1)
    as (gradients & -> & dA & HgdA & HdA & HdA_get);
    [reflexivity | reflexivity | apply lookup_insert_eq | done
    | apply has_shape_build.. |].
  cbn [mbind result_bind].
  rewrite (dict_get_Some _ _ _ HgdA). cbn [mbind result_bind].
  assert (HdA00 : nd_get dA [0; 0] = (- 338)%R).
  { rewrite HdA_get by lia. unfold rsum, range.
    cbn [seq fmap list_fmap sumR foldr].
    rewrite !nd_get_build2 by lia. rewrite !HdZ_get by lia.
    rewrite !HA_val by lia.
    rewrite (indicator_true (grad_ex_Y !! 0 = Some (Z.of_nat 0))) by done.
    rewrite (indicator_false (grad_ex_Y !! 0 = Some (Z.of_nat 1))) by done.
    indicator_lia. lra. }
  (* back through pooling and convolution *)
  destruct (conv_backward_spec dA grad_ex_X masks convCache
              grad_ex_convParameters 1 HdA HcA grad_ex_X_shape Hcm Hmasks)
    as (convGradients & -> & Hcg).
  cbn [mbind result_bind].
  destruct (Hcg 0 ltac:(lia)) as (dconvW & Hkey & _ & Hget).
  change ("dconvW" +:+ str (0 + 1)) with "dconvW1" in *.
  rewrite (dict_get_Some _ _ _ Hkey). cbn [mbind result_bind]. f_equal.
  rewrite Hget by lia. unfold patch_accumulation.
  rewrite (rsum_single 676 _ 0); [|lia|].
  - unfold rsum at 1, range. cbn [seq fmap list_fmap sumR foldr].
    change (0 / 26) with 0. change (0 mod 26) with 0.
    rewrite grad_ex_X_get by lia. rewrite indicator_true by done.
    unfold unpool_entry, rsum, range. cbn [seq fmap list_fmap sumR foldr].
    rewrite (decide_False (P := 1 ≤ 2 * 0 + 0 ≤ 50 ∧ 1 ≤ 2 * 0 + 0 ≤ 50)) by lia.
    rewrite (decide_False (P := 1 ≤ 2 * 0 + 0 ≤ 50 ∧ 1 ≤ 2 * 0 + 1 ≤ 50)) by lia.
    rewrite (decide_False (P := 1 ≤ 2 * 0 + 1 ≤ 50 ∧ 1 ≤ 2 * 0 + 0 ≤ 50)) by lia.
    rewrite (decide_True (P := 1 ≤ 2 * 0 + 1 ≤ 50 ∧ 1 ≤ 2 * 0 + 1 ≤ 50)) by lia.
    unfold routed_entry.
    change (2 * 0 + 1 - 1) with 0. change (0 / 2) with 0.
    change (625 * 0 + 25 * 0 + 0) with 0.
    rewrite HdA00, Hm00.
    rewrite INR_IZR_INZ. change (Z.of_nat (1 * 676)) with 676%Z. lra.
  - intros k Hk Hne. unfold rsum, range. cbn [seq fmap list_fmap sumR foldr].
    assert (k / 26 < 26) by (apply Nat.Div0.div_lt_upper_bound; lia).
    assert (k mod 26 < 26) by (apply Nat.mod_upper_bound; lia).
    rewrite grad_ex_X_get by lia.
    pose proof (Nat.div_mod_eq k 26).
    rewrite indicator_false by lia. lra.
Qed.

(** C2.  The code departs from the claim on the corner example.  The loss
    does not depend on entry (0, 0) of the first filter (the convolution of
    [conv_forward] mirrors the filter, so that entry only ever meets the dark
    pixel (2, 2) and beyond), hence its derivative is 0; [conv_backward],
    which accumulates the patches without mirroring them, returns -1/2 for
    that entry, and the gradient check fails. *)
Lemma filter_gradient_is_not_the_derivative :
  ¬ gradient_check (1 / 100000) grad_ex_X grad_ex_Y grad_ex_parameters
      grad_ex_convParameters 0 0 0.
Proof.
  intros (W & g & l & _ & Hg & Hl & Htol).
  rewrite grad_ex_filter_gradient in Hg. injection Hg as <-.
  assert (l = 0%R) as ->.
  { eapply uniqueness_limite; [exact Hl|].
    eapply derivable_pt_lim_constant. apply grad_ex_loss_constant. }
  revert Htol. unfold Rabs. destruct (Rcase_abs _); lra.
Qed.

(** ** Classification *)

Lemma argmax_from_spec (f : nat → R) best start len :
  best < start →
  (∀ i, i < start → (f i <= f best)%R) →
  (∀ i, i < best → (f i < f best)%R) →
  argmax_from f best start len < start + len ∧
  (∀ i, i < start + len → (f i <= f (argmax_from f best start len))%R) ∧
  (∀ i, i < argmax_from f best start len →
        (f i < f (argmax_from f best start len))%R).
Proof.
  revert best start. induction len as [|len IH]; intros best start Hb Hle Hlt.
  - simpl. rewrite Nat.add_0_r. done.
  - simpl. replace (start + S len) with (S start + len) by lia.
    case_decide as Hc.
    + apply IH; [lia| |].
      * intros i Hi. destruct (decide (i = start)) as [->|]; [lra|].
        specialize (Hle i ltac:(lia)). lra.
      * intros i Hi. specialize (Hle i Hi). lra.
    + apply IH; [lia| |done].
      intros i Hi. destruct (decide (i = start)) as [->|]; [lra|].
      apply Hle. lia.
Qed.

Lemma argmax_from_const (f : nat → R) best start len :
  (∀ i, i < start + len → f i = f best) → argmax_from f best start len = best.
Proof.
  revert start. induction len as [|len IH]; intros start Hf; [done|].
  simpl. rewrite decide_False.
  - apply IH. intros i Hi. apply Hf. lia.
  - rewrite (Hf start) by lia. lra.
Qed.

Lemma np_argmax_axis0_Ok (A : ndarray R) (Ypred : ndarray int) :
  np_argmax_axis0 A = Ok Ypred →
  ∃ n m, shape A = [n; m] ∧ n ≠ 0 ∧ has_shape Ypred [m] ∧
    ∀ j, j < m →
      nd_get Ypred [j]
      = Z.of_nat (argmax_from (λ i, nd_get A [i; j]) 0 1 (n - 1)).
Proof.
  unfold np_argmax_axis0.
  destruct (shape A) as [|n [|m [|? ?]]]; try done.
  case_decide as Hn; [done|]. intros [= <-].
  exists n, m. split_and!; [done | done | apply has_shape_build |].
  intros j Hj. by rewrite nd_get_build1.
Qed.

Lemma W_key_inj a b : "W" +:+ str a = "W" +:+ str b → a = b.
Proof. simpl. intros [= H]. by apply str_inj. Qed.

Lemma b_key_inj a b : "b" +:+ str a = "b" +:+ str b → a = b.
Proof. simpl. intros [= H]. by apply str_inj. Qed.

Lemma W_key_ne_b a b : "W" +:+ str a ≠ "b" +:+ str b.
Proof. simpl. by intros [=]. Qed.

(** The keys, the values and the size of the all-zero dense store. *)
Lemma zero_dense_parameters_spec (net_dims : list nat) :
  let L := length net_dims - 1 in
  size (zero_dense_parameters net_dims) = 2 * L ∧
  ∀ l, 1 ≤ l ≤ L →
    zero_dense_parameters net_dims !! ("W" +:+ str l)
      = Some (np_zeros [net_dims !!! l; net_dims !!! (l - 1)]) ∧
    zero_dense_parameters net_dims !! ("b" +:+ str l)
      = Some (np_zeros [net_dims !!! l; 1]).
Proof.
  intros L. unfold zero_dense_parameters. fold L.
  set (step := λ (parameters : cache_t) (l : nat),
         <["b" +:+ str (l + 1) := np_zeros [net_dims !!! (l + 1); 1]]>
           (<["W" +:+ str (l + 1) :=
                np_zeros [net_dims !!! (l + 1); net_dims !!! l]]> parameters)).
  assert (H : ∀ n, let store := foldl step ∅ (range n) in
    size store = 2 * n ∧
    (∀ k, is_Some (store !! k) →
       ∃ l, 1 ≤ l ≤ n ∧ (k = "W" +:+ str l ∨ k = "b" +:+ str l)) ∧
    ∀ l, 1 ≤ l ≤ n →
      store !! ("W" +:+ str l)
        = Some (np_zeros [net_dims !!! l; net_dims !!! (l - 1)]) ∧
      store !! ("b" +:+ str l) = Some (np_zeros [net_dims !!! l; 1])).
  { induction n as [|n IH]; cbn zeta in *.
    - simpl. split_and!; [done| |intros; lia].
      intros k [? Hk]. by rewrite lookup_empty in Hk.
    - unfold range in *. rewrite seq_S, foldl_app. simpl.
      destruct IH as (Hsz & Hdom & Hget).
      set (store := foldl step ∅ (seq 0 n)) in *.
      assert (HW : store !! ("W" +:+ str (n + 1)) = None).
      { apply eq_None_not_Some. intros (l & Hl & [E|E])%Hdom.
        - apply W_key_inj in E. lia.
        - by apply W_key_ne_b in E. }
      assert (Hb : store !! ("b" +:+ str (n + 1)) = None).
      { apply eq_None_not_Some. intros (l & Hl & [E|E])%Hdom.
        - symmetry in E. by apply W_key_ne_b in E.
        - apply b_key_inj in E. lia. }
      change (step store n)
        with (<["b" +:+ str (n + 1) := np_zeros [net_dims !!! (n + 1); 1]]>
                (<["W" +:+ str (n + 1) :=
                     np_zeros [net_dims !!! (n + 1); net_dims !!! n]]> store)).
      split_and!.
      + rewrite map_size_insert_None.
        2:{ rewrite lookup_insert_ne by apply W_key_ne_b. done. }
        rewrite map_size_insert_None by done. lia.
      + intros k Hk.
        destruct (decide (k = "b" +:+ str (n + 1))) as [->|Hkb].
        { exists (n + 1). split; [lia | by right]. }
        rewrite lookup_insert_ne in Hk by done.
        destruct (decide (k = "W" +:+ str (n + 1))) as [->|HkW].
        { exists (n + 1). split; [lia | by left]. }
        rewrite lookup_insert_ne in Hk by done.
        destruct (Hdom k Hk) as (l & Hl & Hkl). exists l. split; [lia|done].
      + intros l Hl. destruct (decide (l = n + 1)) as [->|Hne].
        * split.
          -- rewrite lookup_insert_ne by (intros E; symmetry in E; by apply W_key_ne_b in E).
             rewrite lookup_insert_eq. by replace (n + 1 - 1) with n by lia.
          -- by rewrite lookup_insert_eq.
        * destruct (Hget l ltac:(lia)) as [HWl Hbl]. split.
          -- rewrite lookup_insert_ne by (intros E; symmetry in E; by apply W_key_ne_b in E).
             rewrite lookup_insert_ne by (intros E%W_key_inj; lia). done.
          -- rewrite lookup_insert_ne by (intros E%b_key_inj; lia).
             rewrite lookup_insert_ne by apply W_key_ne_b. done. }
  destruct (H L) as (Hsz & _ & Hget). done.
Qed.

Lemma np_zeros_get sh idx : in_bounds sh idx → nd_get (np_zeros sh) idx = 0%R.
Proof. intros. unfold np_zeros. by rewrite nd_get_build. Qed.

(** The dense stack of the all-zero network maps every input to zero
    scores. *)
Lemma multi_layer_forward_zero (A0 : ndarray R) (hidden : list nat)
    (classes m : nat) :
  is_matrix A0 3125 m →
  returns (multi_layer_forward A0
             (zero_dense_parameters (3125 :: hidden ++ [classes])))
    (λ '(AL, caches), is_matrix AL classes m ∧
       ∀ i j, i < classes → j < m → nd_get AL [i; j] = 0%R).
Proof.
  intros HA0. set (dims := 3125 :: hidden ++ [classes]).
  destruct (zero_dense_parameters_spec dims) as [Hsz Hget].
  set (L := length dims - 1) in *.
  assert (HL : L = length hidden + 1).
  { unfold L, dims. simpl. rewrite length_app. simpl. lia. }
  assert (Hlast : dims !!! L = classes).
  { unfold dims. rewrite HL. replace (length hidden + 1) with (S (length hidden)) by lia.
    simpl. rewrite lookup_total_app_r by lia.
    by replace (length hidden - length hidden) with 0 by lia. }
  unfold multi_layer_forward. rewrite Hsz.
  replace (2 * L / 2) with L by (rewrite Nat.mul_comm, Nat.div_mul; lia).
  eapply returns_bind.
  - replace L with (1 + (L - 1)) at 2 by lia.
    apply (for_each_seq_inv _
      (λ k '(A, caches), is_matrix A (dims !!! (k - 1)) m) 1 (L - 1)).
    + done.
    + intros k [A caches] Hk HA.
      destruct (Hget k ltac:(lia)) as [HW Hb].
      rewrite (dict_get_Some _ _ _ HW), (dict_get_Some _ _ _ Hb).
      cbn [mbind result_bind].
      eapply returns_bind.
      { eapply (layer_forward_relu A _ _ (dims !!! k) (dims !!! (k - 1)) m);
          [done | apply has_shape_build..]. }
      intros [A' cache] [HA' _]. apply returns_ok.
      by replace (S k - 1) with k by lia.
  - intros [A caches] HA. replace (1 + (L - 1) - 1) with (L - 1) in HA by lia.
    destruct (Hget L ltac:(lia)) as [HW Hb].
    rewrite (dict_get_Some _ _ _ HW), (dict_get_Some _ _ _ Hb).
    cbn [mbind result_bind].
    eapply returns_bind.
    { eapply (layer_forward_linear A _ _ (dims !!! L) (dims !!! (L - 1)) m);
        [done | apply has_shape_build..]. }
    intros [AL cache] (HAL & _ & HAL_get). apply returns_ok.
    rewrite Hlast in HAL, HAL_get. split; [done|].
    intros i j Hi Hj. rewrite HAL_get by done.
    rewrite rsum_zero.
    + rewrite np_zeros_get by (apply in_bounds2; lia). lra.
    + intros l Hl. rewrite np_zeros_get by (apply in_bounds2; lia). lra.
Qed.

(** C9.  Whenever [classify] returns, its result holds for every sample the
    first row index at which the softmax output column is maximal (ties go
    to the lowest index); and on an all-zero image batch with all
    parameters zero, whatever the hidden layer sizes, it returns class 0
    for every sample. *)
Theorem classify_returns_first_argmax (X : ndarray R)
    (parameters convParameters : cache_t) (m : nat) (hidden : list nat)
    (classes : nat) :
  classes ≠ 0 →
  (∀ Ypred, classify X parameters convParameters = Ok Ypred →
     ∃ A0 convCache AL caches A cache cost n m',
       conv_forward X convParameters = Ok (A0, convCache) ∧
       multi_layer_forward A0 parameters = Ok (AL, caches) ∧
       softmax_cross_entropy_loss AL [] = Ok (A, cache, cost) ∧
       shape A = [n; m'] ∧ has_shape Ypred [m'] ∧
       ∀ j, j < m' →
         ∃ k, nd_get Ypred [j] = Z.of_nat k ∧ is_first_argmax A n j k) ∧
  returns (classify (np_zeros [28; 28; m])
             (zero_dense_parameters (3125 :: hidden ++ [classes]))
             zero_conv_parameters)
    (λ Ypred, has_shape Ypred [m] ∧ ∀ j, j < m → nd_get Ypred [j] = 0%Z).
Proof.
  intros Hclasses. split.
  - intros Ypred. unfold classify.
    destruct (conv_forward X convParameters) as [[A0 convCache]|] eqn:Hcf;
      [|done].
    cbn [mbind result_bind].
    destruct (multi_layer_forward A0 parameters) as [[AL caches]|] eqn:Hmf;
      [|done].
    cbn [mbind result_bind].
    destruct (softmax_cross_entropy_loss AL []) as [[[A cache] cost]|] eqn:Hsm;
      [|done].
    cbn [mbind result_bind].
    destruct (np_argmax_axis0 A) as [Y'|] eqn:Harg; [|done].
    cbn [mbind result_bind]. intros [= ->].
    apply np_argmax_axis0_Ok in Harg as (n & m' & HA & Hn & HY & HY_get).
    exists A0, convCache, AL, caches, A, cache, cost, n, m'.
    split_and!; [done..|].
    intros j Hj. eexists. split; [by apply HY_get|].
    pose proof (argmax_from_spec (λ i, nd_get A [i; j]) 0 1 (n - 1)) as Hspec.
    replace (1 + (n - 1)) with n in Hspec by lia.
    apply Hspec; [lia | | intros; lia].
    intros i Hi. assert (i = 0) as -> by lia. simpl. lra.
  - unfold classify.
    eapply returns_bind.
    { apply (conv_forward_spec (np_zeros [28; 28; m]) zero_conv_parameters
               (λ _, np_zeros [3; 3]) (λ _, nd_scalar 0%R) m).
      - apply has_shape_build.
      - apply filter_bank_store_ok. intros i _.
        split; [apply has_shape_build|done]. }
    intros [A0 convCache] (HA0 & _).
    eapply returns_bind; [by apply multi_layer_forward_zero|].
    intros [AL caches] [HAL HAL_get].
    eapply returns_bind.
    { apply (softmax_forward_returns AL [] classes m HAL Hclasses).
      - simpl. lia.
      - intros y Hy. by apply elem_of_nil in Hy. }
    intros [[A cache] cost] (HA & _ & HA_get).
    destruct (np_argmax_axis0 A) as [Ypred|] eqn:Harg.
    + cbn [mbind result_bind]. apply returns_ok.
      apply np_argmax_axis0_Ok in Harg as (n & m' & HAs & Hn & HY & HY_get).
      destruct HA as [HAs' _]. rewrite HAs' in HAs. injection HAs as <- <-.
      split; [done|]. intros j Hj. rewrite HY_get by done.
      rewrite argmax_from_const; [done|].
      intros i Hi. rewrite !HA_get by lia. unfold softmax_prob.
      by rewrite !HAL_get by lia.
    + exfalso. unfold np_argmax_axis0 in Harg. destruct HA as [HAs _].
      rewrite HAs in Harg. by rewrite decide_False in Harg.
Qed.

Lemma classify_returns_first_argmax_witness :
  (∀ Ypred, classify conv_ex_X (zero_dense_parameters (3125 :: [] ++ [2]))
              conv_ex_parameters = Ok Ypred →
     ∃ A0 convCache AL caches A cache cost n m',
       conv_forward conv_ex_X conv_ex_parameters = Ok (A0, convCache) ∧
       multi_layer_forward A0 (zero_dense_parameters (3125 :: [] ++ [2]))
         = Ok (AL, caches) ∧
       softmax_cross_entropy_loss AL [] = Ok (A, cache, cost) ∧
       shape A = [n; m'] ∧ has_shape Ypred [m'] ∧
       ∀ j, j < m' →
         ∃ k, nd_get Ypred [j] = Z.of_nat k ∧ is_first_argmax A n j k) ∧
  returns (classify (np_zeros [28; 28; 1])
             (zero_dense_parameters (3125 :: [] ++ [2]))
             zero_conv_parameters)
    (λ Ypred, has_shape Ypred [1] ∧ ∀ j, j < 1 → nd_get Ypred [j] = 0%Z).
Proof.
  apply (classify_returns_first_argmax conv_ex_X
           (zero_dense_parameters (3125 :: [] ++ [2])) conv_ex_parameters
           1 [] 2).
  lia.
Defined.

(** ** The dense stack on a well-formed store *)

Lemma for_each_rev_seq_inv {St} (body : nat → St → result St)
    (P : nat → St → Prop) n s :
  P n s →
  (∀ k s, 1 ≤ k ≤ n → P k s → returns (body k s) (P (k - 1))) →
  returns (for_each (reverse (seq 1 n)) body s) (P 0).
Proof.
  revert s. induction n as [|n IH]; intros s Hs Hbody.
  - simpl. by apply returns_ok.
  - rewrite seq_S, reverse_app. simpl.
    eapply returns_bind; [apply (Hbody (S n)); [lia|done]|].
    intros s' Hs'. replace (S n - 1) with n in Hs' by lia.
    apply IH; [done|]. intros k s'' Hk. apply Hbody. lia.
Qed.

Lemma layer_forward_relu_cache (A_prev W b : ndarray R) n p m :
  is_matrix A_prev p m → is_matrix W n p → is_matrix b n 1 →
  returns (layer_forward A_prev W b "relu") (λ '(A, cache),
    is_matrix A n m ∧ is_layer_cache cache p n m "relu" ∧
    ∀ i j, i < n → j < m → (0 <= nd_get A [i; j])%R).
Proof.
  intros HA HW Hb. unfold layer_forward.
  eapply returns_bind; [by eapply linear_forward_spec|].
  intros [Z lc] (HZ & -> & HZ_get).
  rewrite decide_True by done.
  simpl. apply returns_ok. split_and!; [by apply has_shape_map| |].
  - split.
    + exists A_prev. split; [apply lookup_insert_eq|done].
    + intros _. exists Z. split; [apply lookup_insert_eq|done].
  - intros i j Hi Hj.
    rewrite (nd_get_map _ _ [n; m]) by (done || by apply in_bounds2).
    apply Rmax_l.
Qed.

Lemma layer_forward_linear_cache (A_prev W b : ndarray R) n p m :
  is_matrix A_prev p m → is_matrix W n p → is_matrix b n 1 →
  returns (layer_forward A_prev W b "linear") (λ '(A, cache),
    is_matrix A n m ∧ is_layer_cache cache p n m "linear").
Proof.
  intros HA HW Hb.
  eapply returns_weaken; [by eapply layer_forward_linear|].
  intros [A cache] (HAs & -> & _). split; [done|]. split.
  - exists A_prev. split; [apply lookup_insert_eq|done].
  - intros [=].
Qed.

Lemma half_double_size (parameters : cache_t) (net_dims : list nat) :
  is_dense_store parameters net_dims →
  size parameters / 2 = length net_dims - 1.
Proof.
  intros [-> _]. rewrite Nat.mul_comm. apply Nat.div_mul. lia.
Qed.

(** The forward pass of a well-formed dense stack over [m] samples returns
    the scores of the last layer and one cache per layer. *)
Lemma multi_layer_forward_fits (X : ndarray R) (parameters : cache_t)
    (net_dims : list nat) (m : nat) :
  is_dense_store parameters net_dims → 2 ≤ length net_dims →
  is_matrix X (net_dims !!! 0) m →
  returns (multi_layer_forward X parameters) (λ '(AL, caches),
    is_matrix AL (net_dims !!! (length net_dims - 1)) m ∧
    caches_fit caches net_dims m).
Proof.
  intros Hstore Hlen HX. unfold multi_layer_forward.
  rewrite (half_double_size _ _ Hstore).
  destruct Hstore as [_ Hget].
  set (L := length net_dims - 1) in *.
  eapply returns_bind.
  - replace L with (1 + (L - 1)) at 2 by lia.
    apply (for_each_seq_inv _
      (λ k '(A, caches),
         is_matrix A (net_dims !!! (k - 1)) m ∧ length caches = k - 1 ∧
         ∀ l cache, caches !! l = Some cache →
           is_layer_cache cache (net_dims !!! l) (net_dims !!! (l + 1)) m "relu")
      1 (L - 1)).
    + split_and!; [done..|]. intros l cache Hl. by rewrite lookup_nil in Hl.
    + intros k [A caches] Hk (HA & Hcl & Hcs).
      destruct (Hget k ltac:(lia)) as (W & b & HW & Hb & HWs & Hbs).
      rewrite (dict_get_Some _ _ _ HW), (dict_get_Some _ _ _ Hb).
      cbn [mbind result_bind].
      eapply returns_bind;
        [by eapply (layer_forward_relu_cache A W b)|].
      intros [A' cache] (HA' & Hcache & _). apply returns_ok.
      replace (S k - 1) with k by lia. split_and!; [done| |].
      * rewrite length_app. simpl. lia.
      * intros l c Hl. apply lookup_app_Some in Hl as [Hl|[Hge Hl]].
        { by apply Hcs. }
        rewrite Hcl in Hl, Hge.
        apply list_lookup_singleton_Some in Hl as [Hl0 <-].
        assert (l = k - 1) as -> by lia.
        by replace (k - 1 + 1) with k by lia.
  - intros [A caches] (HA & Hcl & Hcs).
    replace (1 + (L - 1) - 1) with (L - 1) in HA, Hcl by lia.
    destruct (Hget L ltac:(lia)) as (W & b & HW & Hb & HWs & Hbs).
    rewrite (dict_get_Some _ _ _ HW), (dict_get_Some _ _ _ Hb).
    cbn [mbind result_bind].
    eapply returns_bind;
      [by eapply (layer_forward_linear_cache A W b)|].
    intros [AL cache] [HAL Hcache]. apply returns_ok.
    split; [done|]. split.
    + rewrite length_app. simpl. lia.
    + intros l c Hl. rewrite length_app. simpl.
      apply lookup_app_Some in Hl as [Hl|[Hge Hl]].
      * rewrite decide_False.
        2:{ apply lookup_lt_Some in Hl. lia. }
        by apply Hcs.
      * apply list_lookup_singleton_Some in Hl as [Hl0 <-].
        rewrite decide_True by lia.
        assert (l = L - 1) as -> by lia.
        by replace (L - 1 + 1) with L by lia.
Qed.

Lemma relu_der_values (dA Z : ndarray R) (cache : cache_t) sh :
  cache !! "Z" = Some Z → has_shape Z sh → has_shape dA sh →
  returns (relu_der dA cache) (λ dZ, has_shape dZ sh ∧
    ∀ idx, in_bounds sh idx →
      nd_get dZ idx = if decide (nd_get Z idx < 0)%R then 0%R else nd_get dA idx).
Proof.
  intros Hc HZ HdA. unfold relu_der.
  rewrite (dict_get_Some _ _ _ Hc). cbn [mbind result_bind].
  unfold np_setmask. simpl.
  destruct HZ as [HZs HZl], HdA as [HdAs HdAl].
  rewrite decide_True by congruence. cbn [mbind result_bind].
  apply returns_ok. split; [by apply has_shape_update|].
  intros idx Hidx.
  rewrite (nd_get_update _ _ sh) by done.
  rewrite (nd_get_map _ _ sh) by done.
  case_decide.
  - by rewrite bool_decide_true.
  - by rewrite bool_decide_false.
Qed.

Lemma layer_backward_fits (dA W b : ndarray R) (cache : layer_cache)
    (activation : string) n p m :
  activation = "relu" ∨ activation = "linear" →
  is_layer_cache cache p n m activation →
  is_matrix dA n m → is_matrix W n p →
  returns (layer_backward dA cache W b activation) (λ '(dA_prev, dW, db),
    is_matrix dA_prev p m ∧ is_matrix dW n p ∧ is_matrix db n 1).
Proof.
  intros Hact [(A & HA & HAs) HZ] HdA HW. unfold layer_backward.
  eapply returns_bind with (P := λ dZ, is_matrix dZ n m).
  - destruct Hact as [-> | ->].
    + rewrite decide_True by done.
      destruct (HZ eq_refl) as (Z & HZk & HZs).
      eapply returns_weaken; [by eapply relu_der_values|].
      by intros dZ [? _].
    + rewrite decide_False by done. rewrite decide_True by done.
      by apply returns_ok.
  - intros dZ HdZ.
    eapply returns_weaken; [by eapply (linear_backward_spec dZ A W b)|].
    intros [[dA_prev dW] db] (? & ? & ? & _). done.
Qed.

Lemma dW_key_inj a b : "dW" +:+ str a = "dW" +:+ str b → a = b.
Proof. simpl. intros [= H]. by apply str_inj. Qed.

Lemma db_key_inj a b : "db" +:+ str a = "db" +:+ str b → a = b.
Proof. simpl. intros [= H]. by apply str_inj. Qed.

(** The backward pass over the caches of a forward pass returns one
    gradient of the shape of every parameter, and the gradient with
    respect to the input of the stack. *)
Lemma multi_layer_backward_fits (dAL : ndarray R) (caches : list layer_cache)
    (parameters : cache_t) (net_dims : list nat) (m : nat) :
  is_dense_store parameters net_dims → caches_fit caches net_dims m →
  is_matrix dAL (net_dims !!! (length net_dims - 1)) m →
  returns (multi_layer_backward dAL caches parameters) (λ gradients,
    is_dense_gradients gradients net_dims m).
Proof.
  intros [_ Hget] [Hcl Hcs] HdAL. unfold multi_layer_backward.
  rewrite Hcl. set (L := length net_dims - 1) in *.
  eapply returns_bind.
  - apply (for_each_rev_seq_inv _
      (λ k '(dA, gradients, activation),
         is_matrix dA (net_dims !!! k) m ∧
         activation = (if decide (k = L) then "linear" else "relu") ∧
         ∀ l, k < l ≤ L →
           ∃ dW db, (gradients : cache_t) !! ("dW" +:+ str l) = Some dW ∧
                    gradients !! ("db" +:+ str l) = Some db ∧
                    is_matrix dW (net_dims !!! l) (net_dims !!! (l - 1)) ∧
                    is_matrix db (net_dims !!! l) 1) L).
    + split_and!; [done | by rewrite decide_True | intros; lia].
    + intros k [[dA gradients] activation] Hk (HdA & -> & Hg).
      destruct (lookup_lt_is_Some_2 caches (k - 1)) as [cache Hcache]; [lia|].
      unfold list_get. rewrite Hcache. cbn [mbind result_bind].
      destruct (Hget k ltac:(lia)) as (W & b & HW & Hb & HWs & Hbs).
      rewrite (dict_get_Some _ _ _ HW), (dict_get_Some _ _ _ Hb).
      cbn [mbind result_bind].
      pose proof (Hcs _ _ Hcache) as Hlc.
      replace (k - 1 + 1) with k in Hlc by lia. rewrite Hcl in Hlc.
      eapply returns_bind.
      { eapply (layer_backward_fits dA W b cache _ (net_dims !!! k)
                  (net_dims !!! (k - 1)) m); [|done..].
        case_decide; [by right | by left]. }
      intros [[dA_prev dW] db] (HdAp & HdW & Hdb). apply returns_ok.
      split_and!; [done| |].
      * rewrite decide_False by lia. done.
      * intros l Hl. destruct (decide (l = k)) as [->|Hne].
        -- exists dW, db. split_and!; [|apply lookup_insert_eq|done..].
           rewrite lookup_insert_ne by (simpl; by intros [=]).
           apply lookup_insert_eq.
        -- destruct (Hg l ltac:(lia)) as (dW' & db' & ? & ? & ? & ?).
           exists dW', db'. split_and!; [| |done..].
           ++ rewrite lookup_insert_ne by (simpl; by intros [=]).
              rewrite lookup_insert_ne by (intros E%dW_key_inj; lia). done.
           ++ rewrite lookup_insert_ne by (intros E%db_key_inj; lia).
              rewrite lookup_insert_ne by (simpl; by intros [=]). done.
  - intros [[dA gradients] activation] (HdA & _ & Hg). apply returns_ok.
    split.
    + exists dA. split; [apply lookup_insert_eq|done].
    + intros l Hl. destruct (Hg l ltac:(lia)) as (dW & db & ? & ? & ? & ?).
      exists dW, db. split_and!; [| |done..].
      * rewrite lookup_insert_ne by (simpl; by intros [=]). done.
      * rewrite lookup_insert_ne by (simpl; by intros [=]). done.
Qed.

(** ** Gradient descent on a store *)

(** [parameters[k] -= alpha * gradients["d" + k]] on arrays of one shape. *)
Lemma isub_scaled_step (alpha : R) (parameters gradients : cache_t)
    (k : string) (p g : ndarray R) sh :
  parameters !! k = Some p → gradients !! ("d" +:+ k) = Some g →
  has_shape p sh → has_shape g sh →
  ∃ p', isub_scaled alpha gradients k ("d" +:+ k) parameters
          = (<[k := p']> parameters, Ok ()) ∧
        has_shape p' sh ∧
        ∀ idx, in_bounds sh idx →
          nd_get p' idx = (nd_get p idx - alpha * nd_get g idx)%R.
Proof.
  intros Hp Hg Hps Hgs. unfold isub_scaled.
  rewrite (dict_get_Some _ _ _ Hp), (dict_get_Some _ _ _ Hg).
  cbn [mbind result_bind].
  destruct (np_binop_scalar_l Rmult (nd_scalar alpha) g sh)
    as (ag & Hag & Hags & Hag_get); [apply has_shape_scalar | done |].
  rewrite Hag. cbn [mbind result_bind].
  assert (Hiop : returns (np_iop Rminus p ag) (λ r, has_shape r sh ∧
            ∀ idx, in_bounds sh idx →
              nd_get r idx = Rminus (nd_get p idx) (nd_get ag idx))).
  { destruct sh as [|d sh].
    - unfold np_iop. destruct Hps as [Hps' ?]. rewrite Hps'.
      by apply np_binop_same.
    - by apply np_iop_same. }
  destruct Hiop as (p' & Hp' & Hp's & Hp'_get). rewrite Hp'.
  exists p'. split_and!; [done..|].
  intros idx Hidx. rewrite Hp'_get, Hag_get by done.
  by rewrite nd_get_scalar.
Qed.

Lemma for_each_mut_seq_mut {St X K} (c : K → St → St * result ())
    (f g : X → K) xs s :
  for_each_mut xs (λ x, seq_mut (c (f x)) (c (g x))) s
  = for_each_mut (xs ≫= λ x, [f x; g x]) c s.
Proof.
  revert s. induction xs as [|x xs IH]; intros s; [done|].
  cbn [for_each_mut mbind list_bind app]. unfold seq_mut at 1.
  destruct (c (f x) s) as [s1 [[]|e]]; [|done].
  destruct (c (g x) s1) as [s2 [[]|e]]; [|done].
  apply IH.
Qed.

Lemma NoDup_key_pairs {X} (f g : X → string) xs :
  (∀ x y, f x = f y → x = y) → (∀ x y, g x = g y → x = y) →
  (∀ x y, f x ≠ g y) → NoDup xs →
  NoDup (xs ≫= λ x, [f x; g x]).
Proof.
  intros Hf Hg Hfg. induction 1 as [|x xs Hx Hxs IH]; [constructor|].
  cbn [mbind list_bind app]. constructor; [|constructor; [|done]].
  - intros Hin. apply elem_of_cons in Hin as [E|Hin]; [by apply Hfg in E|].
    apply list_elem_of_bind in Hin as (y & Hin & Hy).
    apply elem_of_cons in Hin as [E|Hin].
    + apply Hf in E as ->. done.
    + apply list_elem_of_singleton in Hin. by apply Hfg in Hin.
  - intros Hin. apply list_elem_of_bind in Hin as (y & Hin & Hy).
    apply elem_of_cons in Hin as [E|Hin].
    + symmetry in E. by apply Hfg in E.
    + apply list_elem_of_singleton in Hin. apply Hg in Hin as ->. done.
Qed.

(** The loop [for k in ks: parameters[k] -= alpha * gradients["d" + k]]
    over distinct keys whose gradients fit. *)
Lemma descent_loop (alpha : R) (gradients : cache_t) (ks : list string)
    (parameters : cache_t) :
  NoDup ks → (∀ k, k ∈ ks → gradient_fits parameters gradients k) →
  ∃ parameters',
    for_each_mut ks (λ k, isub_scaled alpha gradients k ("d" +:+ k)) parameters
      = (parameters', Ok ()) ∧
    size parameters' = size parameters ∧
    (∀ k, k ∉ ks → parameters' !! k = parameters !! k) ∧
    (∀ k, k ∈ ks → descent_step_at alpha parameters gradients parameters' k).
Proof.
  intros Hnd. revert parameters.
  induction Hnd as [|k ks Hk Hnd IH]; intros parameters Hfit.
  - exists parameters. split_and!; [done..|]. intros k Hk.
    by apply elem_of_nil in Hk.
  - destruct (Hfit k ltac:(left)) as (p & g & sh & Hp & Hg & Hps & Hgs).
    destruct (isub_scaled_step alpha parameters gradients k p g sh)
      as (p' & Hstep & Hp's & Hp'_get); [done..|].
    destruct (IH (<[k := p']> parameters)) as (ps' & Hloop & Hsz & Hout & Hin).
    { intros k' Hk'.
      destruct (Hfit k' ltac:(by right)) as (q & h & sh' & Hq & Hh & ? & ?).
      exists q, h, sh'. split_and!; [|done..].
      rewrite lookup_insert_ne; [done|]. by intros ->. }
    exists ps'. cbn [for_each_mut]. rewrite Hstep. split_and!.
    + done.
    + rewrite Hsz. apply map_size_insert_Some. by rewrite Hp.
    + intros k' Hk'. apply not_elem_of_cons in Hk' as [Hne Hk'].
      rewrite Hout by done. by rewrite lookup_insert_ne.
    + intros k' Hk'. apply elem_of_cons in Hk' as [->|Hk'].
      * exists p, g, p'. destruct Hps as [<- Hpl].
        split_and!; [done..| |done|done].
        rewrite Hout by done. apply lookup_insert_eq.
      * destruct (Hin k' Hk') as (q & h & q' & Hq & Hh & Hq' & Hq's & Hq'_get).
        exists q, h, q'. split_and!; [|done..].
        rewrite lookup_insert_ne in Hq; [done|]. by intros ->.
Qed.

(** The loop stops at the first key without a gradient; the keys before
    it have been updated. *)
Lemma descent_loop_key_error (alpha : R) (gradients : cache_t)
    (ks1 ks2 : list string) (k : string) (parameters : cache_t) :
  NoDup (ks1 ++ k :: ks2) →
  (∀ k', k' ∈ ks1 → gradient_fits parameters gradients k') →
  is_Some (parameters !! k) → gradients !! ("d" +:+ k) = None →
  ∃ parameters',
    for_each_mut (ks1 ++ k :: ks2)
      (λ k, isub_scaled alpha gradients k ("d" +:+ k)) parameters
      = (parameters', Raise KeyError) ∧
    (∀ k', k' ∉ ks1 → parameters' !! k' = parameters !! k') ∧
    (∀ k', k' ∈ ks1 → descent_step_at alpha parameters gradients parameters' k').
Proof.
  revert parameters. induction ks1 as [|k1 ks1 IH]; intros parameters Hnd Hfit [p Hp] Hg.
  - exists parameters. simpl. unfold isub_scaled.
    rewrite (dict_get_Some _ _ _ Hp). unfold dict_get. rewrite Hg. simpl.
    split_and!; [done..|]. intros k' Hk'. by apply elem_of_nil in Hk'.
  - simpl in Hnd. apply NoDup_cons in Hnd as [Hk1 Hnd].
    destruct (Hfit k1 ltac:(left)) as (p1 & g1 & sh & Hp1 & Hg1 & Hps & Hgs).
    destruct (isub_scaled_step alpha parameters gradients k1 p1 g1 sh)
      as (p' & Hstep & Hp's & Hp'_get); [done..|].
    assert (Hk1k : k1 ≠ k).
    { intros ->. apply Hk1. apply elem_of_app. right. left. }
    destruct (IH (<[k1 := p']> parameters)) as (ps' & Hloop & Hout & Hin).
    + done.
    + intros k' Hk'.
      destruct (Hfit k' ltac:(by right)) as (q & h & sh' & Hq & Hh & ? & ?).
      exists q, h, sh'. split_and!; [|done..].
      rewrite lookup_insert_ne; [done|]. intros ->. apply Hk1.
      apply elem_of_app. by left.
    + exists p. by rewrite lookup_insert_ne.
    + done.
    + exists ps'. cbn [for_each_mut app]. rewrite Hstep. split_and!.
      * done.
      * intros k' Hk'. apply not_elem_of_cons in Hk' as [Hne Hk'].
        rewrite Hout by done. by rewrite lookup_insert_ne.
      * intros k' Hk'. apply elem_of_cons in Hk' as [->|Hk'].
        -- exists p1, g1, p'. destruct Hps as [<- Hpl].
           split_and!; [done..| |done|done].
           rewrite Hout; [apply lookup_insert_eq|].
           intros Hin'. apply Hk1. apply elem_of_app. by left.
        -- destruct (Hin k' Hk') as (q & h & q' & Hq & Hh & Hq' & Hq's & Hq'_get).
           exists q, h, q'. split_and!; [|done..].
           rewrite lookup_insert_ne in Hq; [done|]. intros ->. apply Hk1.
           apply elem_of_app. by left.
Qed.

Lemma convW_key_inj a b : "convW" +:+ str a = "convW" +:+ str b → a = b.
Proof. simpl. intros [= H]. by apply str_inj. Qed.

Lemma convb_key_inj a b : "convb" +:+ str a = "convb" +:+ str b → a = b.
Proof. simpl. intros [= H]. by apply str_inj. Qed.

Lemma convW_key_ne_convb a b : "convW" +:+ str a ≠ "convb" +:+ str b.
Proof. simpl. by intros [=]. Qed.

Lemma elem_of_dense_keys L k :
  k ∈ dense_keys L ↔
  ∃ l, 1 ≤ l ≤ L ∧ (k = "W" +:+ str l ∨ k = "b" +:+ str l).
Proof.
  unfold dense_keys. rewrite list_elem_of_bind. split.
  - intros (l & Hk & Hl). apply elem_of_seq in Hl. exists l. split; [lia|].
    apply elem_of_cons in Hk as [->|Hk]; [by left|].
    apply list_elem_of_singleton in Hk. by right.
  - intros (l & Hl & Hk). exists l. split; [|apply elem_of_seq; lia].
    destruct Hk as [-> | ->]; [left | right; left].
Qed.

Lemma elem_of_conv_keys k :
  k ∈ conv_keys ↔
  ∃ i, i < 5 ∧ (k = "convW" +:+ str (i + 1) ∨ k = "convb" +:+ str (i + 1)).
Proof.
  unfold conv_keys. rewrite list_elem_of_bind. split.
  - intros (i & Hk & Hi). apply elem_of_range in Hi. exists i. split; [lia|].
    apply elem_of_cons in Hk as [->|Hk]; [by left|].
    apply list_elem_of_singleton in Hk. by right.
  - intros (i & Hi & Hk). exists i. split; [|by apply elem_of_range].
    destruct Hk as [-> | ->]; [left | right; left].
Qed.

Lemma NoDup_dense_keys_rev L :
  NoDup (reverse (seq 1 L) ≫= λ l, ["W" +:+ str l; "b" +:+ str l]).
Proof.
  apply NoDup_key_pairs.
  - apply W_key_inj.
  - apply b_key_inj.
  - apply W_key_ne_b.
  - rewrite reverse_Permutation. apply NoDup_seq.
Qed.

Lemma NoDup_conv_keys : NoDup conv_keys.
Proof.
  apply (NoDup_key_pairs (λ i, "convW" +:+ str (i + 1))
                         (λ i, "convb" +:+ str (i + 1))).
  - intros x y E%convW_key_inj. lia.
  - intros x y E%convb_key_inj. lia.
  - intros x y. apply convW_key_ne_convb.
  - apply NoDup_seq.
Qed.

Lemma elem_of_dense_keys_rev L k :
  k ∈ (reverse (seq 1 L) ≫= λ l, ["W" +:+ str l; "b" +:+ str l])
  ↔ k ∈ dense_keys L.
Proof.
  unfold dense_keys. rewrite !list_elem_of_bind.
  by setoid_rewrite elem_of_reverse.
Qed.

(** The dense loop of [update_parameters] and the loop of [update_conv]
    are loops over keys. *)
Lemma update_parameters_unfold (parameters gradients : cache_t) (epoch : int)
    (learning_rate decay_rate : R) :
  (1 + decay_rate * IZR epoch)%R ≠ 0%R →
  update_parameters parameters gradients epoch learning_rate decay_rate
  = let alpha := (learning_rate * (1 / (1 + decay_rate * IZR epoch)))%R in
    match for_each_mut
            (reverse (seq 1 (size parameters / 2))
               ≫= λ l, ["W" +:+ str l; "b" +:+ str l])
            (λ k, isub_scaled alpha gradients k ("d" +:+ k)) parameters with
    | (parameters, Ok _) => (parameters, Ok alpha)
    | (parameters, Raise e) => (parameters, Raise e)
    end.
Proof.
  intros Hrate. unfold update_parameters, py_div.
  rewrite decide_False by done. cbn zeta.
  by rewrite <- (for_each_mut_seq_mut
    (λ k, isub_scaled _ gradients k ("d" +:+ k))
    (λ l, "W" +:+ str l) (λ l, "b" +:+ str l)).
Qed.

Lemma update_conv_unfold (parameters gradients : cache_t) (alpha : R) :
  update_conv parameters gradients alpha
  = for_each_mut conv_keys
      (λ k, isub_scaled alpha gradients k ("d" +:+ k)) parameters.
Proof.
  unfold update_conv, conv_keys.
  by rewrite <- (for_each_mut_seq_mut
    (λ k, isub_scaled _ gradients k ("d" +:+ k))
    (λ i, "convW" +:+ str (i + 1)) (λ i, "convb" +:+ str (i + 1))).
Qed.

Lemma update_parameters_step (parameters gradients : cache_t) (epoch : int)
    (learning_rate decay_rate : R) :
  (1 + decay_rate * IZR epoch)%R ≠ 0%R →
  (∀ k, k ∈ dense_keys (size parameters / 2) →
     gradient_fits parameters gradients k) →
  ∃ parameters',
    update_parameters parameters gradients epoch learning_rate decay_rate
      = (parameters',
         Ok (learning_rate * (1 / (1 + decay_rate * IZR epoch)))%R) ∧
    size parameters' = size parameters ∧
    (∀ k, k ∉ dense_keys (size parameters / 2) →
       parameters' !! k = parameters !! k) ∧
    (∀ k, k ∈ dense_keys (size parameters / 2) →
       descent_step_at (learning_rate * (1 / (1 + decay_rate * IZR epoch)))
         parameters gradients parameters' k).
Proof.
  intros Hrate Hfit. rewrite update_parameters_unfold by done. cbn zeta.
  destruct (descent_loop
              (learning_rate * (1 / (1 + decay_rate * IZR epoch))) gradients
              (reverse (seq 1 (size parameters / 2))
                 ≫= λ l, ["W" +:+ str l; "b" +:+ str l]) parameters)
    as (ps' & Hloop & Hsz & Hout & Hin).
  - apply NoDup_dense_keys_rev.
  - intros k Hk. apply Hfit. by apply elem_of_dense_keys_rev.
  - exists ps'. rewrite Hloop. split_and!; [done..| |].
    + intros k Hk. apply Hout. by rewrite elem_of_dense_keys_rev.
    + intros k Hk. apply Hin. by rewrite elem_of_dense_keys_rev.
Qed.

Lemma update_conv_step (parameters gradients : cache_t) (alpha : R) :
  (∀ k, k ∈ conv_keys → gradient_fits parameters gradients k) →
  ∃ parameters',
    update_conv parameters gradients alpha = (parameters', Ok ()) ∧
    size parameters' = size parameters ∧
    (∀ k, k ∉ conv_keys → parameters' !! k = parameters !! k) ∧
    (∀ k, k ∈ conv_keys →
       descent_step_at alpha parameters gradients parameters' k).
Proof.
  intros Hfit. rewrite update_conv_unfold.
  apply descent_loop; [apply NoDup_conv_keys | done].
Qed.

(** ** The bias gradient of the convolution stage *)

Lemma rsum_add a b f :
  rsum (a + b) f = Rplus (rsum a f) (rsum b (λ j, f (a + j))).
Proof.
  induction b as [|b IH].
  - rewrite Nat.add_0_r, rsum_0. lra.
  - replace (a + S b) with (S (a + b)) by lia. rewrite !rsum_S, IH. lra.
Qed.

Lemma rsum_mul n m f :
  rsum (n * m) f = rsum n (λ i, rsum m (λ j, f (i * m + j))).
Proof.
  induction n as [|n IH].
  - by rewrite !rsum_0.
  - replace (S n * m) with (n * m + m) by lia.
    by rewrite rsum_add, rsum_S, IH.
Qed.

Lemma sumR_lookup (l : list R) : sumR l = rsum (length l) (λ k, l !!! k).
Proof.
  induction l as [|x l IH] using rev_ind; [by rewrite rsum_0|].
  rewrite sumR_app, length_app. simpl. rewrite Nat.add_1_r, rsum_S.
  rewrite IH. f_equal.
  - apply rsum_ext. intros i Hi. by rewrite lookup_total_app_l.
  - rewrite lookup_total_app_r by lia. rewrite Nat.sub_diag. simpl. lra.
Qed.

(** [np.sum] of a matrix is the sum over its rows and columns. *)
Lemma np_sum_matrix (a : ndarray R) n m :
  is_matrix a n m →
  np_sum a = rsum n (λ i, rsum m (λ j, nd_get a [i; j])).
Proof.
  intros [Hs Hl]. unfold np_sum. rewrite sumR_lookup, Hl.
  cbn [size_of foldr]. rewrite Nat.mul_1_r, rsum_mul.
  apply rsum_ext. intros i Hi. apply rsum_ext. intros j Hj.
  unfold nd_get. rewrite Hs. cbn [ravel size_of foldr]. f_equal. lia.
Qed.

Lemma dconvb_key_inj a b : "dconvb" +:+ str a = "dconvb" +:+ str b → a = b.
Proof. simpl. intros [= H]. by apply str_inj. Qed.

(** Both gradients of every filter, as [conv_backward] returns them. *)
Lemma conv_backward_full_spec (dA X : ndarray R) (masks : ndarray int)
    (cache : conv_cache) (parameters : cache_t) m :
  is_matrix dA 3125 m →
  conv_floats cache !! "A" = Some X → has_shape X [28; 28; m] →
  conv_ints cache !! "masks" = Some masks → has_shape masks [50; 50; 5; m] →
  returns (conv_backward dA cache parameters) (λ gradients,
    ∀ i, i < 5 →
      (∃ dconvW, gradients !! ("dconvW" +:+ str (i + 1)) = Some dconvW ∧
         is_matrix dconvW 3 3 ∧
         ∀ a b, a < 3 → b < 3 →
           nd_get dconvW [a; b]
           = patch_accumulation X (λ s, unpool_entry dA masks s i) m a b) ∧
      gradients !! ("dconvb" +:+ str (i + 1))
      = Some (nd_scalar
                (bias_accumulation (λ s, unpool_entry dA masks s i) m))).
Proof.
  intros HdA HcA HX Hcm Hmasks. unfold conv_backward.
  rewrite (shape_at_matrix1 _ _ _ HdA). cbn [mbind result_bind].
  rewrite (dict_get_Some _ _ _ Hcm). cbn [mbind result_bind].
  eapply returns_bind; [by apply conv_backward_unpool_all|].
  intros dA_prev [Hprev Hprev_get].
  rewrite (shape_at_matrix1 _ _ _ Hprev). cbn [mbind result_bind].
  rewrite (dict_get_Some _ _ _ HcA). cbn [mbind result_bind].
  apply (for_each_range_inv _
    (λ n (gradients : cache_t), ∀ i, i < n →
       (∃ dconvW, gradients !! ("dconvW" +:+ str (i + 1)) = Some dconvW ∧
          is_matrix dconvW 3 3 ∧
          ∀ a b, a < 3 → b < 3 →
            nd_get dconvW [a; b]
            = patch_accumulation X (λ s, unpool_entry dA masks s i) m a b) ∧
       gradients !! ("dconvb" +:+ str (i + 1))
       = Some (nd_scalar
                 (bias_accumulation (λ s, unpool_entry dA masks s i) m)))).
  - intros i Hi. lia.
  - intros n gradients Hn Hinv.
    eapply returns_bind.
    { eapply (np_row_slice_spec dA_prev 3380 m (n * (26 * 26)) ((n + 1) * (26 * 26)));
        [done | lia | lia]. }
    replace ((n + 1) * (26 * 26) - n * (26 * 26)) with 676 by lia.
    intros dZ [HdZ HdZ_get].
    assert (HdZ_unpool : ∀ k s, k < 676 → s < m →
      nd_get dZ [k; s] = unpool_entry dA masks s n (k / 26) (k mod 26)).
    { intros k s Hk Hs. rewrite HdZ_get, Hprev_get by lia.
      replace ((n * (26 * 26) + k) / 676) with n
        by (apply Nat.div_unique with k; lia).
      replace ((n * (26 * 26) + k) mod 676) with k
        by (apply Nat.mod_unique with n; lia).
      done. }
    eapply returns_bind; [by eapply conv_backward_dW_spec|].
    intros dW [HdW HdW_get].
    eapply returns_bind;
      [by eapply np_binop_scalar_r; [|apply has_shape_scalar]|].
    intros dWn [HdWn HdWn_get].
    apply returns_ok. intros i Hi.
    destruct (decide (i = n)) as [->|Hne].
    + split.
      * exists dWn. split_and!; [apply lookup_insert_eq | done |].
        intros a b Ha Hb. rewrite HdWn_get by by apply in_bounds2.
        rewrite nd_get_scalar, HdW_get by done.
        unfold patch_accumulation. change (26 * 26) with 676. f_equal.
        apply rsum_ext. intros k Hk. apply rsum_ext. intros s Hs.
        by rewrite HdZ_unpool.
      * rewrite lookup_insert_ne
          by (intros E; symmetry in E; by apply dconvb_ne_dconvW in E).
        rewrite lookup_insert_eq. do 2 f_equal.
        unfold bias_accumulation. change (26 * 26) with 676. f_equal.
        rewrite (np_sum_matrix dZ 676 m HdZ).
        apply rsum_ext. intros k Hk. apply rsum_ext. intros s Hs.
        by apply HdZ_unpool.
    + destruct (Hinv i ltac:(lia)) as [(g & Hg & Hgs & Hg_get) Hb].
      split.
      * exists g. split_and!; [|done..].
        rewrite lookup_insert_ne by (intros E%dconvW_key_inj; lia).
        rewrite lookup_insert_ne by apply dconvb_ne_dconvW. done.
      * rewrite lookup_insert_ne
          by (intros E; symmetry in E; by apply dconvb_ne_dconvW in E).
        rewrite lookup_insert_ne by (intros E%dconvb_key_inj; lia). done.
Qed.

(** ** One training iteration on a well-formed network *)

Lemma network_loss_returns (X : ndarray R) (Y : list int)
    (parameters convParameters : cache_t) (net_dims : list nat) (m : nat) :
  is_batch X Y net_dims m → is_network (parameters, convParameters) net_dims →
  is_Ok (network_loss X Y parameters convParameters).
Proof.
  intros (HX & Hm & HY & Hlen & H0 & Hn & Hlab) [Hstore (W & b & Hbank)].
  simpl in Hstore, Hbank.
  assert (Hr : returns (network_loss X Y parameters convParameters) (λ _, True)).
  { unfold network_loss.
    eapply returns_bind; [by apply (conv_forward_spec X convParameters W b m)|].
    intros [A0 convCache] (HA0 & _).
    eapply returns_bind.
    { apply (multi_layer_forward_fits A0 parameters net_dims m);
        [done..|by rewrite H0]. }
    intros [AL caches] [HAL Hcaches].
    eapply returns_bind.
    { apply (softmax_forward_returns AL Y _ m HAL Hn); [lia|done]. }
    intros [[A cache] cost] _. by apply returns_ok. }
  destruct Hr as (c & Hc & _). by exists c.
Qed.

Lemma network_gradients_fits (X : ndarray R) (Y : list int)
    (parameters convParameters : cache_t) (net_dims : list nat) (m : nat) :
  is_batch X Y net_dims m → is_network (parameters, convParameters) net_dims →
  returns (network_gradients X Y parameters convParameters)
    (λ '(gradients, convGradients),
       is_dense_gradients gradients net_dims m ∧
       is_conv_gradients convGradients).
Proof.
  intros (HX & Hm & HY & Hlen & H0 & Hn & Hlab) [Hstore (W & b & Hbank)].
  simpl in Hstore, Hbank. unfold network_gradients.
  eapply returns_bind; [by apply (conv_forward_spec X convParameters W b m)|].
  intros [A0 convCache] (HA0 & _ & HcA & masks & Hcm & Hmasks & _).
  eapply returns_bind.
  { apply (multi_layer_forward_fits A0 parameters net_dims m);
      [done..|by rewrite H0]. }
  intros [AL caches] [HAL Hcaches].
  eapply returns_bind.
  { apply (softmax_forward_returns AL Y _ m HAL Hn); [lia|done]. }
  intros [[A cache] cost] (HA & -> & _).
  eapply returns_bind.
  { eapply (softmax_backward_values A Y _ _ m);
      [apply lookup_insert_eq | done | lia | done]. }
  intros dZ [HdZ _].
  eapply returns_bind; [by eapply multi_layer_backward_fits|].
  intros gradients Hg. pose proof Hg as [(dA & HdA & HdAs) _].
  rewrite (dict_get_Some _ _ _ HdA). cbn [mbind result_bind].
  rewrite H0 in HdAs.
  eapply returns_bind;
    [by apply (conv_backward_full_spec dA X masks convCache convParameters m)|].
  intros convGradients Hcg. apply returns_ok. split; [done|].
  intros i Hi. destruct (Hcg i Hi) as [(dW & ? & ? & _) Hdb]. split.
  - by exists dW.
  - eexists. split; [done | apply has_shape_scalar].
Qed.

Lemma dense_gradient_fits (parameters gradients : cache_t)
    (net_dims : list nat) (m : nat) (k : string) :
  is_dense_store parameters net_dims → is_dense_gradients gradients net_dims m →
  k ∈ dense_keys (size parameters / 2) → gradient_fits parameters gradients k.
Proof.
  intros Hstore [_ Hg] Hk. rewrite (half_double_size _ _ Hstore) in Hk.
  destruct Hstore as [_ Hp].
  apply elem_of_dense_keys in Hk as (l & Hl & Hk).
  destruct (Hp l Hl) as (W & b & HW & Hb & HWs & Hbs).
  destruct (Hg l Hl) as (dW & db & HdW & Hdb & HdWs & Hdbs).
  destruct Hk as [-> | ->]; eexists _, _, _; split_and!; done.
Qed.

Lemma conv_gradient_fits (parameters gradients : cache_t)
    (W b : nat → ndarray R) (k : string) :
  is_filter_bank parameters W b → is_conv_gradients gradients →
  k ∈ conv_keys → gradient_fits parameters gradients k.
Proof.
  intros Hbank Hg Hk.
  apply elem_of_conv_keys in Hk as (i & Hi & Hk).
  destruct (Hbank i Hi) as (HW & Hb & HWs & Hbs).
  destruct (Hg i Hi) as [(dW & HdW & HdWs) (db & Hdb & Hdbs)].
  destruct Hk as [-> | ->]; eexists _, _, _; split_and!; done.
Qed.

Lemma descent_keeps_dense_store (alpha : R)
    (parameters gradients parameters' : cache_t) (net_dims : list nat) :
  is_dense_store parameters net_dims →
  size parameters' = size parameters →
  (∀ k, k ∈ dense_keys (size parameters / 2) →
     descent_step_at alpha parameters gradients parameters' k) →
  is_dense_store parameters' net_dims.
Proof.
  intros Hstore Hsz Hin. rewrite (half_double_size _ _ Hstore) in Hin.
  destruct Hstore as [Hsize Hp]. split; [congruence|].
  intros l Hl. destruct (Hp l Hl) as (W & b & HW & Hb & HWs & Hbs).
  destruct (Hin ("W" +:+ str l)) as (p & g & p' & Hp1 & _ & Hp' & Hp's & _).
  { apply elem_of_dense_keys. exists l. split; [done | by left]. }
  destruct (Hin ("b" +:+ str l)) as (q & h & q' & Hq1 & _ & Hq' & Hq's & _).
  { apply elem_of_dense_keys. exists l. split; [done | by right]. }
  exists p', q'. split_and!; [done..| |].
  - rewrite HW in Hp1. injection Hp1 as <-. destruct HWs as [HWs _].
    by rewrite HWs in Hp's.
  - rewrite Hb in Hq1. injection Hq1 as <-. destruct Hbs as [Hbs _].
    by rewrite Hbs in Hq's.
Qed.

Lemma descent_keeps_filter_bank (alpha : R)
    (parameters gradients parameters' : cache_t) (W b : nat → ndarray R) :
  is_filter_bank parameters W b →
  (∀ k, k ∈ conv_keys →
     descent_step_at alpha parameters gradients parameters' k) →
  ∃ W' b', is_filter_bank parameters' W' b'.
Proof.
  intros Hbank Hin.
  exists (λ i, default (W i) (parameters' !! ("convW" +:+ str (i + 1)))),
         (λ i, default (b i) (parameters' !! ("convb" +:+ str (i + 1)))).
  intros i Hi. destruct (Hbank i Hi) as (HW & Hb & HWs & Hbs).
  destruct (Hin ("convW" +:+ str (i + 1)))
    as (p & g & p' & Hp1 & _ & Hp' & Hp's & _).
  { apply elem_of_conv_keys. exists i. split; [done | by left]. }
  destruct (Hin ("convb" +:+ str (i + 1)))
    as (q & h & q' & Hq1 & _ & Hq' & Hq's & _).
  { apply elem_of_conv_keys. exists i. split; [done | by right]. }
  rewrite Hp', Hq'. simpl. split_and!; [done..| |].
  - rewrite HW in Hp1. injection Hp1 as <-. destruct HWs as [HWs _].
    by rewrite HWs in Hp's.
  - rewrite Hb in Hq1. injection Hq1 as <-. destruct Hbs as [Hbs _].
    by rewrite Hbs in Hq's.
Qed.

(** The update of a network with gradients that fit returns the rate and
    a network of the same widths. *)
Lemma update_step_fits (stores : cache_t * cache_t)
    (gradients convGradients : cache_t) (net_dims : list nat) (m : nat)
    (epoch : int) (learning_rate decay_rate : R) :
  is_network stores net_dims →
  is_dense_gradients gradients net_dims m → is_conv_gradients convGradients →
  (1 + decay_rate * IZR epoch)%R ≠ 0%R →
  ∃ stores',
    update_step stores gradients convGradients epoch learning_rate decay_rate
      = (stores', Ok (learning_rate * (1 / (1 + decay_rate * IZR epoch)))%R) ∧
    is_network stores' net_dims.
Proof.
  destruct stores as [parameters convParameters].
  intros [Hstore (W & b & Hbank)] Hg Hcg Hrate. simpl in Hstore, Hbank.
  destruct (update_parameters_step parameters gradients epoch
              learning_rate decay_rate Hrate)
    as (ps' & Hup & Hsz & _ & Hin).
  { intros k Hk. by eapply dense_gradient_fits. }
  destruct (update_conv_step convParameters convGradients
              (learning_rate * (1 / (1 + decay_rate * IZR epoch))))
    as (cps' & Hupc & _ & _ & Hinc).
  { intros k Hk. by eapply conv_gradient_fits. }
  exists (ps', cps'). unfold update_step. rewrite Hup, Hupc. split; [done|].
  split; simpl.
  - by eapply descent_keeps_dense_store.
  - by eapply descent_keeps_filter_bank.
Qed.

(** The loop body is the loss, the gradients and the update of the
    network, in this order. *)
Lemma training_iteration_unfold (X : ndarray R) (Y : list int)
    (learning_rate decay_rate : R) (ii : nat) (costs : list R)
    (parameters convParameters : cache_t) :
  training_iteration X Y learning_rate decay_rate ii
    (costs, parameters, convParameters)
  = (cost ← network_loss X Y parameters convParameters;
     '(gradients, convGradients) ←
       network_gradients X Y parameters convParameters;
     match update_step (parameters, convParameters) gradients convGradients
             (Z.of_nat ii) learning_rate decay_rate with
     | (_, Raise e) => Raise e
     | ((parameters, convParameters), Ok _) =>
         Ok (if decide (ii mod 10 = 0) then costs ++ [cost] else costs,
             parameters, convParameters)
     end).
Proof.
  unfold training_iteration, network_loss, network_gradients, update_step.
  destruct (conv_forward X convParameters) as [[A0 convCache]|]; [|done].
  cbn [mbind result_bind].
  destruct (multi_layer_forward A0 parameters) as [[AL caches]|]; [|done].
  cbn [mbind result_bind].
  destruct (softmax_cross_entropy_loss AL Y) as [[[A cache] cost]|]; [|done].
  cbn [mbind result_bind].
  destruct (softmax_cross_entropy_loss_der Y cache) as [dZ|]; [|done].
  cbn [mbind result_bind].
  destruct (multi_layer_backward dZ caches parameters) as [gradients|]; [|done].
  cbn [mbind result_bind].
  destruct (dict_get gradients "dA") as [dA|]; [|done].
  cbn [mbind result_bind].
  destruct (conv_backward dA convCache convParameters) as [convGradients|];
    [|done].
  cbn [mbind result_bind].
  destruct (update_parameters _ _ _ _ _) as [ps' [alpha|e]]; [|done].
  by destruct (update_conv _ _ _) as [cps' [[]|e]].
Qed.

Lemma training_iteration_fits (X : ndarray R) (Y : list int)
    (learning_rate decay_rate : R) (ii : nat) (costs : list R)
    (parameters convParameters : cache_t) (net_dims : list nat) (m : nat) :
  is_batch X Y net_dims m → is_network (parameters, convParameters) net_dims →
  (1 + decay_rate * IZR (Z.of_nat ii))%R ≠ 0%R →
  ∃ cost parameters' convParameters',
    network_loss X Y parameters convParameters = Ok cost ∧
    training_iteration X Y learning_rate decay_rate ii
      (costs, parameters, convParameters)
    = Ok (if decide (ii mod 10 = 0) then costs ++ [cost] else costs,
          parameters', convParameters') ∧
    is_network (parameters', convParameters') net_dims.
Proof.
  intros Hbatch Hnet Hrate.
  destruct (network_loss_returns X Y parameters convParameters net_dims m)
    as [cost Hcost]; [done..|].
  destruct (network_gradients_fits X Y parameters convParameters net_dims m)
    as ([g cg] & Hgrad & Hg & Hcg); [done..|].
  destruct (update_step_fits (parameters, convParameters) g cg net_dims m
              (Z.of_nat ii) learning_rate decay_rate)
    as ([ps' cps'] & Hup & Hnet'); [done..|].
  exists cost, ps', cps'. split; [done|]. split; [|done].
  rewrite training_iteration_unfold, Hcost. cbn [mbind result_bind].
  rewrite Hgrad. cbn [mbind result_bind]. by rewrite Hup.
Qed.

(** ** Initialisation *)

Lemma has_shape_randn (rng : nat → R) pos sh :
  has_shape (randn_scaled rng pos sh) sh.
Proof. split; [done|]. simpl. by rewrite length_fmap, length_seq. Qed.

Lemma initialize_multilayer_weights_fits (rng : nat → R) (net_dims : list nat) :
  returns (initialize_multilayer_weights rng net_dims) (λ stores,
    is_network stores net_dims).
Proof.
  unfold initialize_multilayer_weights.
  set (L := length net_dims - 1).
  eapply returns_bind.
  - apply (for_each_range_inv _
      (λ n '(parameters, pos),
         n ≤ L ∧ size (parameters : cache_t) = 2 * n ∧
         (∀ k, is_Some (parameters !! k) →
            ∃ l, 1 ≤ l ≤ n ∧ (k = "W" +:+ str l ∨ k = "b" +:+ str l)) ∧
         ∀ l, 1 ≤ l ≤ n →
           ∃ W b, parameters !! ("W" +:+ str l) = Some W ∧
                  parameters !! ("b" +:+ str l) = Some b ∧
                  is_matrix W (net_dims !!! l) (net_dims !!! (l - 1)) ∧
                  is_matrix b (net_dims !!! l) 1)).
    + split_and!; [lia | done | | intros; lia].
      intros k [? Hk]. by rewrite lookup_empty in Hk.
    + intros n [parameters pos] Hn (_ & Hsz & Hdom & Hget).
      destruct (lookup_lt_is_Some_2 net_dims (n + 1)) as [d1 Hd1]; [lia|].
      destruct (lookup_lt_is_Some_2 net_dims n) as [d0 Hd0]; [lia|].
      unfold list_get. rewrite Hd1, Hd0. cbn [mbind result_bind].
      apply returns_ok.
      assert (HW : parameters !! ("W" +:+ str (n + 1)) = None).
      { apply eq_None_not_Some. intros (l & Hl & [E|E])%Hdom.
        - apply W_key_inj in E. lia.
        - by apply W_key_ne_b in E. }
      assert (Hb : parameters !! ("b" +:+ str (n + 1)) = None).
      { apply eq_None_not_Some. intros (l & Hl & [E|E])%Hdom.
        - symmetry in E. by apply W_key_ne_b in E.
        - apply b_key_inj in E. lia. }
      assert (E1 : net_dims !!! (n + 1) = d1)
        by by apply list_lookup_total_correct.
      assert (E0 : net_dims !!! n = d0) by by apply list_lookup_total_correct.
      split_and!.
      * lia.
      * rewrite map_size_insert_None.
        2:{ rewrite lookup_insert_ne by apply W_key_ne_b. done. }
        rewrite map_size_insert_None by done. lia.
      * intros k Hk.
        destruct (decide (k = "b" +:+ str (n + 1))) as [->|Hkb].
        { exists (n + 1). split; [lia | by right]. }
        rewrite lookup_insert_ne in Hk by done.
        destruct (decide (k = "W" +:+ str (n + 1))) as [->|HkW].
        { exists (n + 1). split; [lia | by left]. }
        rewrite lookup_insert_ne in Hk by done.
        destruct (Hdom k Hk) as (l & Hl & Hkl). exists l. split; [lia|done].
      * intros l Hl. destruct (decide (l = n + 1)) as [->|Hne].
        -- eexists _, _. split_and!.
           ++ rewrite lookup_insert_ne
                by (intros E; symmetry in E; by apply W_key_ne_b in E).
              apply lookup_insert_eq.
           ++ apply lookup_insert_eq.
           ++ replace (n + 1 - 1) with n by lia. rewrite E1, E0.
              apply has_shape_randn.
           ++ rewrite E1. apply has_shape_randn.
        -- destruct (Hget l ltac:(lia)) as (W & b & HWl & Hbl & ? & ?).
           exists W, b. split_and!; [| |done..].
           ++ rewrite lookup_insert_ne
                by (intros E; symmetry in E; by apply W_key_ne_b in E).
              rewrite lookup_insert_ne by (intros E%W_key_inj; lia). done.
           ++ rewrite lookup_insert_ne by (intros E%b_key_inj; lia).
              rewrite lookup_insert_ne by apply W_key_ne_b. done.
  - intros [parameters pos] (_ & Hsz & _ & Hget).
    eapply returns_bind.
    + apply (for_each_range_inv _
        (λ n '(convParameters, pos),
           ∀ i, i < n →
             ∃ W b, (convParameters : cache_t) !! ("convW" +:+ str (i + 1)) = Some W ∧
                    convParameters !! ("convb" +:+ str (i + 1)) = Some b ∧
                    has_shape W [3; 3] ∧ has_shape b [])).
      * intros i Hi. lia.
      * intros n [convParameters pos'] Hn Hinv. apply returns_ok.
        intros i Hi. destruct (decide (i = n)) as [->|Hne].
        -- eexists _, _. split_and!.
           ++ rewrite lookup_insert_ne
                by (intros E; symmetry in E; by apply convW_key_ne_convb in E).
              apply lookup_insert_eq.
           ++ apply lookup_insert_eq.
           ++ apply has_shape_randn.
           ++ apply has_shape_randn.
        -- destruct (Hinv i ltac:(lia)) as (W & b & HW & Hb & ? & ?).
           exists W, b. split_and!; [| |done..].
           ++ rewrite lookup_insert_ne
                by (intros E; symmetry in E; by apply convW_key_ne_convb in E).
              rewrite lookup_insert_ne by (intros E%convW_key_inj; lia). done.
           ++ rewrite lookup_insert_ne by (intros E%convb_key_inj; lia).
              rewrite lookup_insert_ne by apply convW_key_ne_convb. done.
    + intros [convParameters pos'] Hconv. apply returns_ok. split; simpl.
      * split; [done|]. intros l Hl. by apply Hget.
      * exists (λ i, default (np_zeros [3; 3])
                       (convParameters !! ("convW" +:+ str (i + 1)))),
               (λ i, default (nd_scalar 0%R)
                       (convParameters !! ("convb" +:+ str (i + 1)))).
        intros i Hi. destruct (Hconv i Hi) as (W & b & HW & Hb & ? & ?).
        rewrite HW, Hb. done.
Qed.

(** The order in which the numbers are drawn, on the widths [2; 1] and
    with the stream 0, 1, 2, ...: the two weights, the bias, then nine
    numbers and one number for every filter. *)
Example initialize_multilayer_weights_example :
  ∃ parameters convParameters,
    initialize_multilayer_weights (λ k, INR k) [2; 1]
      = Ok (parameters, convParameters) ∧
    parameters !! "W1" = Some (NdArray [1; 2] [INR 0 * 0.01; INR 1 * 0.01]%R) ∧
    parameters !! "b1" = Some (NdArray [1; 1] [INR 2 * 0.01]%R) ∧
    convParameters !! "convb1" = Some (NdArray [] [INR 12 * 0.01]%R) ∧
    convParameters !! "convb2" = Some (NdArray [] [INR 22 * 0.01]%R).
Proof.
  eexists _, _. split; [reflexivity|]. split_and!; reflexivity.
Qed.

(** ** The training loop *)

Lemma rate_Z_of_nat (decay_rate : R) (ii : nat) :
  (1 + decay_rate * IZR (Z.of_nat ii))%R = (1 + decay_rate * INR ii)%R.
Proof. by rewrite <- INR_IZR_INZ. Qed.

Lemma logged_costs_S n :
  (S n + 9) / 10
  = if decide (n mod 10 = 0) then S ((n + 9) / 10) else (n + 9) / 10.
Proof.
  pose proof (Nat.div_mod_eq n 10).
  pose proof (Nat.div_mod_eq (S n + 9) 10).
  pose proof (Nat.div_mod_eq (n + 9) 10).
  pose proof (Nat.mod_upper_bound (S n + 9) 10 ltac:(lia)).
  pose proof (Nat.mod_upper_bound (n + 9) 10 ltac:(lia)).
  pose proof (Nat.mod_upper_bound n 10 ltac:(lia)).
  case_decide; lia.
Qed.

(** Training a well-formed network on a well-formed batch runs to the end
    and keeps the network well formed. *)
Lemma multi_layer_network_fits (rng : nat → R) (X : ndarray R) (Y : list int)
    (net_dims : list nat) (num_iterations : nat)
    (learning_rate decay_rate : R) (m : nat) :
  is_batch X Y net_dims m →
  (∀ ii, ii < num_iterations → (1 + decay_rate * INR ii)%R ≠ 0%R) →
  returns (multi_layer_network rng X Y net_dims num_iterations
             learning_rate decay_rate)
    (λ '(costs, parameters, convParameters),
       length costs = (num_iterations + 9) / 10 ∧
       is_network (parameters, convParameters) net_dims).
Proof.
  intros Hbatch Hrate. unfold multi_layer_network.
  eapply returns_bind; [apply initialize_multilayer_weights_fits|].
  intros [parameters convParameters] Hnet.
  apply (for_each_range_inv _
    (λ n '(costs, parameters, convParameters),
       length costs = (n + 9) / 10 ∧
       is_network (parameters, convParameters) net_dims)).
  - done.
  - intros n [[costs ps] cps] Hn [Hlen Hnet'].
    destruct (training_iteration_fits X Y learning_rate decay_rate n costs
                ps cps net_dims m)
      as (cost & ps' & cps' & _ & Hit & Hnet''); [done..| |].
    { rewrite rate_Z_of_nat. by apply Hrate. }
    rewrite Hit. apply returns_ok. split; [|done].
    rewrite logged_costs_S. case_decide; [|done].
    rewrite length_app. cbn [length]. lia.
Qed.

(** Without dense layers the forward pass has no layer to read. *)
Lemma multi_layer_forward_small_store (X : ndarray R) (parameters : cache_t) :
  size parameters < 2 → multi_layer_forward X parameters = Raise KeyError.
Proof.
  intros Hsz. unfold multi_layer_forward.
  rewrite Nat.div_small by done. cbn [seq for_each Nat.sub mbind result_bind].
  unfold dict_get.
  destruct (parameters !! ("W" +:+ str 0)) as [W|] eqn:HW; [|done].
  cbn [mbind result_bind].
  destruct (parameters !! ("b" +:+ str 0)) as [b|] eqn:Hb; [|done].
  exfalso.
  assert (Hd : size (delete ("W" +:+ str 0) parameters) = 0).
  { rewrite map_size_delete_Some by by rewrite HW. lia. }
  apply map_size_empty_inv in Hd.
  assert (Hb' : delete ("W" +:+ str 0) parameters !! ("b" +:+ str 0) = Some b).
  { rewrite lookup_delete_ne by apply W_key_ne_b. done. }
  by rewrite Hd, lookup_empty in Hb'.
Qed.

Lemma multi_layer_network_no_layers (rng : nat → R) (X : ndarray R)
    (Y : list int) (net_dims : list nat) (num_iterations : nat)
    (learning_rate decay_rate : R) (m : nat) :
  has_shape X [28; 28; m] → length net_dims < 2 → 1 ≤ num_iterations →
  multi_layer_network rng X Y net_dims num_iterations learning_rate decay_rate
  = Raise KeyError.
Proof.
  intros HX Hlen Hnum. unfold multi_layer_network.
  destruct (initialize_multilayer_weights_fits rng net_dims)
    as ([parameters convParameters] & -> & [[Hsz _] (W & b & Hbank)]).
  simpl in Hsz, Hbank. cbn [mbind result_bind].
  destruct num_iterations as [|n]; [lia|].
  assert (E : training_iteration X Y learning_rate decay_rate 0
                ([], parameters, convParameters) = Raise KeyError).
  { unfold training_iteration.
    destruct (conv_forward_spec X convParameters W b m HX Hbank)
      as ([A0 convCache] & -> & _).
    cbn [mbind result_bind].
    rewrite multi_layer_forward_small_store by lia. done. }
  unfold range. cbn [seq for_each]. by rewrite E.
Qed.

(** ** Training with learning rate 0 *)

Lemma descent_zero (alpha : R) (parameters gradients parameters' : cache_t)
    (ks : list string) :
  alpha = 0%R →
  (∀ k, k ∈ ks → gradient_fits parameters gradients k) →
  (∀ k, k ∉ ks → parameters' !! k = parameters !! k) →
  (∀ k, k ∈ ks → descent_step_at alpha parameters gradients parameters' k) →
  parameters' = parameters.
Proof.
  intros -> Hfit Hout Hin. apply map_eq. intros k.
  destruct (decide (k ∈ ks)) as [Hk|Hk]; [|by apply Hout].
  destruct (Hin k Hk) as (p & g & p' & Hp & _ & -> & Hp's & Hp'_get).
  destruct (Hfit k Hk) as (q & _ & sh & Hq & _ & Hqs & _).
  rewrite Hp in Hq. injection Hq as <-. rewrite Hp. f_equal.
  pose proof Hqs as [<- _].
  apply (nd_ext p' p (shape p)); [done..|].
  intros idx Hidx. rewrite Hp'_get by done. lra.
Qed.

Lemma update_step_zero_fits (stores : cache_t * cache_t)
    (gradients convGradients : cache_t) (net_dims : list nat) (m : nat)
    (epoch : int) (decay_rate : R) :
  is_network stores net_dims →
  is_dense_gradients gradients net_dims m → is_conv_gradients convGradients →
  (1 + decay_rate * IZR epoch)%R ≠ 0%R →
  update_step stores gradients convGradients epoch 0 decay_rate
  = (stores, Ok 0%R).
Proof.
  destruct stores as [parameters convParameters].
  intros [Hstore (W & b & Hbank)] Hg Hcg Hrate. simpl in Hstore, Hbank.
  assert (Hfit : ∀ k, k ∈ dense_keys (size parameters / 2) →
                      gradient_fits parameters gradients k).
  { intros k Hk. by eapply dense_gradient_fits. }
  assert (Hcfit : ∀ k, k ∈ conv_keys →
                       gradient_fits convParameters convGradients k).
  { intros k Hk. by eapply conv_gradient_fits. }
  destruct (update_parameters_step parameters gradients epoch 0 decay_rate
              Hrate Hfit) as (ps' & Hup & _ & Hout & Hin).
  assert (H0 : (0 * (1 / (1 + decay_rate * IZR epoch)))%R = 0%R) by lra.
  rewrite H0 in Hup, Hin.
  destruct (update_conv_step convParameters convGradients 0 Hcfit)
    as (cps' & Hupc & _ & Houtc & Hinc).
  unfold update_step. rewrite Hup, Hupc.
  rewrite (descent_zero 0 parameters gradients ps' _ eq_refl Hfit Hout Hin).
  by rewrite (descent_zero 0 convParameters convGradients cps' _ eq_refl
                Hcfit Houtc Hinc).
Qed.

(** With learning rate 0 the loop returns the initial network, and the
    cost it logs is the loss of that network every time. *)
Lemma multi_layer_network_zero_rate (rng : nat → R) (X : ndarray R)
    (Y : list int) (net_dims : list nat) (num_iterations : nat)
    (decay_rate : R) (m : nat) :
  is_batch X Y net_dims m →
  (∀ ii, ii < num_iterations → (1 + decay_rate * INR ii)%R ≠ 0%R) →
  ∃ parameters convParameters cost,
    initialize_multilayer_weights rng net_dims
      = Ok (parameters, convParameters) ∧
    network_loss X Y parameters convParameters = Ok cost ∧
    multi_layer_network rng X Y net_dims num_iterations 0 decay_rate
      = Ok (replicate ((num_iterations + 9) / 10) cost,
            parameters, convParameters).
Proof.
  intros Hbatch Hrate.
  destruct (initialize_multilayer_weights_fits rng net_dims)
    as ([parameters convParameters] & Hinit & Hnet).
  destruct (network_loss_returns X Y parameters convParameters net_dims m)
    as [cost Hcost]; [done..|].
  destruct (network_gradients_fits X Y parameters convParameters net_dims m)
    as ([g cg] & Hgrad & Hg & Hcg); [done..|].
  exists parameters, convParameters, cost. split_and!; [done..|].
  unfold multi_layer_network. rewrite Hinit. cbn [mbind result_bind].
  destruct (for_each_range_inv
    (training_iteration X Y 0 decay_rate)
    (λ n st, st = (replicate ((n + 9) / 10) cost, parameters, convParameters))
    num_iterations ([], parameters, convParameters)) as (st & -> & ->);
    [done| |done].
  intros n st Hn ->. rewrite training_iteration_unfold, Hcost.
  cbn [mbind result_bind]. rewrite Hgrad. cbn [mbind result_bind].
  rewrite (update_step_zero_fits _ g cg net_dims m); [|done..|].
  2:{ rewrite rate_Z_of_nat. by apply Hrate. }
  apply returns_ok. rewrite logged_costs_S.
  case_decide; [|done]. by rewrite replicate_S_end.
Qed.

(** ** More on the softmax head *)

Lemma rsum_le n (f g : nat → R) :
  (∀ i, i < n → (f i <= g i)%R) → (rsum n f <= rsum n g)%R.
Proof.
  induction n as [|n IH]; intros Hfg; [rewrite !rsum_0; lra|].
  rewrite !rsum_S. pose proof (Hfg n ltac:(lia)).
  pose proof (IH ltac:(intros; apply Hfg; lia)). lra.
Qed.

Lemma rsum_lt n (f g : nat → R) :
  n ≠ 0 → (∀ i, i < n → (f i < g i)%R) → (rsum n f < rsum n g)%R.
Proof.
  intros Hn Hfg. destruct n as [|n]; [done|]. rewrite !rsum_S.
  pose proof (Hfg n ltac:(lia)).
  assert (rsum n f <= rsum n g)%R; [|lra].
  apply rsum_le. intros i Hi. apply Rlt_le, Hfg. lia.
Qed.

Lemma rsum_const n (c : R) : rsum n (λ _, c) = (INR n * c)%R.
Proof.
  induction n as [|n IH]; [rewrite rsum_0; simpl; lra|].
  rewrite rsum_S, IH, S_INR. lra.
Qed.

(** A softmax probability lies in (0, 1]. *)
Lemma softmax_prob_bounds (Z : ndarray R) n i j :
  i < n → (0 < softmax_prob Z n i j <= 1)%R.
Proof.
  intros Hi. unfold softmax_prob.
  set (f := λ k, exp (nd_get Z [k; j])).
  assert (Hpos : ∀ k, (0 < f k)%R) by (intros; apply exp_pos).
  assert (Hs : (0 < rsum n f)%R) by (apply rsum_pos; [lia | done]).
  assert (Hle : (f i <= rsum n f)%R).
  { assert (E : rsum n (λ k, if decide (k = i) then f i else 0%R) = f i).
    { rewrite (rsum_single n _ i); [by rewrite decide_True | done |].
      intros l _ Hl. by rewrite decide_False. }
    rewrite <- E at 1. apply rsum_le. intros k Hk.
    case_decide; [subst; lra | by apply Rlt_le]. }
  change (exp (nd_get Z [i; j])) with (f i). split.
  - by apply Rdiv_lt_0_compat.
  - apply (Rmult_le_reg_r (rsum n f)); [done|].
    unfold Rdiv. rewrite Rmult_assoc, Rinv_l by lra. lra.
Qed.

Lemma clamp_bounds (p : R) :
  (0 < p <= 1)%R → (clamp 0 < clamp p <= clamp 1)%R ∧ (0 < clamp 0)%R ∧ (clamp 1 < 1)%R.
Proof. unfold clamp. intros [? ?]. repeat split; lra. Qed.

(** The loss of the forward pass for labels in range, in terms of the
    activation that it returns. *)
Lemma softmax_forward_loss (Z : ndarray R) (Y : list int) (n m : nat) :
  is_matrix Z n m → length Y = m →
  (∀ y, y ∈ Y → (0 ≤ y < Z.of_nat n)%Z) → n ≠ 0 →
  returns (softmax_cross_entropy_loss Z Y) (λ '(A, cache, loss),
    is_matrix A n m ∧ cache = <["A" := A]> ∅ ∧
    (∀ i j, i < n → j < m → nd_get A [i; j] = softmax_prob Z n i j) ∧
    loss = (- (rsum m (λ i, ln (clamp (nd_get A [Z.to_nat (Y !!! i); i])))
              / INR m))%R).
Proof.
  intros HZ HY Hlab Hn.
  destruct (softmax_forward_unfold Z Y n m HZ Hn) as (A & HA & HA_get & ->).
  rewrite (list_comp_ok _ (λ i, nd_get A [Z.to_nat (Y !!! i); i])).
  2:{ intros i Hi%elem_of_range.
      destruct (lookup_lt_is_Some_2 Y i Hi) as [y Hy].
      assert (Hyin : (0 ≤ y < Z.of_nat n)%Z)
        by (apply Hlab; by eapply list_elem_of_lookup_2).
      destruct (true_class_item A Y n m i y HA ltac:(lia) Hy) as [[Hout _]|[_ ->]];
        [lia|].
      rewrite decide_True by lia.
      by rewrite list_lookup_total_alt, Hy. }
  simpl. apply returns_ok. split_and!; [done..|].
  unfold np_mean, np_sum, nd_size. simpl.
  rewrite <- !list_fmap_compose, length_fmap.
  replace (length (range (length Y))) with m
    by (unfold range; by rewrite length_seq).
  by rewrite HY, Nat.mul_1_r, sumR_fmap_range.
Qed.

Lemma softmax_loss_bounds (Z : ndarray R) (Y : list int) (n m : nat) :
  is_matrix Z n m → length Y = m → 1 ≤ m →
  (∀ y, y ∈ Y → (0 ≤ y < Z.of_nat n)%Z) → n ≠ 0 →
  returns (softmax_cross_entropy_loss Z Y) (λ '(A, cache, loss),
    (0 < - ln (clamp 1) <= loss)%R ∧ (loss < - ln (clamp 0))%R).
Proof.
  intros HZ HY Hm Hlab Hn.
  eapply returns_weaken; [by apply softmax_forward_loss|].
  intros [[A cache] loss] (HA & _ & HA_get & ->).
  assert (HINR : (0 < INR m)%R) by (apply lt_0_INR; lia).
  assert (Hp : ∀ i, i < m →
    (ln (clamp 0) < ln (clamp (nd_get A [Z.to_nat (Y !!! i); i]))
     <= ln (clamp 1))%R).
  { intros i Hi.
    destruct (lookup_lt_is_Some_2 Y i ltac:(lia)) as [y Hy].
    assert (Hyin : (0 ≤ y < Z.of_nat n)%Z)
      by (apply Hlab; by eapply list_elem_of_lookup_2).
    rewrite list_lookup_total_alt, Hy. simpl.
    rewrite HA_get by lia.
    destruct (clamp_bounds (softmax_prob Z n (Z.to_nat y) i))
      as ([Hlo Hhi] & H0 & H1); [apply softmax_prob_bounds; lia|].
    split.
    - by apply ln_increasing.
    - destruct Hhi as [Hhi| ->]; [|lra].
      apply Rlt_le, ln_increasing; lra. }
  destruct (clamp_bounds 1) as (_ & H0 & H1); [lra|].
  assert (Hln1 : (ln (clamp 1) < 0)%R).
  { rewrite <- ln_1. apply ln_increasing; unfold clamp in *; lra. }
  assert (Hsum_hi : (rsum m (λ i, ln (clamp (nd_get A [Z.to_nat (Y !!! i); i])))
                     <= INR m * ln (clamp 1))%R).
  { rewrite <- rsum_const. apply rsum_le. intros i Hi. by apply Hp. }
  assert (Hsum_lo : (INR m * ln (clamp 0)
                     < rsum m (λ i, ln (clamp (nd_get A [Z.to_nat (Y !!! i); i]))))%R).
  { rewrite <- rsum_const. apply rsum_lt; [lia|]. intros i Hi. by apply Hp. }
  set (s := rsum m _) in *. split_and!.
  - lra.
  - apply (Rmult_le_reg_r (INR m)); [done|].
    unfold Rdiv. rewrite Ropp_mult_distr_l, Rmult_assoc, Rinv_l by lra. lra.
  - apply (Rmult_lt_reg_r (INR m)); [done|].
    unfold Rdiv. rewrite Ropp_mult_distr_l, Rmult_assoc, Rinv_l by lra. lra.
Qed.

(** Adding to every column of the scores a number of its own changes
    nothing. *)
Lemma softmax_prob_shift (Z Z' : ndarray R) (c : nat → R) n i j :
  n ≠ 0 →
  (∀ k, k < n → nd_get Z' [k; j] = (nd_get Z [k; j] + c j)%R) → i < n →
  softmax_prob Z' n i j = softmax_prob Z n i j.
Proof.
  intros Hn HZ' Hi. unfold softmax_prob.
  rewrite <- (exp_shift_ratio n (λ k, nd_get Z' [k; j]) (c j) i Hn).
  rewrite HZ' by done.
  rewrite (rsum_ext n (λ k, exp (nd_get Z' [k; j] - c j))
             (λ k, exp (nd_get Z [k; j]))).
  - f_equal. f_equal. lra.
  - intros k Hk. rewrite HZ' by done. f_equal. lra.
Qed.

Lemma softmax_shift_invariant (Z Z' : ndarray R) (Y : list int)
    (c : nat → R) n m :
  is_matrix Z n m → is_matrix Z' n m →
  (∀ i j, i < n → j < m → nd_get Z' [i; j] = (nd_get Z [i; j] + c j)%R) →
  softmax_cross_entropy_loss Z' Y = softmax_cross_entropy_loss Z Y.
Proof.
  intros HZ HZ' Hshift.
  destruct (decide (n = 0)) as [->|Hn].
  { unfold softmax_cross_entropy_loss, np_max_axis0_keepdims.
    destruct HZ as [-> _], HZ' as [-> _]. done. }
  destruct (softmax_forward_unfold Z Y n m HZ Hn) as (A & HA & HA_get & ->).
  destruct (softmax_forward_unfold Z' Y n m HZ' Hn) as (A' & HA' & HA'_get & ->).
  assert (A' = A) as ->; [|done].
  apply (nd_ext A' A [n; m]); [done..|].
  intros idx Hidx. apply in_bounds2_inv in Hidx as (i & j & -> & Hi & Hj).
  rewrite HA_get, HA'_get by done.
  apply (softmax_prob_shift Z Z' c); [done| |done].
  intros k Hk. by apply Hshift.
Qed.

(** The gradient that the backward pass returns after the forward pass:
    the probabilities minus the one-hot labels; each column sums to 0. *)
Lemma softmax_gradient_values (Z : ndarray R) (Y : list int) (n m : nat) :
  is_matrix Z n m → length Y = m →
  (∀ y, y ∈ Y → (0 ≤ y < Z.of_nat n)%Z) → n ≠ 0 →
  returns (softmax_cross_entropy_loss Z Y) (λ '(A, cache, loss),
    returns (softmax_cross_entropy_loss_der Y cache) (λ dZ,
      is_matrix dZ n m ∧
      (∀ k s, k < n → s < m →
         nd_get dZ [k; s]
         = Rminus (softmax_prob Z n k s)
                  (indicator (Y !! s = Some (Z.of_nat k)))) ∧
      ∀ s, s < m → rsum n (λ k, nd_get dZ [k; s]) = 0%R)).
Proof.
  intros HZ HY Hlab Hn.
  eapply returns_weaken;
    [apply (softmax_forward_returns Z Y n m HZ Hn); [lia|done]|].
  intros [[A cache] loss] (HA & -> & HA_get).
  eapply returns_weaken.
  { eapply (softmax_backward_values A Y _ n m);
      [apply lookup_insert_eq | done | lia | done]. }
  intros dZ [HdZ HdZ_get].
  assert (Hval : ∀ k s, k < n → s < m →
    nd_get dZ [k; s]
    = Rminus (softmax_prob Z n k s) (indicator (Y !! s = Some (Z.of_nat k)))).
  { intros k s Hk Hs. by rewrite HdZ_get, HA_get. }
  split_and!; [done..|].
  intros s Hs.
  rewrite (rsum_ext n _ (λ k, softmax_prob Z n k s
             + - indicator (Y !! s = Some (Z.of_nat k)))%R).
  2:{ intros k Hk. rewrite Hval by done. lra. }
  destruct (lookup_lt_is_Some_2 Y s ltac:(lia)) as [y Hy].
  assert (Hyin : (0 ≤ y < Z.of_nat n)%Z)
    by (apply Hlab; by eapply list_elem_of_lookup_2).
  assert (Hsplit : ∀ (f g : nat → R) n,
    rsum n (λ k, f k + g k)%R = (rsum n f + rsum n g)%R).
  { intros f g n'. induction n' as [|n' IH]; [rewrite !rsum_0; lra|].
    rewrite !rsum_S, IH. lra. }
  rewrite Hsplit, softmax_column_sum by done.
  rewrite (rsum_single n _ (Z.to_nat y)); [|lia|].
  - rewrite indicator_true; [lra|]. rewrite Hy. f_equal. lia.
  - intros l Hl Hne. rewrite indicator_false; [lra|].
    rewrite Hy. intros [= ->]. apply Hne. by rewrite Nat2Z.id.
Qed.

(** ** More on classification *)

(** The softmax keeps the order within a column. *)
Lemma softmax_prob_le (Z : ndarray R) n i k j :
  n ≠ 0 →
  (softmax_prob Z n i j <= softmax_prob Z n k j)%R
  ↔ (nd_get Z [i; j] <= nd_get Z [k; j])%R.
Proof.
  intros Hn. unfold softmax_prob.
  assert (Hs : (0 < rsum n (λ l, exp (nd_get Z [l; j])))%R)
    by (apply rsum_pos; [done | intros; apply exp_pos]).
  set (s := rsum n _) in *.
  assert (Hinv : (0 < / s)%R) by by apply Rinv_0_lt_compat.
  unfold Rdiv. split.
  - intros Hle. apply Rmult_le_reg_r in Hle; [|done].
    destruct (Rle_or_lt (nd_get Z [i; j]) (nd_get Z [k; j])) as [|Hlt]; [done|].
    apply exp_increasing in Hlt. lra.
  - intros Hle. apply Rmult_le_compat_r; [lra|].
    destruct Hle as [Hlt| ->]; [|lra]. apply exp_increasing in Hlt. lra.
Qed.

Lemma softmax_prob_lt (Z : ndarray R) n i k j :
  n ≠ 0 →
  (softmax_prob Z n i j < softmax_prob Z n k j)%R
  ↔ (nd_get Z [i; j] < nd_get Z [k; j])%R.
Proof.
  intros Hn. pose proof (softmax_prob_le Z n k i j Hn) as Hle.
  split; intros Hlt; apply Rnot_le_lt; intros Hge;
    apply (Rlt_not_le _ _ Hlt); tauto.
Qed.

Lemma first_argmax_softmax (A Z : ndarray R) n m j k :
  n ≠ 0 → j < m →
  (∀ i j, i < n → j < m → nd_get A [i; j] = softmax_prob Z n i j) →
  is_first_argmax A n j k ↔ is_first_argmax Z n j k.
Proof.
  intros Hn Hj HA. unfold is_first_argmax. split.
  - intros (Hk & Hmax & Hfirst). split_and!; [done| |].
    + intros i Hi. apply (softmax_prob_le Z n i k j Hn).
      rewrite <- !HA by done. by apply Hmax.
    + intros i Hi. apply (softmax_prob_lt Z n i k j Hn).
      rewrite <- !HA by (done || lia). by apply Hfirst.
  - intros (Hk & Hmax & Hfirst). split_and!; [done| |].
    + intros i Hi. rewrite !HA by done.
      apply (softmax_prob_le Z n i k j Hn). by apply Hmax.
    + intros i Hi. rewrite !HA by (done || lia).
      apply (softmax_prob_lt Z n i k j Hn). by apply Hfirst.
Qed.

(** [classify] on a well-formed network returns, for every sample, the
    first row at which the scores of the last layer are maximal. *)
Lemma classify_fits (X : ndarray R) (parameters convParameters : cache_t)
    (net_dims : list nat) (m : nat) :
  has_shape X [28; 28; m] → 2 ≤ length net_dims → net_dims !!! 0 = 3125 →
  num_classes net_dims ≠ 0 →
  is_network (parameters, convParameters) net_dims →
  ∃ A0 convCache AL caches Ypred,
    conv_forward X convParameters = Ok (A0, convCache) ∧
    multi_layer_forward A0 parameters = Ok (AL, caches) ∧
    classify X parameters convParameters = Ok Ypred ∧
    has_shape Ypred [m] ∧
    ∀ j, j < m →
      ∃ k, nd_get Ypred [j] = Z.of_nat k ∧ k < num_classes net_dims ∧
           is_first_argmax AL (num_classes net_dims) j k.
Proof.
  intros HX Hlen H0 Hn [Hstore (W & b & Hbank)]. simpl in Hstore, Hbank.
  destruct (conv_forward_spec X convParameters W b m HX Hbank)
    as ([A0 convCache] & Hcf & HA0 & _).
  destruct (multi_layer_forward_fits A0 parameters net_dims m)
    as ([AL caches] & Hmf & HAL & _); [done..|by rewrite H0|].
  fold (num_classes net_dims) in HAL.
  destruct (softmax_forward_returns AL [] (num_classes net_dims) m HAL Hn)
    as ([[A cache] cost] & Hsm & HA & _ & HA_get).
  { simpl. lia. }
  { intros y Hy. by apply elem_of_nil in Hy. }
  assert (Harg : ∃ Ypred, np_argmax_axis0 A = Ok Ypred).
  { unfold np_argmax_axis0. destruct HA as [-> _].
    rewrite decide_False by done. by eexists. }
  destruct Harg as [Ypred Harg].
  exists A0, convCache, AL, caches, Ypred. split_and!; [done..| | |].
  - unfold classify. rewrite Hcf. cbn [mbind result_bind].
    rewrite Hmf. cbn [mbind result_bind]. rewrite Hsm.
    cbn [mbind result_bind]. by rewrite Harg.
  - apply np_argmax_axis0_Ok in Harg as (n' & m' & HAs & _ & HY & _).
    destruct HA as [HAs' _]. rewrite HAs' in HAs. by injection HAs as <- <-.
  - intros j Hj.
    apply np_argmax_axis0_Ok in Harg as (n' & m' & HAs & Hn' & HY & HY_get).
    destruct HA as [HAs' HAl]. rewrite HAs' in HAs. injection HAs as <- <-.
    eexists. split; [by apply HY_get|].
    pose proof (argmax_from_spec (λ i, nd_get A [i; j]) 0 1
                  (num_classes net_dims - 1)) as Hspec.
    replace (1 + (num_classes net_dims - 1)) with (num_classes net_dims)
      in Hspec by lia.
    destruct Hspec as (Hlt & Hmax & Hfirst); [lia | | intros; lia |].
    { intros i Hi. assert (i = 0) as -> by lia. simpl. lra. }
    split; [done|].
    by apply (first_argmax_softmax A AL _ m); [..|split_and!].
Qed.

(** ** Inputs that [conv_forward] refuses *)

Lemma broadcast_shapes_mismatch p q :
  p ≠ 50 → p ≠ 1 → broadcast_shapes [p; q] [50; 50] = Raise ValueError.
Proof.
  intros H50 H1. unfold broadcast_shapes. cbn.
  rewrite (decide_False (P := p = 50)) by done.
  rewrite (decide_False (P := p = 1)) by done.
  rewrite (decide_False (P := 50 = 1)) by done. done.
Qed.

(** One image of a size other than 28x28 makes the pooling step fail:
    either the reshape to (25, 2, 25, 2), or the comparison of the
    pre-pool map with the 50x50 map of the maxima. *)
Lemma conv_forward_sample_bad_size (X W b : ndarray R) (masks : ndarray int)
    (Z : ndarray R) (h w m i j : nat) :
  has_shape X [h; w; m] → 3 ≤ h → 3 ≤ w → ¬ (h = 28 ∧ w = 28) →
  is_matrix W 3 3 → has_shape b [] → i < 5 → j < m →
  has_shape masks [50; 50; 5; m] → is_matrix Z 3125 m →
  conv_forward_sample X W b i j (masks, Z) = Raise ValueError.
Proof.
  intros HX Hh Hw Hsize HW Hb Hi Hj Hmasks HZ. unfold conv_forward_sample.
  destruct (np_slice_last_spec X h w m j HX Hj) as (Xj & -> & HXj & _).
  cbn [mbind result_bind].
  destruct (convolve2d_valid_spec Xj W h w 3 3 HXj HW) as (z0 & -> & Hz0 & _);
    [lia..|].
  cbn [mbind result_bind].
  destruct (np_binop_scalar_r Rplus z0 b _ Hz0 Hb) as (z1 & -> & Hz1 & _).
  cbn [mbind result_bind].
  destruct (np_repeat2_axis0_spec z1 _ _ Hz1) as (z2 & -> & Hz2 & _).
  cbn [mbind result_bind].
  destruct (np_repeat2_axis1_spec z2 _ _ Hz2) as (z3 & -> & Hz3 & _).
  cbn [mbind result_bind].
  destruct (np_trim1_spec z3 _ _ Hz3) as (z4 & -> & Hz4 & _).
  cbn [mbind result_bind].
  set (p := 2 * (h - 3 + 1) - 2) in *. set (q := 2 * (w - 3 + 1) - 2) in *.
  pose proof Hz4 as [Hz4s _].
  destruct (np_reshape z4 [25; 2; 25; 2]) as [z5|e] eqn:Hr5.
  2:{ unfold np_reshape in Hr5. case_decide; [done|]. by injection Hr5 as <-. }
  unfold np_reshape, nd_size in Hr5. rewrite Hz4s in Hr5.
  cbn [size_of foldr] in Hr5.
  case_decide as Hsz; [|done]. injection Hr5 as <-. cbn [mbind result_bind].
  assert (Hz5 : has_shape (NdArray [25; 2; 25; 2] (data z4)) [25; 2; 25; 2]).
  { split; [done|]. cbn [data]. destruct Hz4 as [_ ->].
    cbn [size_of foldr] in *. lia. }
  destruct (np_max_axes13_spec _ 25 2 25 2 Hz5) as (z6 & -> & Hz6 & _);
    [done..|].
  cbn [mbind result_bind].
  destruct (np_reshape_spec z6 [25; 25] [25 * 25] Hz6) as (zf & -> & Hzf & _);
    [done|].
  cbn [mbind result_bind].
  destruct (np_set_col_slice_spec Z zf 3125 m (25 * 25 * i) (25 * 25 * (i + 1)) j)
    as (Z' & -> & _); [done | done | lia | lia | |].
  { by replace (25 * 25 * (i + 1) - 25 * 25 * i) with (25 * 25) by lia. }
  cbn [mbind result_bind].
  destruct (np_reshape_spec z6 [25; 25] [25; 25] Hz6) as (z7 & -> & _); [done|].
  cbn [mbind result_bind].
  destruct (np_repeat2_axis0_spec z6 _ _ Hz6) as (z8 & -> & Hz8 & _).
  cbn [mbind result_bind].
  destruct (np_repeat2_axis1_spec z8 _ _ Hz8) as (z9 & -> & Hz9 & _).
  cbn [mbind result_bind].
  unfold np_binop. destruct Hz9 as [-> _]. rewrite Hz4s.
  change [2 * 25; 2 * 25] with [50; 50].
  rewrite broadcast_shapes_mismatch; [done| |lia].
  intros Hp. apply Hsize. nia.
Qed.

Lemma for_each_app {St X} (body : X → St → result St) xs ys s :
  for_each (xs ++ ys) body s = (s' ← for_each xs body s; for_each ys body s').
Proof.
  revert s. induction xs as [|x xs IH]; intros s; [done|].
  cbn [app for_each]. destruct (body x s) as [s'|e]; [|done].
  cbn [mbind result_bind]. apply IH.
Qed.

Lemma conv_forward_bad_size (X W b : ndarray R) (parameters : cache_t)
    (h w m : nat) :
  has_shape X [h; w; m] → 3 ≤ h → 3 ≤ w → ¬ (h = 28 ∧ w = 28) → 1 ≤ m →
  parameters !! "convW1" = Some W → parameters !! "convb1" = Some b →
  is_matrix W 3 3 → has_shape b [] →
  conv_forward X parameters = Raise ValueError.
Proof.
  intros HX Hh Hw Hsize Hm HWk Hbk HW Hb. unfold conv_forward.
  assert (shape_at X 2 = Ok m) as ->
    by (unfold shape_at; destruct HX as [-> _]; done).
  cbn [mbind result_bind]. unfold range at 1. cbn [seq for_each].
  change ("convW" +:+ str (0 + 1)) with "convW1".
  change ("convb" +:+ str (0 + 1)) with "convb1".
  rewrite (dict_get_Some _ _ _ HWk), (dict_get_Some _ _ _ Hbk).
  cbn [mbind result_bind].
  destruct m as [|m]; [lia|]. change (range (S m)) with (0 :: seq 1 m).
  cbn [for_each].
  rewrite (conv_forward_sample_bad_size X W b _ _ h w (S m) 0 0);
    [done..| lia | lia | apply has_shape_build
    | apply (has_shape_build [25 * 25 * 5; S m])].
Qed.

(** The filters are read one after the other: the first missing key
    raises [KeyError], after the filters before it have been applied. *)
Lemma conv_forward_missing_filter (X : ndarray R) (parameters : cache_t)
    (W b : nat → ndarray R) (m i0 : nat) :
  has_shape X [28; 28; m] → i0 < 5 →
  (∀ i, i < i0 →
     parameters !! ("convW" +:+ str (i + 1)) = Some (W i) ∧
     parameters !! ("convb" +:+ str (i + 1)) = Some (b i) ∧
     has_shape (W i) [3; 3] ∧ has_shape (b i) []) →
  parameters !! ("convW" +:+ str (i0 + 1)) = None ∨
  parameters !! ("convb" +:+ str (i0 + 1)) = None →
  conv_forward X parameters = Raise KeyError.
Proof.
  intros HX Hi0 Hbank Hmiss. unfold conv_forward.
  assert (shape_at X 2 = Ok m) as ->
    by (unfold shape_at; destruct HX as [-> _]; done).
  cbn [mbind result_bind].
  assert (E : range 5 = range i0 ++ i0 :: seq (S i0) (4 - i0)).
  { unfold range. replace 5 with (i0 + S (4 - i0)) at 1 by lia.
    by rewrite seq_app. }
  rewrite E, for_each_app. clear E.
  match goal with |- context [for_each (range i0) ?body ?s] =>
    destruct (for_each_range_inv body
      (λ n '(cache, masks, Z),
         has_shape masks [50; 50; 5; m] ∧ is_matrix Z 3125 m) i0 s)
      as ([[cache masks] Z] & Hloop & _)
  end.
  - split; [apply has_shape_build | apply (has_shape_build [25 * 25 * 5; m])].
  - intros i [[cache masks] Z] Hi [Hmasks HZ].
    destruct (Hbank i Hi) as (HWi & Hbi & HWs & Hbs).
    rewrite (dict_get_Some _ _ _ HWi), (dict_get_Some _ _ _ Hbi).
    cbn [mbind result_bind].
    eapply returns_bind;
      [by apply (conv_forward_filter_spec X (W i) (b i) masks Z m i); [..|lia| |]|].
    intros [masks' Z'] (Hm' & HZ' & _). by apply returns_ok.
  - rewrite Hloop. cbn [mbind result_bind for_each].
    unfold dict_get.
    destruct (parameters !! ("convW" +:+ str (i0 + 1))) as [Wi|] eqn:HWi;
      [|done].
    destruct Hmiss as [?| ->]; [done|]. done.
Qed.

(** On an empty batch the loops over the samples do nothing: the image
    size is not looked at. *)
Lemma conv_forward_empty_batch (X : ndarray R) (parameters : cache_t)
    (h w : nat) :
  shape X = [h; w; 0] →
  (∀ i, i < 5 →
     is_Some (parameters !! ("convW" +:+ str (i + 1))) ∧
     is_Some (parameters !! ("convb" +:+ str (i + 1)))) →
  returns (conv_forward X parameters) (λ '(Z, cache),
    is_matrix Z 3125 0 ∧ conv_floats cache !! "A" = Some X).
Proof.
  intros HX Hkeys. unfold conv_forward, shape_at. rewrite HX.
  cbn [lookup list_lookup mbind result_bind].
  eapply returns_bind.
  - apply (for_each_range_inv _
      (λ n '(cache, masks, Z),
         conv_floats cache !! "A" = Some X ∧ is_matrix Z 3125 0)).
    + split; [apply lookup_insert_eq | apply (has_shape_build [25 * 25 * 5; 0])].
    + intros i [[cache masks] Z] Hi [HcA HZ].
      destruct (Hkeys i Hi) as [[Wi HWi] [bi Hbi]].
      rewrite (dict_get_Some _ _ _ HWi), (dict_get_Some _ _ _ Hbi).
      cbn [mbind result_bind range seq for_each]. apply returns_ok.
      split; [|done]. simpl.
      rewrite !lookup_insert_ne by (apply conv_key_ne_A; auto). done.
  - intros [[cache masks] Z] [HcA HZ]. apply returns_ok. split; [done|].
    simpl. by rewrite lookup_delete_ne.
Qed.

(** ** Errors and edge cases of the dense layers *)

(** [relu] is idempotent and its output is non-negative. *)
Lemma relu_idempotent (Z : ndarray R) :
  (relu (relu Z).1).1 = (relu Z).1.
Proof.
  unfold relu, nd_map. simpl. f_equal. rewrite <- list_fmap_compose.
  apply list_fmap_ext. intros i z _. simpl.
  apply Rmax_right, Rmax_l.
Qed.

Lemma relu_nonneg (Z : ndarray R) sh idx :
  has_shape Z sh → in_bounds sh idx →
  nd_get (relu Z).1 idx = Rmax 0 (nd_get Z idx) ∧
  (0 <= nd_get (relu Z).1 idx)%R.
Proof.
  intros HZ Hidx. unfold relu. simpl.
  rewrite (nd_get_map _ _ sh) by done. split; [done | apply Rmax_l].
Qed.



Lemma linear_forward_inner_mismatch (A W b : ndarray R) n p p' m :
  is_matrix A p m → is_matrix W n p' → p' ≠ p →
  linear_forward A W b = Raise ValueError.
Proof.
  intros [HA _] [HW _] Hne. unfold linear_forward, np_dot.
  rewrite HW, HA. by rewrite decide_False.
Qed.



(** ** Errors of the update *)

Lemma broadcast_rev_error s1 s2 e :
  broadcast_rev s1 s2 = Raise e → e = ValueError.
Proof.
  revert s2. induction s1 as [|d1 s1 IH]; intros [|d2 s2]; simpl; try done.
  destruct (broadcast_rev s1 s2) as [rest|e'] eqn:Hr; simpl.
  - repeat case_decide; try done. by intros [= <-].
  - intros [= <-]. by eapply IH.
Qed.

Lemma np_binop_error {A B C} `{Inhabited A, Inhabited B}
    (f : A → B → C) (a : ndarray A) (b : ndarray B) e :
  np_binop f a b = Raise e → e = ValueError.
Proof.
  unfold np_binop, broadcast_shapes.
  destruct (broadcast_rev _ _) as [sh|e'] eqn:Hr; simpl; [done|].
  intros [= <-]. by eapply broadcast_rev_error.
Qed.

Lemma np_iop_error {A B} `{Inhabited A, Inhabited B}
    (f : A → B → A) (a : ndarray A) (b : ndarray B) e :
  np_iop f a b = Raise e → e = ValueError.
Proof.
  unfold np_iop. destruct (shape a) as [|d sh] eqn:Hs.
  - apply np_binop_error.
  - unfold broadcast_shapes.
    destruct (broadcast_rev _ _) as [sh'|e'] eqn:Hr; simpl.
    + case_decide; [done|]. by intros [= <-].
    + intros [= <-]. by eapply broadcast_rev_error.
Qed.

Lemma isub_scaled_error (alpha : R) (gradients : cache_t) (k gk : string)
    (parameters : cache_t) e :
  (isub_scaled alpha gradients k gk parameters).2 = Raise e →
  (isub_scaled alpha gradients k gk parameters).1 = parameters ∧
  (e = KeyError ∨ e = ValueError).
Proof.
  unfold isub_scaled, dict_get.
  destruct (parameters !! k) as [p|]; cbn [mbind result_bind];
    [|intros [= <-]; auto].
  destruct (gradients !! gk) as [g|]; cbn [mbind result_bind];
    [|intros [= <-]; auto].
  destruct (np_binop Rmult (nd_scalar alpha) g) as [ag|e'] eqn:Hag;
    cbn [mbind result_bind].
  2:{ intros [= <-]. apply np_binop_error in Hag. auto. }
  destruct (np_iop Rminus p ag) as [p'|e'] eqn:Hp'; simpl; [done|].
  intros [= <-]. apply np_iop_error in Hp'. auto.
Qed.

Lemma for_each_mut_error {X} (body : X → cache_t → cache_t * result ())
    (P : exn → Prop) xs s e :
  (∀ x s e, (body x s).2 = Raise e → P e) →
  (for_each_mut xs body s).2 = Raise e → P e.
Proof.
  intros Hbody. revert s. induction xs as [|x xs IH]; intros s; [done|].
  simpl. destruct (body x s) as [s' [[]|e']] eqn:Hb.
  - apply IH.
  - simpl. intros [= <-]. apply (Hbody x s). by rewrite Hb.
Qed.

(** [update_parameters] raises [ZeroDivisionError] exactly when
    1 + decay_rate * epoch is 0, and has then changed nothing. *)
Lemma update_parameters_zero_division (parameters gradients : cache_t)
    (epoch : int) (learning_rate decay_rate : R) :
  ((update_parameters parameters gradients epoch learning_rate decay_rate).2
     = Raise ZeroDivisionError
   ↔ (1 + decay_rate * IZR epoch)%R = 0%R) ∧
  ((1 + decay_rate * IZR epoch)%R = 0%R →
   (update_parameters parameters gradients epoch learning_rate decay_rate).1
     = parameters).
Proof.
  split; [split|].
  - intros Hraise.
    destruct (decide ((1 + decay_rate * IZR epoch)%R = 0%R)) as [|Hne]; [done|].
    exfalso. rewrite update_parameters_unfold in Hraise by done.
    cbn zeta in Hraise.
    match type of Hraise with context [for_each_mut ?xs ?body ?s] =>
      pose proof (for_each_mut_error body
        (λ e, e = KeyError ∨ e = ValueError) xs s ZeroDivisionError) as Herr;
      destruct (for_each_mut xs body s) as [ps' [[]|e]] eqn:Hloop
    end; [done|].
    simpl in Hraise. injection Hraise as ->.
    destruct Herr as [?|?]; [|done..].
    intros x s e He. by apply isub_scaled_error in He as [_ ?].
  - intros H0. unfold update_parameters, py_div. by rewrite decide_True.
  - intros H0. unfold update_parameters, py_div. by rewrite decide_True.
Qed.

(** The update is not atomic: when the gradient of the last bias is
    missing, the last weight matrix has already been moved. *)
Lemma update_parameters_partial (parameters gradients : cache_t)
    (epoch : int) (learning_rate decay_rate : R) (L : nat) :
  size parameters / 2 = L → 1 ≤ L →
  (1 + decay_rate * IZR epoch)%R ≠ 0%R →
  gradient_fits parameters gradients ("W" +:+ str L) →
  is_Some (parameters !! ("b" +:+ str L)) →
  gradients !! ("db" +:+ str L) = None →
  ∃ parameters',
    update_parameters parameters gradients epoch learning_rate decay_rate
      = (parameters', Raise KeyError) ∧
    descent_step_at (learning_rate * (1 / (1 + decay_rate * IZR epoch)))
      parameters gradients parameters' ("W" +:+ str L) ∧
    ∀ k, k ≠ "W" +:+ str L → parameters' !! k = parameters !! k.
Proof.
  intros HL HL1 Hrate HW Hb Hdb.
  rewrite update_parameters_unfold by done. cbn zeta. rewrite HL.
  destruct L as [|L]; [lia|].
  pose proof (NoDup_dense_keys_rev (S L)) as Hnd.
  rewrite seq_S, reverse_app in *. cbn [reverse rev_append app] in *.
  change (reverse [1 + L]) with [S L] in *.
  cbn [app mbind list_bind] in *.
  set (rest := reverse (seq 1 L) ≫= _) in *.
  destruct (descent_loop_key_error
              (learning_rate * (1 / (1 + decay_rate * IZR epoch))) gradients
              ["W" +:+ str (S L)] rest ("b" +:+ str (S L)) parameters)
    as (ps' & Hloop & Hout & Hin); [done| |done|done|].
  { intros k Hk. apply list_elem_of_singleton in Hk as ->. done. }
  exists ps'.
  match goal with |- context [for_each_mut ?xs ?body ?s] =>
    replace (for_each_mut xs body s) with (ps', @Raise () KeyError)
      by (symmetry; exact Hloop)
  end.
  split_and!; [done| |].
  - apply Hin. left.
  - intros k Hk. apply Hout. by intros ->%list_elem_of_singleton.
Qed.

(** ** The biases and the pooling *)

Lemma conv_entry_bias (X W b b' : ndarray R) j r c :
  conv_entry X W b' j r c
  = (conv_entry X W b j r c + (np_float b' - np_float b))%R.
Proof. unfold conv_entry. lra. Qed.

Lemma Rmax_shift (x y d : R) : Rmax (x + d) (y + d) = (Rmax x y + d)%R.
Proof. unfold Rmax. repeat destruct (Rle_dec _ _); lra. Qed.

Lemma window_max_shift (z z' : nat → nat → R) (d : R) r c :
  (∀ r c, z' r c = (z r c + d)%R) →
  window_max z' r c = (window_max z r c + d)%R.
Proof.
  intros Hz. unfold window_max. rewrite !Hz.
  by rewrite !Rmax_shift.
Qed.

Lemma mask_entry_shift (z z' : nat → nat → R) (d : R) u v :
  (∀ r c, z' r c = (z r c + d)%R) → mask_entry z' u v = mask_entry z u v.
Proof.
  intros Hz. unfold mask_entry.
  rewrite (window_max_shift z z' d) by done. rewrite Hz.
  destruct (decide (z ((u + 1) / 2) ((v + 1) / 2) = window_max z (u / 2) (v / 2)))
    as [E|E].
  - rewrite !bool_decide_true; [done..|]. by rewrite E.
  - rewrite !bool_decide_false; [done..|]. intros E'. apply E. lra.
Qed.

Lemma in_bounds4_inv n m p q idx :
  in_bounds [n; m; p; q] idx →
  ∃ i j k l, idx = [i; j; k; l] ∧ i < n ∧ j < m ∧ k < p ∧ l < q.
Proof.
  intros Hb.
  apply Forall2_cons_inv_r in Hb as (i & idx1 & Hi & Hb & ->).
  apply Forall2_cons_inv_r in Hb as (j & idx2 & Hj & Hb & ->).
  apply Forall2_cons_inv_r in Hb as (k & idx3 & Hk & Hb & ->).
  apply Forall2_cons_inv_r in Hb as (l & idx4 & Hl & Hb & ->).
  apply Forall2_nil_inv_r in Hb as ->. by exists i, j, k, l.
Qed.

(** Changing the biases moves the pooled features of each filter by the
    change of its bias and leaves the pooling masks as they are. *)
Lemma conv_forward_bias_shift (X : ndarray R) (parameters parameters' : cache_t)
    (W b b' : nat → ndarray R) (m : nat) :
  has_shape X [28; 28; m] →
  is_filter_bank parameters W b → is_filter_bank parameters' W b' →
  returns (conv_forward X parameters) (λ '(Z, cache),
    returns (conv_forward X parameters') (λ '(Z', cache'),
      (∀ i r c j, i < 5 → r < 25 → c < 25 → j < m →
         nd_get Z' [625 * i + 25 * r + c; j]
         = Rplus (nd_get Z [625 * i + 25 * r + c; j])
                 (Rminus (np_float (b' i)) (np_float (b i)))) ∧
      conv_ints cache' !! "masks" = conv_ints cache !! "masks")).
Proof.
  intros HX Hbank Hbank'.
  eapply returns_weaken; [by apply (conv_forward_spec X parameters W b m)|].
  intros [Z cache] (_ & HZ_get & _ & masks & Hcm & Hmasks & Hm_get).
  eapply returns_weaken; [by apply (conv_forward_spec X parameters' W b' m)|].
  intros [Z' cache'] (_ & HZ'_get & _ & masks' & Hcm' & Hmasks' & Hm'_get).
  split.
  - intros i r c j Hi Hr Hc Hj. rewrite HZ_get, HZ'_get by done.
    apply window_max_shift. intros r' c'. apply conv_entry_bias.
  - rewrite Hcm, Hcm'. f_equal.
    apply (nd_ext masks' masks [50; 50; 5; m]); [done..|].
    intros idx Hidx.
    apply in_bounds4_inv in Hidx as (u & v & i & j & -> & Hu & Hv & Hi & Hj).
    rewrite Hm_get, Hm'_get by done.
    apply (mask_entry_shift _ _ (np_float (b' i) - np_float (b i))).
    intros r' c'. apply conv_entry_bias.
Qed.

(** ** Properties of the activation library and of the dense layers *)


Lemma zero_dense_store_ok (net_dims : list nat) :
  is_dense_store (zero_dense_parameters net_dims) net_dims.
Proof.
  destruct (zero_dense_parameters_spec net_dims) as [Hsz Hget].
  split; [done|]. intros l Hl. destruct (Hget l Hl) as [HW Hb].
  eexists _, _. split_and!; [done | done | apply has_shape_build..].
Qed.

(** X1.  [relu] keeps the shape of its input, replaces every entry [z] by
    [max(0, z)], so that its output is non-negative, stores its input under
    ["Z"], and is idempotent. *)
Theorem relu_is_idempotent_and_nonnegative (Z : ndarray R) (sh : list nat) :
  has_shape Z sh →
  has_shape (relu Z).1 sh ∧ (relu Z).2 = <["Z" := Z]> ∅ ∧
  (relu (relu Z).1).1 = (relu Z).1 ∧
  ∀ idx, in_bounds sh idx →
    nd_get (relu Z).1 idx = Rmax 0 (nd_get Z idx) ∧
    (0 <= nd_get (relu Z).1 idx)%R.
Proof.
  intros HZ. split_and!.
  - by apply has_shape_map.
  - done.
  - apply relu_idempotent.
  - intros idx Hidx. by apply (relu_nonneg Z sh).
Qed.

Lemma relu_is_idempotent_and_nonnegative_witness :
  has_shape (relu relu_ex_Z).1 [1; 3] ∧
  (relu relu_ex_Z).2 = <["Z" := relu_ex_Z]> ∅ ∧
  (relu (relu relu_ex_Z).1).1 = (relu relu_ex_Z).1 ∧
  ∀ idx, in_bounds [1; 3] idx →
    nd_get (relu relu_ex_Z).1 idx = Rmax 0 (nd_get relu_ex_Z idx) ∧
    (0 <= nd_get (relu relu_ex_Z).1 idx)%R.
Proof.
  apply (relu_is_idempotent_and_nonnegative relu_ex_Z [1; 3]).
  split; reflexivity.
Defined.



(** X3.  [linear_forward(A, W, b)] returns [Z = W.A + b], the bias column
    added to every column, together with the cache [{"A": A}]; a weight
    matrix whose number of columns is not the number of rows of [A] is
    refused with [ValueError]. *)
Theorem linear_forward_is_affine (A W b : ndarray R) (n p m : nat) :
  is_matrix A p m → is_matrix W n p → is_matrix b n 1 →
  returns (linear_forward A W b) (λ '(Z, cache),
    is_matrix Z n m ∧ cache = <["A" := A]> ∅ ∧
    ∀ i j, i < n → j < m →
      nd_get Z [i; j]
      = Rplus (rsum p (λ l, Rmult (nd_get W [i; l]) (nd_get A [l; j])))
              (nd_get b [i; 0])) ∧
  (∀ W' n' p', is_matrix W' n' p' → p' ≠ p →
     linear_forward A W' b = Raise ValueError).
Proof.
  intros HA HW Hb. split.
  - by apply linear_forward_spec.
  - intros W' n' p' HW' Hne. by eapply linear_forward_inner_mismatch.
Qed.

Lemma linear_forward_is_affine_witness :
  returns (linear_forward dense_ex_A dense_ex_W dense_ex_b) (λ '(Z, cache),
    is_matrix Z 1 2 ∧ cache = <["A" := dense_ex_A]> ∅ ∧
    ∀ i j, i < 1 → j < 2 →
      nd_get Z [i; j]
      = Rplus (rsum 1 (λ l, Rmult (nd_get dense_ex_W [i; l])
                                  (nd_get dense_ex_A [l; j])))
              (nd_get dense_ex_b [i; 0])) ∧
  linear_forward dense_ex_A dense_ex_W_bad dense_ex_b = Raise ValueError.
Proof.
  destruct (linear_forward_is_affine dense_ex_A dense_ex_W dense_ex_b 1 1 2)
    as [Hval Herr]; [split; reflexivity..|].
  split; [exact Hval|].
  apply (Herr dense_ex_W_bad 1 2); [split; reflexivity | lia].
Defined.





(** X6.  A store with fewer than two entries has no layer:
    [multi_layer_forward] raises [KeyError] on it, whatever the input. *)
Theorem multi_layer_forward_needs_a_layer (X : ndarray R)
    (parameters : cache_t) :
  size parameters < 2 → multi_layer_forward X parameters = Raise KeyError.
Proof. apply multi_layer_forward_small_store. Qed.

Lemma multi_layer_forward_needs_a_layer_witness :
  multi_layer_forward net_ex_A0 ∅ = Raise KeyError.
Proof.
  apply (multi_layer_forward_needs_a_layer net_ex_A0 ∅).
  rewrite map_size_empty. lia.
Defined.

(** X7.  After the forward pass of a dense store, [multi_layer_backward]
    returns, for every gradient [dAL] of the shape of the scores, a
    dictionary with a gradient ["dWl"] of the shape of ["Wl"] and a
    gradient ["dbl"] of the shape of ["bl"] for every layer, and the
    gradient ["dA"] of the shape of the input. *)
Theorem multi_layer_backward_returns_fitting_gradients (X dAL : ndarray R)
    (parameters : cache_t) (net_dims : list nat) (m : nat) :
  is_dense_store parameters net_dims → 2 ≤ length net_dims →
  is_matrix X (net_dims !!! 0) m → is_matrix dAL (num_classes net_dims) m →
  returns (multi_layer_forward X parameters) (λ '(AL, caches),
    returns (multi_layer_backward dAL caches parameters) (λ gradients,
      is_dense_gradients gradients net_dims m)).
Proof.
  intros Hstore Hlen HX HdAL.
  eapply returns_weaken; [by apply multi_layer_forward_fits|].
  intros [AL caches] [_ Hcaches]. by apply multi_layer_backward_fits.
Qed.

Lemma multi_layer_backward_returns_fitting_gradients_witness :
  returns (multi_layer_forward net_ex_A0 net_ex_parameters) (λ '(AL, caches),
    returns (multi_layer_backward net_ex_dAL caches net_ex_parameters)
      (λ gradients, is_dense_gradients gradients net_ex_dims 1)).
Proof.
  apply (multi_layer_backward_returns_fitting_gradients net_ex_A0 net_ex_dAL
           net_ex_parameters net_ex_dims 1).
  - apply zero_dense_store_ok.
  - simpl. lia.
  - apply has_shape_build.
  - apply has_shape_build.
Defined.

(** ** Properties of the softmax head and of classification *)

Lemma softmax_ex_labels y : y ∈ [1; 0]%Z → (0 ≤ y < Z.of_nat 2)%Z.
Proof.
  intros Hy. apply list_elem_of_In in Hy. simpl in Hy.
  destruct Hy as [<-|[<-|[]]]; lia.
Qed.

(** X8.  Whenever the forward pass of the softmax head returns on a matrix
    [Z], its activation [A] has the shape of [Z], is what the cache holds
    under ["A"], and every entry of it lies between 0 and 1; and the
    forward pass does return when [Z] has at least one row and there is
    at most one label per column, each in range. *)
Theorem softmax_activation_is_a_probability (Z : ndarray R) (n m : nat) :
  is_matrix Z n m →
  (∀ Y A cache loss,
     softmax_cross_entropy_loss Z Y = Ok (A, cache, loss) →
     is_matrix A n m ∧ cache = <["A" := A]> ∅ ∧
     ∀ i j, i < n → j < m → (0 <= nd_get A [i; j] <= 1)%R) ∧
  (∀ Y, n ≠ 0 → length Y ≤ m →
        (∀ y, y ∈ Y → (0 ≤ y < Z.of_nat n)%Z) →
        is_Ok (softmax_cross_entropy_loss Z Y)).
Proof.
  intros HZ. split.
  - intros Y A cache loss Hret.
    destruct (decide (n = 0)) as [->|Hn].
    { unfold softmax_cross_entropy_loss, np_max_axis0_keepdims in Hret.
      destruct HZ as [HZs _]. rewrite HZs in Hret. done. }
    destruct (softmax_forward_unfold Z Y n m HZ Hn) as (A' & HA & HA_get & Heq).
    rewrite Heq in Hret.
    destruct (list_comp _ _) as [IA|e]; [|done]. simpl in Hret.
    injection Hret as <- <- _. split_and!; [done..|].
    intros i j Hi Hj. rewrite HA_get by done.
    destruct (softmax_prob_bounds Z n i j Hi). lra.
  - intros Y Hn HY Hlab.
    destruct (softmax_forward_returns Z Y n m HZ Hn HY Hlab) as (r & Hr & _).
    by exists r.
Qed.

Lemma softmax_activation_is_a_probability_witness :
  (∀ Y A cache loss,
     softmax_cross_entropy_loss softmax_ex_Z Y = Ok (A, cache, loss) →
     is_matrix A 2 2 ∧ cache = <["A" := A]> ∅ ∧
     ∀ i j, i < 2 → j < 2 → (0 <= nd_get A [i; j] <= 1)%R) ∧
  is_Ok (softmax_cross_entropy_loss softmax_ex_Z [1; 0]%Z).
Proof.
  destruct (softmax_activation_is_a_probability softmax_ex_Z 2 2)
    as [Hval Hret]; [split; reflexivity|].
  split; [exact Hval|].
  apply (Hret [1; 0]%Z); [lia | simpl; lia | apply softmax_ex_labels].
Defined.

(** X9.  Over the reals, adding to every column of the scores a number of
    its own changes nothing: activation, cache, loss and exceptions of the
    forward pass are the same (the forward pass subtracts the maximum of
    each column itself). *)
Theorem softmax_forward_is_shift_invariant (Z Z' : ndarray R) (Y : list int)
    (c : nat → R) (n m : nat) :
  is_matrix Z n m → is_matrix Z' n m →
  (∀ i j, i < n → j < m → nd_get Z' [i; j] = Rplus (nd_get Z [i; j]) (c j)) →
  softmax_cross_entropy_loss Z' Y = softmax_cross_entropy_loss Z Y.
Proof. apply softmax_shift_invariant. Qed.

Lemma softmax_forward_is_shift_invariant_witness :
  softmax_cross_entropy_loss shift_ex_Z' [1; 0]%Z
  = softmax_cross_entropy_loss softmax_ex_Z [1; 0]%Z.
Proof.
  apply (softmax_forward_is_shift_invariant softmax_ex_Z shift_ex_Z' [1; 0]%Z
           shift_ex_c 2 2).
  - split; reflexivity.
  - split; reflexivity.
  - intros i j Hi Hj.
    destruct i as [|[|i]]; [| |lia]; (destruct j as [|[|j]]; [| |lia]);
      unfold nd_get, shift_ex_c; simpl; lra.
Defined.

(** X10.  For a batch of at least one sample with labels in range, the
    loss lies between [-ln(clamp 1)], which is positive, and
    [-ln(clamp 0)]: the clamp keeps the logarithm away from 0. *)
Theorem softmax_loss_is_bounded (Z : ndarray R) (Y : list int) (n m : nat) :
  is_matrix Z n m → length Y = m → 1 ≤ m →
  (∀ y, y ∈ Y → (0 ≤ y < Z.of_nat n)%Z) → n ≠ 0 →
  returns (softmax_cross_entropy_loss Z Y) (λ '(A, cache, loss),
    (0 < - ln (clamp 1) <= loss)%R ∧ (loss <= - ln (clamp 0))%R).
Proof.
  intros HZ HY Hm Hlab Hn.
  eapply returns_weaken; [by apply (softmax_loss_bounds Z Y n m)|].
  intros [[A cache] loss] [? ?]. split; [done | lra].
Qed.

Lemma softmax_loss_is_bounded_witness :
  returns (softmax_cross_entropy_loss softmax_ex_Z [1; 0]%Z)
    (λ '(A, cache, loss),
       (0 < - ln (clamp 1) <= loss)%R ∧ (loss <= - ln (clamp 0))%R).
Proof.
  apply (softmax_loss_is_bounded softmax_ex_Z [1; 0]%Z 2 2).
  - split; reflexivity.
  - reflexivity.
  - lia.
  - apply softmax_ex_labels.
  - lia.
Defined.

(** X11.  For labels in range, the backward pass of the softmax head on
    the cache of the forward pass returns the softmax probabilities minus
    the one-hot labels; over the reals each of its columns sums to 0. *)
Theorem softmax_gradient_is_probability_minus_one_hot (Z : ndarray R)
    (Y : list int) (n m : nat) :
  is_matrix Z n m → length Y = m →
  (∀ y, y ∈ Y → (0 ≤ y < Z.of_nat n)%Z) → n ≠ 0 →
  returns (softmax_cross_entropy_loss Z Y) (λ '(A, cache, loss),
    returns (softmax_cross_entropy_loss_der Y cache) (λ dZ,
      is_matrix dZ n m ∧
      (∀ k s, k < n → s < m →
         nd_get dZ [k; s]
         = Rminus (softmax_prob Z n k s)
                  (indicator (Y !! s = Some (Z.of_nat k)))) ∧
      ∀ s, s < m → rsum n (λ k, nd_get dZ [k; s]) = 0%R)).
Proof. apply softmax_gradient_values. Qed.

Lemma softmax_gradient_is_probability_minus_one_hot_witness :
  returns (softmax_cross_entropy_loss softmax_ex_Z [1; 0]%Z)
    (λ '(A, cache, loss),
    returns (softmax_cross_entropy_loss_der [1; 0]%Z cache) (λ dZ,
      is_matrix dZ 2 2 ∧
      (∀ k s, k < 2 → s < 2 →
         nd_get dZ [k; s]
         = Rminus (softmax_prob softmax_ex_Z 2 k s)
                  (indicator ([1; 0]%Z !! s = Some (Z.of_nat k)))) ∧
      ∀ s, s < 2 → rsum 2 (λ k, nd_get dZ [k; s]) = 0%R)).
Proof.
  apply (softmax_gradient_is_probability_minus_one_hot softmax_ex_Z
           [1; 0]%Z 2 2).
  - split; reflexivity.
  - reflexivity.
  - apply softmax_ex_labels.
  - lia.
Defined.

Lemma net_ex_is_network :
  is_network (net_ex_parameters, conv_ex_parameters) net_ex_dims.
Proof.
  split; simpl.
  - apply zero_dense_store_ok.
  - exists (λ _, np_zeros [3; 3]), (λ _, nd_scalar 0%R).
    apply filter_bank_store_ok. intros i _.
    split; [apply has_shape_build | done].
Qed.

(** X12.  On a network of a filter bank and a dense store with at least
    one class, [classify] does not raise on a batch of [m] 28x28 images:
    it returns [m] class indices, each of them below the number of
    classes. *)
Theorem classify_returns_class_indices (X : ndarray R)
    (parameters convParameters : cache_t) (net_dims : list nat) (m : nat) :
  has_shape X [28; 28; m] → 2 ≤ length net_dims → net_dims !!! 0 = 3125 →
  num_classes net_dims ≠ 0 →
  is_network (parameters, convParameters) net_dims →
  returns (classify X parameters convParameters) (λ Ypred,
    has_shape Ypred [m] ∧
    ∀ j, j < m →
      (0 ≤ nd_get Ypred [j] < Z.of_nat (num_classes net_dims))%Z).
Proof.
  intros HX Hlen H0 Hn Hnet.
  destruct (classify_fits X parameters convParameters net_dims m)
    as (A0 & cc & AL & caches & Ypred & _ & _ & Hc & HY & Hget); [done..|].
  exists Ypred. split_and!; [done..|].
  intros j Hj. destruct (Hget j Hj) as (k & -> & Hk & _). lia.
Qed.

Lemma classify_returns_class_indices_witness :
  returns (classify conv_ex_X net_ex_parameters conv_ex_parameters) (λ Ypred,
    has_shape Ypred [1] ∧
    ∀ j, j < 1 →
      (0 ≤ nd_get Ypred [j] < Z.of_nat (num_classes net_ex_dims))%Z).
Proof.
  apply (classify_returns_class_indices conv_ex_X net_ex_parameters
           conv_ex_parameters net_ex_dims 1).
  - apply has_shape_build.
  - simpl. lia.
  - reflexivity.
  - unfold num_classes. simpl. lia.
  - apply net_ex_is_network.
Defined.

(** X13.  Over the reals the softmax does not change the order within a
    column, so that the class that [classify] returns for a sample is the
    first row at which the scores of the last dense layer are maximal. *)
Theorem classify_is_first_argmax_of_scores (X : ndarray R)
    (parameters convParameters : cache_t) (net_dims : list nat) (m : nat) :
  has_shape X [28; 28; m] → 2 ≤ length net_dims → net_dims !!! 0 = 3125 →
  num_classes net_dims ≠ 0 →
  is_network (parameters, convParameters) net_dims →
  returns (conv_forward X convParameters) (λ '(A0, convCache),
    returns (multi_layer_forward A0 parameters) (λ '(AL, caches),
      returns (classify X parameters convParameters) (λ Ypred,
        ∀ j, j < m →
          ∃ k, nd_get Ypred [j] = Z.of_nat k ∧
               is_first_argmax AL (num_classes net_dims) j k))).
Proof.
  intros HX Hlen H0 Hn Hnet.
  destruct (classify_fits X parameters convParameters net_dims m)
    as (A0 & cc & AL & caches & Ypred & Hcf & Hmf & Hc & HY & Hget); [done..|].
  exists (A0, cc). split; [done|]. exists (AL, caches). split; [done|].
  exists Ypred. split; [done|].
  intros j Hj. destruct (Hget j Hj) as (k & Hk & _ & Harg). by exists k.
Qed.

Lemma classify_is_first_argmax_of_scores_witness :
  returns (conv_forward conv_ex_X conv_ex_parameters) (λ '(A0, convCache),
    returns (multi_layer_forward A0 net_ex_parameters) (λ '(AL, caches),
      returns (classify conv_ex_X net_ex_parameters conv_ex_parameters)
        (λ Ypred,
        ∀ j, j < 1 →
          ∃ k, nd_get Ypred [j] = Z.of_nat k ∧
               is_first_argmax AL (num_classes net_ex_dims) j k))).
Proof.
  apply (classify_is_first_argmax_of_scores conv_ex_X net_ex_parameters
           conv_ex_parameters net_ex_dims 1).
  - apply has_shape_build.
  - simpl. lia.
  - reflexivity.
  - unfold num_classes. simpl. lia.
  - apply net_ex_is_network.
Defined.

(** ** Properties of the convolution stage *)

Lemma conv_ex_bank :
  is_filter_bank conv_ex_parameters (λ _, np_zeros [3; 3]) (λ _, nd_scalar 0%R).
Proof.
  apply filter_bank_store_ok. intros i _.
  split; [apply has_shape_build | done].
Qed.

Lemma conv_ex_bank_b1 :
  is_filter_bank conv_ex_parameters_b1
    (λ _, np_zeros [3; 3]) (λ _, nd_scalar 1%R).
Proof.
  apply filter_bank_store_ok. intros i _.
  split; [apply has_shape_build | done].
Qed.

(** X14.  [conv_forward] works for 28x28 images only: on a batch of at
    least one image of any other size (at least 3x3, so that the first
    filter fits) it raises [ValueError], from the reshape of the pooling
    step or from the comparison that builds the mask. *)
Theorem conv_forward_rejects_other_image_sizes (X W b : ndarray R)
    (parameters : cache_t) (h w m : nat) :
  has_shape X [h; w; m] → 3 ≤ h → 3 ≤ w → ¬ (h = 28 ∧ w = 28) → 1 ≤ m →
  parameters !! "convW1" = Some W → parameters !! "convb1" = Some b →
  is_matrix W 3 3 → has_shape b [] →
  conv_forward X parameters = Raise ValueError.
Proof. apply conv_forward_bad_size. Qed.

Lemma conv_forward_rejects_other_image_sizes_witness :
  conv_forward conv_ex_X_small conv_ex_parameters = Raise ValueError.
Proof.
  apply (conv_forward_rejects_other_image_sizes conv_ex_X_small
           (np_zeros [3; 3]) (nd_scalar 0%R) conv_ex_parameters 3 3 1).
  - apply has_shape_build.
  - lia.
  - lia.
  - lia.
  - lia.
  - reflexivity.
  - reflexivity.
  - apply has_shape_build.
  - split; reflexivity.
Defined.

(** X15.  [conv_forward] reads the filters one after the other: with the
    filters before number [i0 + 1] in place, a missing weight or bias of
    filter [i0 + 1] raises [KeyError]. *)
Theorem conv_forward_missing_filter_key_error (X : ndarray R)
    (parameters : cache_t) (W b : nat → ndarray R) (m i0 : nat) :
  has_shape X [28; 28; m] → i0 < 5 →
  (∀ i, i < i0 →
     parameters !! ("convW" +:+ str (i + 1)) = Some (W i) ∧
     parameters !! ("convb" +:+ str (i + 1)) = Some (b i) ∧
     has_shape (W i) [3; 3] ∧ has_shape (b i) []) →
  parameters !! ("convW" +:+ str (i0 + 1)) = None ∨
  parameters !! ("convb" +:+ str (i0 + 1)) = None →
  conv_forward X parameters = Raise KeyError.
Proof. apply conv_forward_missing_filter. Qed.

Lemma conv_forward_missing_filter_key_error_witness :
  conv_forward conv_ex_X ∅ = Raise KeyError.
Proof.
  apply (conv_forward_missing_filter_key_error conv_ex_X ∅
           (λ _, np_zeros [3; 3]) (λ _, nd_scalar 0%R) 1 0).
  - apply has_shape_build.
  - lia.
  - intros i Hi. lia.
  - left. reflexivity.
Defined.

(** X16.  On an empty batch the loops over the samples do nothing:
    whatever the image size and the shapes of the filters, [conv_forward]
    returns features of shape (3125, 0), and the cache holds the input. *)
Theorem conv_forward_accepts_an_empty_batch (X : ndarray R)
    (parameters : cache_t) (h w : nat) :
  shape X = [h; w; 0] →
  (∀ i, i < 5 →
     is_Some (parameters !! ("convW" +:+ str (i + 1))) ∧
     is_Some (parameters !! ("convb" +:+ str (i + 1)))) →
  returns (conv_forward X parameters) (λ '(Z, cache),
    is_matrix Z 3125 0 ∧ conv_floats cache !! "A" = Some X).
Proof. apply conv_forward_empty_batch. Qed.

Lemma conv_forward_accepts_an_empty_batch_witness :
  returns (conv_forward conv_ex_X_empty conv_ex_parameters) (λ '(Z, cache),
    is_matrix Z 3125 0 ∧ conv_floats cache !! "A" = Some conv_ex_X_empty).
Proof.
  apply (conv_forward_accepts_an_empty_batch conv_ex_X_empty
           conv_ex_parameters 5 7).
  - reflexivity.
  - intros i Hi. destruct (conv_ex_bank i Hi) as (HW & Hb & _).
    rewrite HW, Hb. split; by eexists.
Defined.

(** X17.  Two filter banks with the same filters and other biases give,
    over the reals, pooled features that differ by the difference of the
    biases, filter by filter, and the same pooling masks. *)
Theorem conv_forward_bias_moves_features_not_masks (X : ndarray R)
    (parameters parameters' : cache_t) (W b b' : nat → ndarray R) (m : nat) :
  has_shape X [28; 28; m] →
  is_filter_bank parameters W b → is_filter_bank parameters' W b' →
  returns (conv_forward X parameters) (λ '(Z, cache),
    returns (conv_forward X parameters') (λ '(Z', cache'),
      (∀ i r c j, i < 5 → r < 25 → c < 25 → j < m →
         nd_get Z' [625 * i + 25 * r + c; j]
         = Rplus (nd_get Z [625 * i + 25 * r + c; j])
                 (Rminus (np_float (b' i)) (np_float (b i)))) ∧
      conv_ints cache' !! "masks" = conv_ints cache !! "masks")).
Proof. apply conv_forward_bias_shift. Qed.

Lemma conv_forward_bias_moves_features_not_masks_witness :
  returns (conv_forward conv_ex_X conv_ex_parameters) (λ '(Z, cache),
    returns (conv_forward conv_ex_X conv_ex_parameters_b1) (λ '(Z', cache'),
      (∀ i r c j, i < 5 → r < 25 → c < 25 → j < 1 →
         nd_get Z' [625 * i + 25 * r + c; j]
         = Rplus (nd_get Z [625 * i + 25 * r + c; j])
                 (Rminus (np_float (nd_scalar 1%R)) (np_float (nd_scalar 0%R)))) ∧
      conv_ints cache' !! "masks" = conv_ints cache !! "masks")).
Proof.
  apply (conv_forward_bias_moves_features_not_masks conv_ex_X
           conv_ex_parameters conv_ex_parameters_b1
           (λ _, np_zeros [3; 3]) (λ _, nd_scalar 0%R) (λ _, nd_scalar 1%R) 1).
  - apply has_shape_build.
  - apply conv_ex_bank.
  - apply conv_ex_bank_b1.
Defined.

(** ** Properties of the update *)

Lemma update_ex_dense_fits k :
  k ∈ dense_keys (size update_ex_parameters / 2) →
  gradient_fits update_ex_parameters update_ex_gradients k.
Proof.
  change (size update_ex_parameters / 2) with 1.
  intros (l & Hl & Hk)%elem_of_dense_keys. assert (l = 1) as -> by lia.
  destruct Hk as [-> | ->]; eexists _, _, _;
    (split_and!; [reflexivity | reflexivity | split; reflexivity..]).
Qed.

Lemma update_ex_conv_fits k :
  k ∈ conv_keys → gradient_fits update_ex_convParameters update_ex_convGradients k.
Proof.
  intros (i & Hi & Hk)%elem_of_conv_keys.
  do 5 (destruct i as [|i];
        [destruct Hk as [-> | ->]; eexists _, _, _;
           (split_and!; [reflexivity | reflexivity | split; reflexivity..])|]).
  lia.
Qed.

(** X18.  When 1 + decay_rate * epoch is not 0 and every dense parameter
    has a gradient of its shape, [update_parameters] returns the rate
    [alpha = learning_rate * (1 / (1 + decay_rate * epoch))] and has moved
    every entry of every weight and bias of the layers [1..L] by [-alpha]
    times the entry of its gradient; no other key is touched. *)
Theorem update_parameters_is_a_gradient_step (parameters gradients : cache_t)
    (epoch : int) (learning_rate decay_rate : R) :
  (1 + decay_rate * IZR epoch)%R ≠ 0%R →
  (∀ k, k ∈ dense_keys (size parameters / 2) →
     gradient_fits parameters gradients k) →
  ∃ parameters',
    update_parameters parameters gradients epoch learning_rate decay_rate
      = (parameters',
         Ok (learning_rate * (1 / (1 + decay_rate * IZR epoch)))%R) ∧
    size parameters' = size parameters ∧
    (∀ k, k ∉ dense_keys (size parameters / 2) →
       parameters' !! k = parameters !! k) ∧
    (∀ k, k ∈ dense_keys (size parameters / 2) →
       descent_step_at (learning_rate * (1 / (1 + decay_rate * IZR epoch)))
         parameters gradients parameters' k).
Proof. apply update_parameters_step. Qed.

Lemma update_parameters_is_a_gradient_step_witness :
  ∃ parameters',
    update_parameters update_ex_parameters update_ex_gradients 1 0.8 0.003
      = (parameters', Ok (0.8 * (1 / (1 + 0.003 * IZR 1)))%R) ∧
    size parameters' = size update_ex_parameters ∧
    (∀ k, k ∉ dense_keys (size update_ex_parameters / 2) →
       parameters' !! k = update_ex_parameters !! k) ∧
    (∀ k, k ∈ dense_keys (size update_ex_parameters / 2) →
       descent_step_at (0.8 * (1 / (1 + 0.003 * IZR 1)))
         update_ex_parameters update_ex_gradients parameters' k).
Proof.
  apply (update_parameters_is_a_gradient_step update_ex_parameters
           update_ex_gradients 1 0.8 0.003).
  - lra.
  - apply update_ex_dense_fits.
Defined.

(** X19.  When every filter and bias has a gradient of its shape,
    [update_conv] does not raise and has moved every entry of the five
    filters and the five biases by [-alpha] times the entry of its
    gradient; no other key is touched. *)
Theorem update_conv_is_a_gradient_step (parameters gradients : cache_t)
    (alpha : R) :
  (∀ k, k ∈ conv_keys → gradient_fits parameters gradients k) →
  ∃ parameters',
    update_conv parameters gradients alpha = (parameters', Ok ()) ∧
    size parameters' = size parameters ∧
    (∀ k, k ∉ conv_keys → parameters' !! k = parameters !! k) ∧
    (∀ k, k ∈ conv_keys →
       descent_step_at alpha parameters gradients parameters' k).
Proof. apply update_conv_step. Qed.

Lemma update_conv_is_a_gradient_step_witness :
  ∃ parameters',
    update_conv update_ex_convParameters update_ex_convGradients 0.5
      = (parameters', Ok ()) ∧
    size parameters' = size update_ex_convParameters ∧
    (∀ k, k ∉ conv_keys → parameters' !! k = update_ex_convParameters !! k) ∧
    (∀ k, k ∈ conv_keys →
       descent_step_at 0.5 update_ex_convParameters update_ex_convGradients
         parameters' k).
Proof.
  apply (update_conv_is_a_gradient_step update_ex_convParameters
           update_ex_convGradients 0.5).
  apply update_ex_conv_fits.
Defined.

(** X20.  [update_parameters] raises [ZeroDivisionError] exactly when
    1 + decay_rate * epoch is 0; no parameter has been changed then. *)
Theorem update_parameters_zero_division_iff (parameters gradients : cache_t)
    (epoch : int) (learning_rate decay_rate : R) :
  ((update_parameters parameters gradients epoch learning_rate decay_rate).2
     = Raise ZeroDivisionError
   ↔ (1 + decay_rate * IZR epoch)%R = 0%R) ∧
  ((1 + decay_rate * IZR epoch)%R = 0%R →
   (update_parameters parameters gradients epoch learning_rate decay_rate).1
     = parameters).
Proof. apply update_parameters_zero_division. Qed.

Lemma update_parameters_zero_division_iff_witness :
  (update_parameters update_ex_parameters update_ex_gradients 1 0.8 (-1)).2
    = Raise ZeroDivisionError ∧
  (update_parameters update_ex_parameters update_ex_gradients 1 0.8 (-1)).1
    = update_ex_parameters.
Proof.
  destruct (update_parameters_zero_division_iff update_ex_parameters
              update_ex_gradients 1 0.8 (-1)) as [Hiff Hsame].
  split; [apply Hiff | apply Hsame]; lra.
Defined.

(** X21.  The update is not atomic.  With [L] the number of layers: if
    ["WL"] has a gradient of its shape and ["bL"] is in the store but
    ["dbL"] is not among the gradients, [update_parameters] raises
    [KeyError] and leaves a store in which ["WL"] has been moved and
    nothing else. *)
Theorem update_parameters_is_not_atomic (parameters gradients : cache_t)
    (epoch : int) (learning_rate decay_rate : R) (L : nat) :
  size parameters / 2 = L → 1 ≤ L →
  (1 + decay_rate * IZR epoch)%R ≠ 0%R →
  gradient_fits parameters gradients ("W" +:+ str L) →
  is_Some (parameters !! ("b" +:+ str L)) →
  gradients !! ("db" +:+ str L) = None →
  ∃ parameters',
    update_parameters parameters gradients epoch learning_rate decay_rate
      = (parameters', Raise KeyError) ∧
    descent_step_at (learning_rate * (1 / (1 + decay_rate * IZR epoch)))
      parameters gradients parameters' ("W" +:+ str L) ∧
    ∀ k, k ≠ "W" +:+ str L → parameters' !! k = parameters !! k.
Proof. apply update_parameters_partial. Qed.

Lemma update_parameters_is_not_atomic_witness :
  ∃ parameters',
    update_parameters update_ex_parameters update_ex_gradients_partial
      1 0.8 0.003
      = (parameters', Raise KeyError) ∧
    descent_step_at (0.8 * (1 / (1 + 0.003 * IZR 1)))
      update_ex_parameters update_ex_gradients_partial parameters'
      ("W" +:+ str 1) ∧
    ∀ k, k ≠ "W" +:+ str 1 → parameters' !! k = update_ex_parameters !! k.
Proof.
  apply (update_parameters_is_not_atomic update_ex_parameters
           update_ex_gradients_partial 1 0.8 0.003 1).
  - reflexivity.
  - lia.
  - lra.
  - eexists _, _, _.
    split_and!; [reflexivity | reflexivity | split; reflexivity..].
  - eexists. reflexivity.
  - reflexivity.
Defined.

(** ** Properties of the initialisation and of the training loop *)

Lemma net_ex_batch : is_batch conv_ex_X net_ex_Y net_ex_dims 1.
Proof.
  split_and!.
  - apply has_shape_build.
  - lia.
  - reflexivity.
  - simpl. lia.
  - reflexivity.
  - unfold num_classes. simpl. lia.
  - intros y Hy. apply list_elem_of_singleton in Hy as ->.
    unfold num_classes. simpl. lia.
Qed.

Lemma net_ex_rate (ii : nat) : (1 + 0.003 * INR ii)%R ≠ 0%R.
Proof. pose proof (pos_INR ii). lra. Qed.

(** X22.  Whatever numbers are drawn, [initialize_multilayer_weights]
    does not raise and returns a network for the widths [net_dims]: a
    dense store with exactly the entries ["Wl"] of shape
    (net_dims[l], net_dims[l-1]) and ["bl"] of shape (net_dims[l], 1) for
    l = 1..len(net_dims)-1, none at all for fewer than two widths, and a
    bank of five 3x3 filters with scalar biases. *)
Theorem initialize_multilayer_weights_creates_a_network (rng : nat → R)
    (net_dims : list nat) :
  returns (initialize_multilayer_weights rng net_dims) (λ stores,
    is_network stores net_dims).
Proof. apply initialize_multilayer_weights_fits. Qed.

(** X23.  One iteration of the training loop on a network and a batch of
    [m ≥ 1] 28x28 images with labels in range, with 1 + decay_rate * ii
    other than 0, does not raise: it returns a network of the same widths,
    and the cost it appends for every tenth iteration is the loss of the
    network before the update. *)
Theorem training_iteration_keeps_the_network (X : ndarray R) (Y : list int)
    (learning_rate decay_rate : R) (ii : nat) (costs : list R)
    (parameters convParameters : cache_t) (net_dims : list nat) (m : nat) :
  is_batch X Y net_dims m → is_network (parameters, convParameters) net_dims →
  (1 + decay_rate * INR ii)%R ≠ 0%R →
  ∃ cost parameters' convParameters',
    network_loss X Y parameters convParameters = Ok cost ∧
    training_iteration X Y learning_rate decay_rate ii
      (costs, parameters, convParameters)
    = Ok (if decide (ii mod 10 = 0) then costs ++ [cost] else costs,
          parameters', convParameters') ∧
    is_network (parameters', convParameters') net_dims.
Proof.
  intros Hbatch Hnet Hrate. apply (training_iteration_fits _ _ _ _ _ _ _ _ _ m);
    [done..|].
  by rewrite rate_Z_of_nat.
Qed.

Lemma training_iteration_keeps_the_network_witness :
  ∃ cost parameters' convParameters',
    network_loss conv_ex_X net_ex_Y net_ex_parameters conv_ex_parameters
      = Ok cost ∧
    training_iteration conv_ex_X net_ex_Y 0.8 0.003 10
      ([], net_ex_parameters, conv_ex_parameters)
    = Ok (if decide (10 mod 10 = 0) then [] ++ [cost] else [],
          parameters', convParameters') ∧
    is_network (parameters', convParameters') net_ex_dims.
Proof.
  apply (training_iteration_keeps_the_network conv_ex_X net_ex_Y 0.8 0.003 10
           [] net_ex_parameters conv_ex_parameters net_ex_dims 1).
  - apply net_ex_batch.
  - apply net_ex_is_network.
  - apply net_ex_rate.
Defined.

(** X24.  [multi_layer_network] on a batch of [m ≥ 1] 28x28 images with
    labels in range, for at least one dense layer reading 3125 features
    and at least one class, does not raise when 1 + decay_rate * ii is
    other than 0 for every iteration [ii]: it returns a network of the
    widths [net_dims] and one cost for every tenth iteration, beginning
    with iteration 0. *)
Theorem multi_layer_network_trains_to_the_end (rng : nat → R) (X : ndarray R)
    (Y : list int) (net_dims : list nat) (num_iterations : nat)
    (learning_rate decay_rate : R) (m : nat) :
  is_batch X Y net_dims m →
  (∀ ii, ii < num_iterations → (1 + decay_rate * INR ii)%R ≠ 0%R) →
  returns (multi_layer_network rng X Y net_dims num_iterations
             learning_rate decay_rate)
    (λ '(costs, parameters, convParameters),
       length costs = (num_iterations + 9) / 10 ∧
       is_network (parameters, convParameters) net_dims).
Proof. apply multi_layer_network_fits. Qed.

Lemma multi_layer_network_trains_to_the_end_witness :
  returns (multi_layer_network (λ k, INR k) conv_ex_X net_ex_Y net_ex_dims 25
             0.8 0.003)
    (λ '(costs, parameters, convParameters),
       length costs = (25 + 9) / 10 ∧
       is_network (parameters, convParameters) net_ex_dims).
Proof.
  apply (multi_layer_network_trains_to_the_end (λ k, INR k) conv_ex_X net_ex_Y
           net_ex_dims 25 0.8 0.003 1).
  - apply net_ex_batch.
  - intros ii _. apply net_ex_rate.
Defined.

(** X25.  Over the reals, [multi_layer_network] with learning rate 0
    returns the network that [initialize_multilayer_weights] created, and
    every cost it has logged is the loss of that network. *)
Theorem multi_layer_network_with_rate_zero_returns_the_initial_network
    (rng : nat → R) (X : ndarray R) (Y : list int) (net_dims : list nat)
    (num_iterations : nat) (decay_rate : R) (m : nat) :
  is_batch X Y net_dims m →
  (∀ ii, ii < num_iterations → (1 + decay_rate * INR ii)%R ≠ 0%R) →
  ∃ parameters convParameters cost,
    initialize_multilayer_weights rng net_dims
      = Ok (parameters, convParameters) ∧
    network_loss X Y parameters convParameters = Ok cost ∧
    multi_layer_network rng X Y net_dims num_iterations 0 decay_rate
      = Ok (replicate ((num_iterations + 9) / 10) cost,
            parameters, convParameters).
Proof. apply multi_layer_network_zero_rate. Qed.

Lemma multi_layer_network_with_rate_zero_returns_the_initial_network_witness :
  ∃ parameters convParameters cost,
    initialize_multilayer_weights (λ k, INR k) net_ex_dims
      = Ok (parameters, convParameters) ∧
    network_loss conv_ex_X net_ex_Y parameters convParameters = Ok cost ∧
    multi_layer_network (λ k, INR k) conv_ex_X net_ex_Y net_ex_dims 25 0 0.003
      = Ok (replicate ((25 + 9) / 10) cost, parameters, convParameters).
Proof.
  apply (multi_layer_network_with_rate_zero_returns_the_initial_network
           (λ k, INR k) conv_ex_X net_ex_Y net_ex_dims 25 0.003 1).
  - apply net_ex_batch.
  - intros ii _. apply net_ex_rate.
Defined.

(** X26.  Fewer than two layer widths give a network without dense layer:
    on a batch of 28x28 images the first iteration of
    [multi_layer_network] raises [KeyError]. *)
Theorem multi_layer_network_needs_a_dense_layer (rng : nat → R)
    (X : ndarray R) (Y : list int) (net_dims : list nat)
    (num_iterations : nat) (learning_rate decay_rate : R) (m : nat) :
  has_shape X [28; 28; m] → length net_dims < 2 → 1 ≤ num_iterations →
  multi_layer_network rng X Y net_dims num_iterations learning_rate decay_rate
  = Raise KeyError.
Proof. apply multi_layer_network_no_layers. Qed.

Lemma multi_layer_network_needs_a_dense_layer_witness :
  multi_layer_network (λ k, INR k) conv_ex_X net_ex_Y [3125] 200 0.8 0.003
  = Raise KeyError.
Proof.
  apply (multi_layer_network_needs_a_dense_layer (λ k, INR k) conv_ex_X
           net_ex_Y [3125] 200 0.8 0.003 1).
  - apply has_shape_build.
  - simpl. lia.
  - lia.
Defined.

(** ** Label rows that are longer or shorter than the batch *)

(** A label beyond the last column raises [IndexError], whatever it is;
    so does every invalid label before it. *)
Lemma softmax_forward_long_labels (Z : ndarray R) (Y : list int) n m :
  is_matrix Z n m → n ≠ 0 → m < length Y →
  softmax_cross_entropy_loss Z Y = Raise IndexError.
Proof.
  intros HZ Hn HY.
  destruct (softmax_forward_unfold Z Y n m HZ Hn) as (A & HA & _ & ->).
  match goal with |- context [list_comp ?f ?xs] =>
    destruct (list_comp_cases f
      (λ i, m ≤ i ∨
            ∃ y, Y !! i = Some y ∧ ¬ (- Z.of_nat n ≤ y < Z.of_nat n)%Z)
      IndexError xs) as [[_ ->] | [Hall _]]
  end; [|done|].
  - intros i Hi%elem_of_range.
    destruct (lookup_lt_is_Some_2 Y i Hi) as [y Hy].
    destruct (decide (i < m)) as [Him|Him].
    + destruct (true_class_item A Y n m i y HA Him Hy) as [[Hout ->]|[Hin ->]].
      * left. split; [right; by exists y | done].
      * right. split; [|by eexists]. intros [?|(y' & Hy' & Hout)]; [lia|].
        assert (y' = y) as -> by congruence. done.
    + left. split; [left; lia|].
      unfold list_get. rewrite Hy. cbn [mbind result_bind].
      destruct (decide (- Z.of_nat n ≤ y < Z.of_nat n)%Z) as [Hin|Hout].
      * destruct (py_norm_index_in n y Hin) as (r & Hr & Hrn & _).
        destruct (np_item_spec A n [m] y r HA Hr Hrn) as (row & -> & Hrow & _).
        cbn [mbind result_bind]. unfold np_item. destruct Hrow as [-> _].
        by rewrite py_norm_index_out by lia.
      * unfold np_item. destruct HA as [-> _].
        by rewrite py_norm_index_out.
  - exfalso. rewrite Forall_forall in Hall. apply (Hall m).
    + apply elem_of_range. lia.
    + left. lia.
Qed.

Lemma softmax_backward_long_labels (A : ndarray R) (Y : list int)
    (cache : cache_t) n m :
  cache !! "A" = Some A → is_matrix A n m → m < length Y →
  softmax_cross_entropy_loss_der Y cache = Raise IndexError.
Proof.
  intros Hc HA HY. unfold softmax_cross_entropy_loss_der.
  rewrite (dict_get_Some _ _ _ Hc). cbn [mbind result_bind].
  match goal with |- context [for_each ?xs ?body ?s] =>
    destruct (for_each_cases body (λ dZ, is_matrix dZ n m)
      (λ i, m ≤ i ∨
            ∃ y, Y !! i = Some y ∧ ¬ (- Z.of_nat n ≤ y < Z.of_nat n)%Z)
      IndexError xs s HA) as [[_ ->] | [Hall _]]
  end; [|done|].
  - intros i dZ Hi%elem_of_range HdZ.
    destruct (lookup_lt_is_Some_2 Y i Hi) as [y Hy].
    unfold list_get. rewrite Hy. cbn [mbind result_bind]. unfold np_isub_at2.
    destruct HdZ as [HdZs HdZl]. rewrite HdZs.
    destruct (decide (- Z.of_nat n ≤ y < Z.of_nat n)%Z) as [Hin|Hout].
    + destruct (py_norm_index_in n y Hin) as (r & -> & _ & _).
      cbn [mbind result_bind].
      destruct (decide (i < m)) as [Him|Him].
      * right. split.
        { intros [?|(y' & Hy' & Hout')]; [lia|].
          assert (y' = y) as -> by congruence. done. }
        rewrite py_norm_index_nonneg by lia. cbn [mbind result_bind].
        apply returns_ok. by apply has_shape_update.
      * left. split; [left; lia|]. by rewrite py_norm_index_out by lia.
    + left. split; [right; by exists y|].
      by rewrite (py_norm_index_out n y).
  - exfalso. rewrite Forall_forall in Hall. apply (Hall m).
    + apply elem_of_range. lia.
    + left. lia.
Qed.

(** X27.  The label row is not required to have one label per column.
    With more labels than columns both passes of the softmax head raise
    [IndexError], whatever the labels; with fewer labels in range both
    passes return, and the gradient of a column without a label is the
    activation of that column. *)
Theorem softmax_label_row_of_another_length (Z : ndarray R) (Y : list int)
    (n m : nat) :
  is_matrix Z n m → n ≠ 0 →
  (m < length Y →
     softmax_cross_entropy_loss Z Y = Raise IndexError ∧
     ∀ A cache, cache !! "A" = Some A → is_matrix A n m →
       softmax_cross_entropy_loss_der Y cache = Raise IndexError) ∧
  (length Y ≤ m → (∀ y, y ∈ Y → (0 ≤ y < Z.of_nat n)%Z) →
     returns (softmax_cross_entropy_loss Z Y) (λ '(A, cache, loss),
       returns (softmax_cross_entropy_loss_der Y cache) (λ dZ,
         is_matrix dZ n m ∧
         ∀ k s, k < n → length Y ≤ s < m →
           nd_get dZ [k; s] = nd_get A [k; s]))).
Proof.
  intros HZ Hn. split.
  - intros HY. split; [by eapply softmax_forward_long_labels|].
    intros A cache Hc HA. by eapply softmax_backward_long_labels.
  - intros HY Hlab.
    eapply returns_weaken; [by apply (softmax_forward_returns Z Y n m)|].
    intros [[A cache] loss] (HA & -> & _).
    eapply returns_weaken.
    { eapply (softmax_backward_values A Y _ n m);
        [apply lookup_insert_eq | done..]. }
    intros dZ [HdZ HdZ_get]. split; [done|].
    intros k s Hk Hs. rewrite HdZ_get by lia.
    rewrite indicator_false; [lra|].
    intros Hy. apply lookup_lt_Some in Hy. lia.
Qed.

Lemma softmax_label_row_of_another_length_witness :
  softmax_cross_entropy_loss softmax_ex_Z [1; 0; 0]%Z = Raise IndexError ∧
  returns (softmax_cross_entropy_loss softmax_ex_Z [1]%Z) (λ '(A, cache, loss),
    returns (softmax_cross_entropy_loss_der [1]%Z cache) (λ dZ,
      is_matrix dZ 2 2 ∧
      ∀ k s, k < 2 → length [1%Z] ≤ s < 2 →
        nd_get dZ [k; s] = nd_get A [k; s])).
Proof.
  split.
  - apply (softmax_label_row_of_another_length softmax_ex_Z [1; 0; 0]%Z 2 2).
    + split; reflexivity.
    + lia.
    + simpl. lia.
  - apply (softmax_label_row_of_another_length softmax_ex_Z [1]%Z 2 2).
    + split; reflexivity.
    + lia.
    + simpl. lia.
    + intros y Hy. apply list_elem_of_singleton in Hy as ->. lia.
Defined.

(** ** The bias gradient in terms of the pooled gradient *)

Lemma rsum_plus n (f g : nat → R) :
  rsum n (λ k, Rplus (f k) (g k)) = Rplus (rsum n f) (rsum n g).
Proof.
  induction n as [|n IH]; [rewrite !rsum_0; lra|].
  rewrite !rsum_S, IH. lra.
Qed.

Lemma rsum_swap n m (f : nat → nat → R) :
  rsum n (λ i, rsum m (λ j, f i j)) = rsum m (λ j, rsum n (λ i, f i j)).
Proof.
  induction n as [|n IH].
  - rewrite rsum_0. symmetry. apply rsum_zero. intros j _. apply rsum_0.
  - rewrite rsum_S, IH, <- rsum_plus. apply rsum_ext. intros j _.
    by rewrite rsum_S.
Qed.

Lemma rsum_pairs n (f : nat → R) :
  rsum (2 * n) f = rsum n (λ x, rsum 2 (λ p, f (2 * x + p))).
Proof.
  rewrite (Nat.mul_comm 2 n), rsum_mul. apply rsum_ext. intros x _.
  apply rsum_ext. intros p _. f_equal. lia.
Qed.

Lemma rsum_div_mod n m (f : nat → nat → R) :
  m ≠ 0 →
  rsum (n * m) (λ k, f (k / m) (k mod m)) = rsum n (λ x, rsum m (λ y, f x y)).
Proof.
  intros Hm. rewrite rsum_mul. apply rsum_ext. intros x _.
  apply rsum_ext. intros y Hy. f_equal.
  - symmetry. apply Nat.div_unique with y; lia.
  - symmetry. apply Nat.mod_unique with x; lia.
Qed.

Lemma rsum_S_first n (g : nat → R) :
  rsum (S n) g = Rplus (g 0) (rsum n (λ u, g (S u))).
Proof.
  induction n as [|n IH].
  - rewrite rsum_S, !rsum_0. lra.
  - rewrite rsum_S, IH, rsum_S. lra.
Qed.

(** A sum whose first and last terms are 0. *)
Lemma rsum_trim n (g : nat → R) :
  g 0 = 0%R → g (S n) = 0%R → rsum (S (S n)) g = rsum n (λ u, g (S u)).
Proof.
  intros H0 Hn. rewrite rsum_S, Hn, rsum_S_first, H0. lra.
Qed.

(** The sum of the padded 52x52 array, two by two, is the sum of the
    50x50 array inside. *)
Lemma rsum_unpad (G : nat → nat → R) :
  rsum 26 (λ x, rsum 26 (λ y, rsum 2 (λ p, rsum 2 (λ q,
    if decide (1 ≤ 2 * x + p ≤ 50 ∧ 1 ≤ 2 * y + q ≤ 50)
    then G (2 * x + p - 1) (2 * y + q - 1) else 0%R))))
  = rsum 50 (λ u, rsum 50 (λ v, G u v)).
Proof.
  set (H := λ t t', if decide (1 ≤ t ≤ 50 ∧ 1 ≤ t' ≤ 50)
                    then G (t - 1) (t' - 1) else 0%R).
  transitivity (rsum (2 * 26) (λ t, rsum (2 * 26) (λ t', H t t'))).
  - rewrite rsum_pairs. apply rsum_ext. intros x _.
    rewrite rsum_swap. apply rsum_ext. intros p _.
    by rewrite rsum_pairs.
  - change (2 * 26) with (S (S 50)). rewrite (rsum_trim 50).
    + apply rsum_ext. intros u Hu. rewrite (rsum_trim 50).
      * apply rsum_ext. intros v Hv. unfold H.
        rewrite decide_True by lia. f_equal; lia.
      * unfold H. by rewrite decide_False by lia.
      * unfold H. by rewrite decide_False by lia.
    + apply rsum_zero. intros t' _. unfold H. by rewrite decide_False by lia.
    + apply rsum_zero. intros t' _. unfold H. by rewrite decide_False by lia.
Qed.

Lemma mask_entry_window_position (z : nat → nat → R) r c p q :
  p < 2 → q < 2 →
  IZR (mask_entry z (2 * r + p) (2 * c + q))
  = indicator (z (r + p) (c + q) = window_max z r c).
Proof.
  intros Hp Hq. unfold mask_entry.
  rewrite !half_succ_double, !half_double by done.
  unfold indicator. case_decide.
  - by rewrite bool_decide_true.
  - by rewrite bool_decide_false.
Qed.

(** The mean that [conv_backward] returns as bias gradient counts the
    pooled gradient of a window once for every position of the window
    that holds its maximum. *)
Lemma bias_accumulation_ties (X W b dA : ndarray R) (f m : nat) :
  bias_accumulation (pre_pool_gradient X W b dA f) m
  = tie_weighted_mean X W b dA f m.
Proof.
  unfold bias_accumulation, tie_weighted_mean. f_equal.
  rewrite rsum_swap. apply rsum_ext. intros s _.
  change 676 with (26 * 26).
  rewrite (rsum_div_mod 26 26 (pre_pool_gradient X W b dA f s)) by done.
  unfold pre_pool_gradient.
  rewrite (rsum_unpad (λ u v,
    Rmult (nd_get dA [625 * f + 25 * (u / 2) + v / 2; s])
          (IZR (mask_entry (conv_entry X W b s) u v)))).
  change 50 with (2 * 25). rewrite rsum_pairs.
  apply rsum_ext. intros r _.
  rewrite (rsum_ext 2 _ (λ p, rsum 25 (λ c, rsum 2 (λ q,
    Rmult (nd_get dA [625 * f + 25 * r + c; s])
          (indicator (conv_entry X W b s (r + p) (c + q)
                      = window_max (conv_entry X W b s) r c)))))).
  - rewrite rsum_swap. apply rsum_ext. intros c _.
    unfold window_ties.
    rewrite Rmult_comm, <- rsum_scal. apply rsum_ext. intros p _.
    rewrite <- rsum_scal. apply rsum_ext. intros q _. apply Rmult_comm.
  - intros p Hp. rewrite rsum_pairs. apply rsum_ext. intros c _.
    apply rsum_ext. intros q Hq.
    rewrite mask_entry_window_position by done.
    rewrite !half_double by done. done.
Qed.

Lemma indicator_bounds (P : Prop) `{Decision P} : (0 <= indicator P <= 1)%R.
Proof. unfold indicator. case_decide; lra. Qed.

Lemma window_ties_bounds (z : nat → nat → R) r c :
  (1 <= window_ties z r c <= 4)%R.
Proof.
  unfold window_ties, rsum, range.
  cbn [seq fmap list_fmap sumR foldr].
  pose proof (indicator_bounds (z (r + 0) (c + 0) = window_max z r c)).
  pose proof (indicator_bounds (z (r + 0) (c + 1) = window_max z r c)).
  pose proof (indicator_bounds (z (r + 1) (c + 0) = window_max z r c)).
  pose proof (indicator_bounds (z (r + 1) (c + 1) = window_max z r c)).
  split; [|lra].
  destruct (window_max_attained z r c) as (p & q & Hp & Hq & Hmax).
  assert (Hone : indicator (z (r + p) (c + q) = window_max z r c) = 1%R)
    by by apply indicator_true.
  destruct p as [|[|p]]; [| |lia]; (destruct q as [|[|q]]; [| |lia]); lra.
Qed.

(** X28.  The gradient ["dconvb"] that [conv_backward] returns for a filter
    on the cache of [conv_forward] is the sum of the pre-pool gradient of
    the filter over the 676 positions and the [m] samples, divided by
    m * 676.  Over the reals this is the pooled gradient [dA] of the
    filter, every window counted as often as its maximum occurs in it
    (between 1 and 4 times), summed and divided by m * 676: a tie
    multiplies the gradient of its window. *)
Theorem conv_backward_bias_gradient_counts_ties
    (X dA : ndarray R) (parameters : cache_t) (W b : nat → ndarray R) (m : nat) :
  has_shape X [28; 28; m] → is_filter_bank parameters W b →
  is_matrix dA 3125 m →
  returns (conv_forward X parameters) (λ '(Z, cache),
    returns (conv_backward dA cache parameters) (λ gradients,
      ∀ i, i < 5 →
        gradients !! ("dconvb" +:+ str (i + 1))
        = Some (nd_scalar
                  (bias_accumulation
                     (pre_pool_gradient X (W i) (b i) dA i) m)) ∧
        bias_accumulation (pre_pool_gradient X (W i) (b i) dA i) m
        = tie_weighted_mean X (W i) (b i) dA i m ∧
        ∀ s r c,
          (1 <= window_ties (conv_entry X (W i) (b i) s) r c <= 4)%R)).
Proof.
  intros HX Hbank HdA.
  eapply returns_weaken; [by apply (conv_forward_spec X parameters W b m)|].
  intros [Z cache] (_ & _ & HcA & masks & Hcm & Hmasks & Hm_get).
  eapply returns_weaken;
    [by apply (conv_backward_full_spec dA X masks cache parameters m)|].
  intros gradients Hg i Hi.
  destruct (Hg i Hi) as [_ ->]. split_and!.
  - do 2 f_equal. unfold bias_accumulation. f_equal.
    apply rsum_ext. intros k Hk'. apply rsum_ext. intros s Hs'.
    apply (unpool_entry_masks X (W i) (b i) dA masks).
    intros u v Hu Hv. by apply Hm_get.
  - apply bias_accumulation_ties.
  - intros s r c. apply window_ties_bounds.
Qed.

Lemma conv_backward_bias_gradient_counts_ties_witness :
  returns (conv_forward conv_ex_X conv_ex_parameters) (λ '(Z, cache),
    returns (conv_backward (np_zeros [3125; 1]) cache conv_ex_parameters)
      (λ gradients,
      ∀ i, i < 5 →
        gradients !! ("dconvb" +:+ str (i + 1))
        = Some (nd_scalar
                  (bias_accumulation
                     (pre_pool_gradient conv_ex_X (np_zeros [3; 3])
                        (nd_scalar 0%R) (np_zeros [3125; 1]) i) 1)) ∧
        bias_accumulation
          (pre_pool_gradient conv_ex_X (np_zeros [3; 3]) (nd_scalar 0%R)
             (np_zeros [3125; 1]) i) 1
        = tie_weighted_mean conv_ex_X (np_zeros [3; 3]) (nd_scalar 0%R)
            (np_zeros [3125; 1]) i 1 ∧
        ∀ s r c,
          Rle 1 (window_ties
                   (conv_entry conv_ex_X (np_zeros [3; 3]) (nd_scalar 0%R) s)
                   r c) ∧
          Rle (window_ties
                 (conv_entry conv_ex_X (np_zeros [3; 3]) (nd_scalar 0%R) s)
                 r c) 4)).
Proof.
  apply (conv_backward_bias_gradient_counts_ties conv_ex_X
           (np_zeros [3125; 1]) conv_ex_parameters
           (λ _, np_zeros [3; 3]) (λ _, nd_scalar 0%R) 1).
  - apply has_shape_build.
  - apply conv_ex_bank.
  - apply has_shape_build.
Defined.
